(** * Sankey graph construction (Country -> Discipline -> Gender)

    A shallow embedding of the [graph] computation of
    [CountryDisciplineGenderSankey.tsx] (Homework 2 and Homework 3 variants),
    of [parseDisciplinesField] of the scatter plot ([HeightWeightScatter])
    and of the click handler of the country bar chart ([CountryBarChart]),
    followed by the properties of the flow graph they build.

    Conventions of the embedding:
    - a JavaScript string is the list of its UTF-16 code units ([N]);
    - a JavaScript [Map] / [Set] is an association list / list kept in
      insertion order, which is the order in which JavaScript iterates them;
    - [Array.prototype.sort] is a stable sort, written as a stable insertion
      sort; [sorts] is the contract that the language gives it, [OnEngine]
      the computation on the [sort] of any engine, and the contract is
      proved to have one result ([sorts_unique]);
    - [undefined] results ([Map.get] on a missing key) are [None]. *)

From Stdlib Require Import String Ascii NArith ZArith Bool Arith Lia.
From Stdlib Require Import List Permutation Sorted.
Import ListNotations.

(* ================================================================= *)
(** ** JavaScript strings *)

Definition char := N.
Definition jsstring := list char.

(** Code units of a literal (all literals used here are ASCII). *)
Definition lit (s : string) : jsstring :=
  map N_of_ascii (list_ascii_of_string s).

Fixpoint str_eqb (a b : jsstring) : bool :=
  match a, b with
  | [], [] => true
  | x :: a', y :: b' => (x =? y)%N && str_eqb a' b'
  | _, _ => false
  end.

(** [a < b] on strings: comparison of code units, as [<] and the default
    [sort] comparator do. *)
Fixpoint str_ltb (a b : jsstring) : bool :=
  match a, b with
  | _, [] => false
  | [], _ :: _ => true
  | x :: a', y :: b' =>
      if (x <? y)%N then true
      else if (y <? x)%N then false
      else str_ltb a' b'
  end.

(** WhiteSpace and LineTerminator code units, the ones [trim] strips. *)
Definition is_ws (c : char) : bool :=
  ((c =? 9) || (c =? 10) || (c =? 11) || (c =? 12) || (c =? 13) ||
   (c =? 32) || (c =? 160) || (c =? 5760) ||
   ((8192 <=? c) && (c <=? 8202)) ||
   (c =? 8232) || (c =? 8233) || (c =? 8239) || (c =? 8287) ||
   (c =? 12288) || (c =? 65279))%N.

Fixpoint trimStart (s : jsstring) : jsstring :=
  match s with
  | [] => []
  | c :: s' => if is_ws c then trimStart s' else s
  end.

Definition trimEnd (s : jsstring) : jsstring := rev (trimStart (rev s)).

Definition trim (s : jsstring) : jsstring := trimEnd (trimStart s).

(** [s.startsWith(p)] *)
Fixpoint startsWith (p s : jsstring) : bool :=
  match p, s with
  | [], _ => true
  | _ :: _, [] => false
  | x :: p', y :: s' => (x =? y)%N && startsWith p' s'
  end.

(** [s.split(/[...]/g)] for a class of single characters [sepc]: every
    separator character ends a piece; empty pieces are kept. *)
Fixpoint split_chars (sepc : char -> bool) (s : jsstring) : list jsstring :=
  match s with
  | [] => [[]]
  | c :: s' =>
      if sepc c then [] :: split_chars sepc s'
      else match split_chars sepc s' with
           | w :: ws => (c :: w) :: ws
           | [] => [[c]]
           end
  end.

(** [s.split(sep)] for a non-empty string [sep]: the leftmost occurrence of
    [sep] ends a piece and the scan resumes after it.  [skip] counts the
    characters of a matched separator that are still to be passed. *)
Fixpoint split_from (sep : jsstring) (skip : nat) (s : jsstring)
  : list jsstring :=
  match s with
  | [] => [[]]
  | c :: s' =>
      match skip with
      | S k => split_from sep k s'
      | O =>
          if startsWith sep s then [] :: split_from sep (length sep - 1) s'
          else match split_from sep 0 s' with
               | w :: ws => (c :: w) :: ws
               | [] => [[c]]
               end
      end
  end.

Definition split (sep s : jsstring) : list jsstring := split_from sep 0 s.

(** [parts.join(sep)] *)
Fixpoint join (sep : jsstring) (parts : list jsstring) : jsstring :=
  match parts with
  | [] => []
  | [p] => p
  | p :: ps => p ++ sep ++ join sep ps
  end.

(* ================================================================= *)
(** ** Arrays *)

(** [arr.sort(cmp)]: stable; [x] goes before the first [y] with
    [cmp x y <= 0]. *)
Fixpoint insert_sorted {A} (cmp : A -> A -> Z) (x : A) (l : list A) : list A :=
  match l with
  | [] => [x]
  | y :: l' =>
      if (cmp x y <=? 0)%Z then x :: l else y :: insert_sorted cmp x l'
  end.

Definition sort_with {A} (cmp : A -> A -> Z) (l : list A) : list A :=
  fold_right (insert_sorted cmp) [] l.

(** The comparator of [arr.sort()] without argument, on strings. *)
Definition default_compare (a b : jsstring) : Z :=
  if str_ltb a b then (-1)%Z else if str_ltb b a then 1%Z else 0%Z.

Definition sort (l : list jsstring) : list jsstring :=
  sort_with default_compare l.

(** [arr.slice(0, n)] for an integer [n]: a negative [n] counts from the
    end of the array. *)
Definition slice0 {A} (n : Z) (l : list A) : list A :=
  let len := Z.of_nat (length l) in
  let k := if (n <? 0)%Z then Z.max (len + n) 0 else Z.min n len in
  firstn (Z.to_nat k) l.

(** [arr.map((x, i) => f x i)] *)
Fixpoint mapi_from {A B} (i : nat) (f : A -> nat -> B) (l : list A) : list B :=
  match l with
  | [] => []
  | x :: l' => f x i :: mapi_from (S i) f l'
  end.

Definition mapi {A B} (f : A -> nat -> B) (l : list A) : list B :=
  mapi_from 0 f l.

(* ================================================================= *)
(** ** [Map] and [Set] with string keys, in insertion order *)

Definition JSMap (V : Type) := list (jsstring * V).

Fixpoint map_get {V} (k : jsstring) (m : JSMap V) : option V :=
  match m with
  | [] => None
  | (k', v) :: m' => if str_eqb k k' then Some v else map_get k m'
  end.

(** [m.set(k, v)]: an existing key keeps its position. *)
Fixpoint map_set {V} (k : jsstring) (v : V) (m : JSMap V) : JSMap V :=
  match m with
  | [] => [(k, v)]
  | (k', v') :: m' =>
      if str_eqb k k' then (k', v) :: m' else (k', v') :: map_set k v m'
  end.

(** [new Map(entries)] *)
Definition new_Map {V} (entries : list (jsstring * V)) : JSMap V :=
  fold_left (fun m e => map_set (fst e) (snd e) m) entries [].

Definition JSSet := list jsstring.

Definition set_has (x : jsstring) (s : JSSet) : bool :=
  existsb (str_eqb x) s.

Definition set_add (x : jsstring) (s : JSSet) : JSSet :=
  if set_has x s then s else s ++ [x].

(** [new Set(values)]; [Array.from] of it is the list itself. *)
Definition new_Set (values : list jsstring) : JSSet :=
  fold_left (fun s x => set_add x s) values [].

(* ================================================================= *)
(** ** d3-array *)

(** [d3.descending(a, b)] on numbers. *)
Definition descending (a b : nat) : Z :=
  if b <? a then (-1)%Z else if a <? b then 1%Z else 0%Z.

(** [d3.group(values, key)]: an [InternMap] from each key to the array of
    the values that have it, keys in order of first occurrence. *)
Definition group {A} (key : A -> jsstring) (values : list A)
  : JSMap (list A) :=
  fold_left
    (fun groups value =>
       let k := key value in
       match map_get k groups with
       | Some g => map_set k (g ++ [value]) groups
       | None => map_set k [value] groups
       end)
    values [].

(** [d3.rollup(values, reduce, key)] *)
Definition rollup {A R} (reduce : list A -> R) (key : A -> jsstring)
  (values : list A) : JSMap R :=
  map (fun kv => (fst kv, reduce (snd kv))) (group key values).

(* ================================================================= *)
(** ** Data shared by the charts *)

(** [AthleteRow]: every field may be absent. *)
Record AthleteRow := mkRow {
  country : option jsstring;
  disciplines : option jsstring;
  gender : option jsstring
}.

(** An element of [cleaned]. *)
Record CleanedRow := mkCleaned {
  c_country : jsstring;
  disciplineRaw : jsstring;
  c_gender : jsstring
}.

(** An element of [exploded]. *)
Record ExplodedRow := mkExploded {
  e_country : jsstring;
  discipline : jsstring;
  e_gender : jsstring
}.

(** An element of [linksNamed] (Homework 3) / [links] (Homework 2). *)
Record NamedLink := mkNamed {
  l_source : jsstring;
  l_target : jsstring;
  l_value : nat
}.

Record SankeyNode := mkNode { name : jsstring }.

(** A link of the returned graph; an endpoint that [idx.get] does not find
    is [undefined]. *)
Record SankeyLink := mkLink {
  source : option nat;
  target : option nat;
  value : nat
}.

Record FlowGraph := mkGraph {
  nodes : list SankeyNode;
  links : list SankeyLink
}.

Definition sep_chars (c : char) : bool :=
  ((c =? 44) || (c =? 59) || (c =? 124) || (c =? 47))%N.

Definition key_sep : jsstring := Eval cbv in lit "|||".
Definition prefix_C : jsstring := Eval cbv in lit "C: ".
Definition prefix_D : jsstring := Eval cbv in lit "D: ".
Definition prefix_G : jsstring := Eval cbv in lit "G: ".
Definition Unknown_Country : jsstring := Eval cbv in lit "Unknown Country".
Definition Unknown_Discipline : jsstring := Eval cbv in lit "Unknown Discipline".
Definition Unknown : jsstring := Eval cbv in lit "Unknown".

(** A [selectedCountry] used as a condition: [null] and the empty string
    are falsy. *)
Definition truthy (s : option jsstring) : bool :=
  match s with
  | Some (_ :: _) => true
  | _ => false
  end.

(* ================================================================= *)
(** ** Homework 3: [CountryDisciplineGenderSankey] with a selected country *)

Module Homework3.

Definition clean (v : option jsstring) (fallback : jsstring) : jsstring :=
  let s := trim (match v with Some x => x | None => [] end) in
  if (0 <? length s) then s else fallback.

Definition splitDisciplines (s : jsstring) : list jsstring :=
  let parts :=
    filter (fun x => 0 <? length x) (map trim (split_chars sep_chars s)) in
  if (0 <? length parts) then parts else [s].

Definition cleaned (data : list AthleteRow) : list CleanedRow :=
  map (fun d => mkCleaned (clean (country d) Unknown_Country)
                          (clean (disciplines d) Unknown_Discipline)
                          (clean (gender d) Unknown))
      data.

Definition base (selectedCountry : option jsstring)
  (cleaned : list CleanedRow) : list CleanedRow :=
  if truthy selectedCountry
  then filter (fun d => match selectedCountry with
                        | Some sel => str_eqb (c_country d) sel
                        | None => false
                        end) cleaned
  else cleaned.

Definition countryCounts (base : list CleanedRow) : JSMap nat :=
  rollup (@length CleanedRow) c_country base.

Definition topCountrySet (topCountries : Z) (base : list CleanedRow) : JSSet :=
  new_Set
    (map fst
       (slice0 topCountries
          (sort_with (fun a b => descending (snd a) (snd b))
             (countryCounts base)))).

Definition filteredCountries (selectedCountry : option jsstring)
  (topCountries : Z) (base : list CleanedRow) : list CleanedRow :=
  if negb (truthy selectedCountry)
  then filter (fun d => set_has (c_country d) (topCountrySet topCountries base))
              base
  else base.

Definition exploded (filteredCountries : list CleanedRow) : list ExplodedRow :=
  flat_map
    (fun d => map (fun disc => mkExploded (c_country d) disc (c_gender d))
                  (splitDisciplines (disciplineRaw d)))
    filteredCountries.

Definition discCounts (exploded : list ExplodedRow) : JSMap nat :=
  rollup (@length ExplodedRow) discipline exploded.

Definition topDiscSet (topDisciplines : Z) (exploded : list ExplodedRow)
  : JSSet :=
  new_Set
    (map fst
       (slice0 topDisciplines
          (sort_with (fun a b => descending (snd a) (snd b))
             (discCounts exploded)))).

Definition finalRows (topDisciplines : Z) (exploded : list ExplodedRow)
  : list ExplodedRow :=
  filter (fun d => set_has (discipline d) (topDiscSet topDisciplines exploded))
         exploded.

Definition addLink (source target : jsstring) (value : nat)
  (linksMap : JSMap nat) : JSMap nat :=
  let key := source ++ key_sep ++ target in
  map_set key
    (match map_get key linksMap with Some v => v | None => 0 end + value)
    linksMap.

Definition linksMap (finalRows : list ExplodedRow) : JSMap nat :=
  fold_left
    (fun m r =>
       let c := prefix_C ++ e_country r in
       let p := prefix_D ++ discipline r in
       let g := prefix_G ++ e_gender r in
       addLink p g 1 (addLink c p 1 m))
    finalRows [].

(** [const [source, target] = key.split("|||")]: the first two pieces. *)
Definition linksNamed (linksMap : JSMap nat) : list NamedLink :=
  map (fun kv =>
         let pieces := split key_sep (fst kv) in
         mkNamed (nth 0 pieces []) (nth 1 pieces []) (snd kv))
      linksMap.

Definition nodeNames (linksNamed : list NamedLink) : list jsstring :=
  new_Set (flat_map (fun l => [l_source l; l_target l]) linksNamed).

Definition countries (nodeNames : list jsstring) : list jsstring :=
  sort (filter (startsWith prefix_C) nodeNames).

Definition disciplines_ (nodeNames : list jsstring) : list jsstring :=
  sort (filter (startsWith prefix_D) nodeNames).

Definition genders (nodeNames : list jsstring) : list jsstring :=
  sort (filter (startsWith prefix_G) nodeNames).

Definition ordered (nodeNames : list jsstring) : list jsstring :=
  countries nodeNames ++ disciplines_ nodeNames ++ genders nodeNames.

Definition idx (nodes : list SankeyNode) : JSMap nat :=
  new_Map (mapi (fun n i => (name n, i)) nodes).

Definition graph (data : list AthleteRow) (topCountries topDisciplines : Z)
  (selectedCountry : option jsstring) : FlowGraph :=
  let cleaned := cleaned data in
  let base := base selectedCountry cleaned in
  let filteredCountries := filteredCountries selectedCountry topCountries base in
  let exploded := exploded filteredCountries in
  let finalRows := finalRows topDisciplines exploded in
  let linksNamed := linksNamed (linksMap finalRows) in
  let nodes := map mkNode (ordered (nodeNames linksNamed)) in
  let idx := idx nodes in
  let links :=
    map (fun l => mkLink (map_get (l_source l) idx)
                         (map_get (l_target l) idx)
                         (l_value l))
        linksNamed in
  mkGraph nodes links.

(** [layer] of the drawing effect: the legend entry that gives a node its
    colour. *)
Definition layer (name : jsstring) : jsstring :=
  if startsWith prefix_C name then lit "Country"
  else if startsWith prefix_D name then lit "Discipline"
  else lit "Gender".

(** The text of a node label: [d.name.replace(/^C:\s|^D:\s|^G:\s/, empty)].
    The pattern is anchored and not global, so it can only remove the first
    three characters. *)
Definition label_text (name : jsstring) : jsstring :=
  match name with
  | c0 :: c1 :: c2 :: rest =>
      if ((c0 =? 67) || (c0 =? 68) || (c0 =? 71))%N && (c1 =? 58)%N
         && is_ws c2
      then rest else name
  | _ => name
  end.

(** The characters that [.] does not match in a pattern. *)
Definition is_line_terminator (c : char) : bool :=
  ((c =? 10) || (c =? 13) || (c =? 8232) || (c =? 8233))%N.

(** The name shown in a tooltip: [d.name.replace(/^.\:\s/, empty)]. *)
Definition tooltip_text (name : jsstring) : jsstring :=
  match name with
  | c0 :: c1 :: c2 :: rest =>
      if negb (is_line_terminator c0) && (c1 =? 58)%N && is_ws c2
      then rest else name
  | _ => name
  end.

End Homework3.

(* ================================================================= *)
(** ** Homework 2: [CountryDisciplineGenderSankey] without selection *)

Module Homework2.

Definition clean (v : option jsstring) (fallback : jsstring) : jsstring :=
  let s := trim (match v with Some x => x | None => [] end) in
  if (0 <? length s) then s else fallback.

Definition splitDisciplines (s : jsstring) : list jsstring :=
  let parts :=
    filter (fun x => 0 <? length x) (map trim (split_chars sep_chars s)) in
  if (0 <? length parts) then parts else [s].

Definition cleaned (data : list AthleteRow) : list CleanedRow :=
  map (fun d => mkCleaned (clean (country d) Unknown_Country)
                          (clean (disciplines d) Unknown_Discipline)
                          (clean (gender d) Unknown))
      data.

Definition countryCounts (cleaned : list CleanedRow) : JSMap nat :=
  rollup (@length CleanedRow) c_country cleaned.

Definition topCountrySet (topCountries : Z) (cleaned : list CleanedRow)
  : JSSet :=
  new_Set
    (map fst
       (slice0 topCountries
          (sort_with (fun a b => descending (snd a) (snd b))
             (countryCounts cleaned)))).

Definition filteredCountries (topCountries : Z) (cleaned : list CleanedRow)
  : list CleanedRow :=
  filter (fun d => set_has (c_country d) (topCountrySet topCountries cleaned))
         cleaned.

Definition exploded (filteredCountries : list CleanedRow) : list ExplodedRow :=
  flat_map
    (fun d => map (fun disc => mkExploded (c_country d) disc (c_gender d))
                  (splitDisciplines (disciplineRaw d)))
    filteredCountries.

Definition discCounts (exploded : list ExplodedRow) : JSMap nat :=
  rollup (@length ExplodedRow) discipline exploded.

Definition topDiscSet (topDisciplines : Z) (exploded : list ExplodedRow)
  : JSSet :=
  new_Set
    (map fst
       (slice0 topDisciplines
          (sort_with (fun a b => descending (snd a) (snd b))
             (discCounts exploded)))).

Definition finalRows (topDisciplines : Z) (exploded : list ExplodedRow)
  : list ExplodedRow :=
  filter (fun d => set_has (discipline d) (topDiscSet topDisciplines exploded))
         exploded.

Definition addLink (source target : jsstring) (value : nat)
  (linksMap : JSMap nat) : JSMap nat :=
  let key := source ++ key_sep ++ target in
  map_set key
    (match map_get key linksMap with Some v => v | None => 0 end + value)
    linksMap.

Definition linksMap (finalRows : list ExplodedRow) : JSMap nat :=
  fold_left
    (fun m r =>
       let c := prefix_C ++ e_country r in
       let p := prefix_D ++ discipline r in
       let g := prefix_G ++ e_gender r in
       addLink p g 1 (addLink c p 1 m))
    finalRows [].

(** The named [links] array. *)
Definition links_ (linksMap : JSMap nat) : list NamedLink :=
  map (fun kv =>
         let pieces := split key_sep (fst kv) in
         mkNamed (nth 0 pieces []) (nth 1 pieces []) (snd kv))
      linksMap.

Definition nodeNames (links : list NamedLink) : list jsstring :=
  new_Set (flat_map (fun l => [l_source l; l_target l]) links).

Definition countries (nodeNames : list jsstring) : list jsstring :=
  filter (startsWith prefix_C) nodeNames.

Definition disciplines_ (nodeNames : list jsstring) : list jsstring :=
  filter (startsWith prefix_D) nodeNames.

Definition genders (nodeNames : list jsstring) : list jsstring :=
  filter (startsWith prefix_G) nodeNames.

Definition ordered (nodeNames : list jsstring) : list jsstring :=
  sort (countries nodeNames) ++ sort (disciplines_ nodeNames)
    ++ sort (genders nodeNames).

Definition idx (nodes : list SankeyNode) : JSMap nat :=
  new_Map (mapi (fun n i => (name n, i)) nodes).

Definition graph (data : list AthleteRow) (topCountries topDisciplines : Z)
  : FlowGraph :=
  let cleaned := cleaned data in
  let filteredCountries := filteredCountries topCountries cleaned in
  let exploded := exploded filteredCountries in
  let finalRows := finalRows topDisciplines exploded in
  let links := links_ (linksMap finalRows) in
  let nodes := map mkNode (ordered (nodeNames links)) in
  let idx := idx nodes in
  let sankeyLinks :=
    map (fun l => mkLink (map_get (l_source l) idx)
                         (map_get (l_target l) idx)
                         (l_value l))
        links in
  mkGraph nodes sankeyLinks.

End Homework2.

(* ================================================================= *)
(** ** [parseDisciplinesField] of the scatter plot *)

Module HeightWeightScatter.

Definition quote : char := 39%N.

(** The capture groups of [s.matchAll(/'([^']+)'/g)].  [open] is [Some acc]
    after an opening quote, [acc] being the characters read since then,
    last first.  A quote that follows an opening quote at once cannot close
    it (the group needs one character), and is the next candidate opening
    quote. *)
Fixpoint quoted_from (open : option jsstring) (s : jsstring)
  : list jsstring :=
  match s with
  | [] => []
  | c :: s' =>
      match open with
      | None =>
          if (c =? quote)%N then quoted_from (Some []) s'
          else quoted_from None s'
      | Some acc =>
          if (c =? quote)%N then
            match acc with
            | [] => quoted_from (Some []) s'
            | _ :: _ => rev acc :: quoted_from None s'
            end
          else quoted_from (Some (c :: acc)) s'
      end
  end.

Definition quoted_items (s : jsstring) : list jsstring := quoted_from None s.

(** The first [replace] of the fallback: it removes one leading opening
    bracket and one trailing closing bracket. *)
Definition strip_brackets (s : jsstring) : jsstring :=
  let s1 := match s with
            | c :: s' => if (c =? 91)%N then s' else s
            | [] => []
            end in
  match rev s1 with
  | c :: r => if (c =? 93)%N then rev r else s1
  | [] => s1
  end.

Definition parseDisciplinesField (v : option jsstring) : jsstring :=
  let s := trim (match v with Some x => x | None => [] end) in
  if negb (0 <? length s) then Unknown
  else
    let matches := map trim (quoted_items s) in
    if (0 <? length matches) then join (lit ", ") matches
    else trim (filter (fun c => negb (c =? 34)%N) (strip_brackets s)).

End HeightWeightScatter.

(* ================================================================= *)
(** ** The click handler of [CountryBarChart] *)

Module CountryBarChart.

(** [onSelectCountry(selectedCountry === d.country ? null : d.country)],
    where [onSelectCountry] is the application's [setSelectedCountry]:
    the result is the next selection. *)
Definition onClick (selectedCountry : option jsstring) (d_country : jsstring)
  : option jsstring :=
  match selectedCountry with
  | Some sel => if str_eqb sel d_country then None else Some d_country
  | None => Some d_country
  end.

(** [String(v)] for a field that is a string or [undefined]. *)
Definition String_ (v : option jsstring) : jsstring :=
  match v with
  | Some s => s
  | None => lit "undefined"
  end.

(** The bars, [rows]: a pair is the object [{country, count}].  Records
    whose country is missing or blank are left out before counting. *)
Definition rows (data : list AthleteRow) (topN : Z) : list (jsstring * nat) :=
  let counts :=
    rollup (@length AthleteRow)
      (fun d => trim (String_ (country d)))
      (filter (fun d => truthy (country d)
                        && (0 <? length (trim (String_ (country d)))))
              data) in
  slice0 topN (sort_with (fun a b => descending (snd a) (snd b)) counts).

End CountryBarChart.

(* ================================================================= *)
(** ** The dashboard: [stats] of [App] *)

Module App.

(** [values.filter(Boolean)] on fields that are strings or [undefined]. *)
Definition filter_Boolean (values : list (option jsstring)) : list jsstring :=
  flat_map (fun v => match v with
                     | Some s => if truthy v then [s] else []
                     | None => []
                     end)
           values.

Definition country_values (rows : list AthleteRow) : list (option jsstring) :=
  map country rows.

Definition disciplines_values (rows : list AthleteRow)
  : list (option jsstring) :=
  map disciplines rows.

Record Stats := mkStats { n : nat; countries : nat; disciplines : nat }.

Definition stats (rows : list AthleteRow) : Stats :=
  let n := length rows in
  let countries := new_Set (filter_Boolean (country_values rows)) in
  let disciplines := new_Set (filter_Boolean (disciplines_values rows)) in
  mkStats n (length countries) (length disciplines).

End App.

(* ================================================================= *)
(** ** [sort] as the language fixes it *)

(** ECMAScript fixes the result of [Array.prototype.sort] by a contract and
    leaves the algorithm to the engine: the result is a permutation of the
    array, in the order of the comparator, and elements that compare equal
    keep the order they had in the array.  [comes_first cmp a b]: the
    comparator lets [a] stand before [b]; [tied cmp a b]: it lets either
    stand before the other. *)
Definition comes_first {A} (cmp : A -> A -> Z) (a b : A) : Prop :=
  (cmp a b <= 0)%Z.

Definition tied {A} (cmp : A -> A -> Z) (a b : A) : bool :=
  (cmp a b <=? 0)%Z && (cmp b a <=? 0)%Z.

(** [sorts cmp l s]: [s] is a result that the contract allows for
    [l.sort(cmp)]. *)
Definition sorts {A} (cmp : A -> A -> Z) (l s : list A) : Prop :=
  Permutation l s
  /\ StronglySorted (comes_first cmp) s
  /\ forall z, filter (tied cmp z) s = filter (tied cmp z) l.

(** The comparator of the two top-N selections, on the entries of a count
    map: [(a, b) => d3.descending(a.v, b.v)]. *)
Definition count_order (a b : jsstring * nat) : Z :=
  descending (snd a) (snd b).

(** An engine gives the two kinds of [sort] calls of the graph computation:
    entries of a count map by descending count, and node names by the
    default order. *)
Record Engine := mkEngine {
  sort_entries : list (jsstring * nat) -> list (jsstring * nat);
  sort_strings : list jsstring -> list jsstring
}.

Definition conforms (e : Engine) : Prop :=
  (forall l, sorts count_order l (sort_entries e l))
  /\ (forall l, sorts default_compare l (sort_strings e l)).

(** The engine of the definitions above: insertion from the right. *)
Definition insertion_engine : Engine :=
  mkEngine (sort_with count_order) sort.

(** Another algorithm: the array is read from the left and each element is
    put behind the elements that may stand before it. *)
Fixpoint insert_behind {A} (cmp : A -> A -> Z) (x : A) (l : list A) : list A :=
  match l with
  | [] => [x]
  | y :: l' =>
      if (cmp y x <=? 0)%Z then y :: insert_behind cmp x l' else x :: l
  end.

Definition sort_behind {A} (cmp : A -> A -> Z) (l : list A) : list A :=
  fold_left (fun s x => insert_behind cmp x s) l [].

Definition append_engine : Engine :=
  mkEngine (sort_behind count_order) (sort_behind default_compare).

(** The graph computation of Homework 3 with the [sort] calls of an
    engine; every other step is the one of [Homework3]. *)
Module OnEngine.

Section Pipeline.

Variable e : Engine.

Definition topCountrySet (topCountries : Z) (base : list CleanedRow) : JSSet :=
  new_Set
    (map fst
       (slice0 topCountries
          (sort_entries e (Homework3.countryCounts base)))).

Definition filteredCountries (selectedCountry : option jsstring)
  (topCountries : Z) (base : list CleanedRow) : list CleanedRow :=
  if negb (truthy selectedCountry)
  then filter (fun d => set_has (c_country d) (topCountrySet topCountries base))
              base
  else base.

Definition topDiscSet (topDisciplines : Z) (exploded : list ExplodedRow)
  : JSSet :=
  new_Set
    (map fst
       (slice0 topDisciplines
          (sort_entries e (Homework3.discCounts exploded)))).

Definition finalRows (topDisciplines : Z) (exploded : list ExplodedRow)
  : list ExplodedRow :=
  filter (fun d => set_has (discipline d) (topDiscSet topDisciplines exploded))
         exploded.

Definition countries (nodeNames : list jsstring) : list jsstring :=
  sort_strings e (filter (startsWith prefix_C) nodeNames).

Definition disciplines_ (nodeNames : list jsstring) : list jsstring :=
  sort_strings e (filter (startsWith prefix_D) nodeNames).

Definition genders (nodeNames : list jsstring) : list jsstring :=
  sort_strings e (filter (startsWith prefix_G) nodeNames).

Definition ordered (nodeNames : list jsstring) : list jsstring :=
  countries nodeNames ++ disciplines_ nodeNames ++ genders nodeNames.

Definition graph (data : list AthleteRow) (topCountries topDisciplines : Z)
  (selectedCountry : option jsstring) : FlowGraph :=
  let cleaned := Homework3.cleaned data in
  let base := Homework3.base selectedCountry cleaned in
  let filteredCountries := filteredCountries selectedCountry topCountries base in
  let exploded := Homework3.exploded filteredCountries in
  let finalRows := finalRows topDisciplines exploded in
  let linksNamed := Homework3.linksNamed (Homework3.linksMap finalRows) in
  let nodes := map mkNode (ordered (Homework3.nodeNames linksNamed)) in
  let idx := Homework3.idx nodes in
  let links :=
    map (fun l => mkLink (map_get (l_source l) idx)
                         (map_get (l_target l) idx)
                         (l_value l))
        linksNamed in
  mkGraph nodes links.

End Pipeline.

End OnEngine.

(** The dashboard: the selection that [App] holds and the graph that the
    Sankey view shows for it.  A click on the bar of a country sets the
    selection with [onClick], and the view computes its graph again, on
    the engine of the moment. *)
Record Dashboard := mkDashboard {
  selected : option jsstring;
  shown : FlowGraph
}.

Definition render (e : Engine) (data : list AthleteRow)
  (topCountries topDisciplines : Z) (selectedCountry : option jsstring)
  : Dashboard :=
  mkDashboard selectedCountry
    (OnEngine.graph e data topCountries topDisciplines selectedCountry).

Definition click (e : Engine) (data : list AthleteRow)
  (topCountries topDisciplines : Z) (s : Dashboard) (d_country : jsstring)
  : Dashboard :=
  render e data topCountries topDisciplines
    (CountryBarChart.onClick (selected s) d_country).

(* ================================================================= *)
(** ** Vocabulary of the properties *)

(** *** Stages of [graph] as functions of its inputs *)

(** [finalRows] and [linksNamed] as functions of the inputs of [graph],
    and [graph] from [linksNamed] on. *)
Definition final_rows (data : list AthleteRow) (tc td : Z)
  (sel : option jsstring) : list ExplodedRow :=
  Homework3.finalRows td
    (Homework3.exploded
       (Homework3.filteredCountries sel tc
          (Homework3.base sel (Homework3.cleaned data)))).

Definition named_links (data : list AthleteRow) (tc td : Z)
  (sel : option jsstring) : list NamedLink :=
  Homework3.linksNamed (Homework3.linksMap (final_rows data tc td sel)).

Definition graph_of_links (linksNamed : list NamedLink) : FlowGraph :=
  let nodes :=
    map mkNode (Homework3.ordered (Homework3.nodeNames linksNamed)) in
  mkGraph nodes
    (map (fun l => mkLink (map_get (l_source l) (Homework3.idx nodes))
                          (map_get (l_target l) (Homework3.idx nodes))
                          (l_value l))
         linksNamed).

(** *** Graphs *)

Definition empty_graph : FlowGraph := mkGraph [] [].

(** Names of the nodes of a tier, in graph order. *)
Definition tier (prefix : jsstring) (g : FlowGraph) : list jsstring :=
  filter (startsWith prefix) (map name (nodes g)).

(** Flow through a node: [flow_in g i] is the total weight of the links
    that enter node [i] from a node of the country tier, [flow_out g i] the
    total weight of the links that leave it for a node of the gender
    tier. *)
Definition endpoint_is (e : option nat) (i : nat) : bool :=
  match e with
  | Some j => j =? i
  | None => false
  end.

Definition endpoint_in_tier (prefix : jsstring) (g : FlowGraph)
  (e : option nat) : bool :=
  match e with
  | Some j =>
      match nth_error (nodes g) j with
      | Some n => startsWith prefix (name n)
      | None => false
      end
  | None => false
  end.

Definition flow_in (g : FlowGraph) (i : nat) : nat :=
  list_sum
    (map value
       (filter (fun l => endpoint_is (target l) i
                         && endpoint_in_tier prefix_C g (source l))
               (links g))).

Definition flow_out (g : FlowGraph) (i : nat) : nat :=
  list_sum
    (map value
       (filter (fun l => endpoint_is (source l) i
                         && endpoint_in_tier prefix_G g (target l))
               (links g))).

Definition double_weights (g : FlowGraph) : FlowGraph :=
  mkGraph (nodes g)
    (map (fun l => mkLink (source l) (target l) (2 * value l)) (links g)).

(** [Doubled l l']: [l'] is [l] with every element given twice, block by
    block; [l ++ l] and the list that repeats each element in place are
    the two extreme cases. *)
Inductive Doubled {A : Type} : list A -> list A -> Prop :=
| dbl_nil : Doubled [] []
| dbl_block (b l l' : list A) :
    Doubled l l' -> Doubled (b ++ l) (b ++ b ++ l').

(** *** Fields and labels *)

(** A field that is missing, empty or made of white space only. *)
Definition blank (v : option jsstring) : bool :=
  negb (0 <? length (trim (match v with Some x => x | None => [] end))).

(** Strings without any of the separators [, ; | /]. *)
Definition sep_free (s : jsstring) : bool :=
  forallb (fun c => negb (sep_chars c)) s.

(** [pieces_of sepc s ps]: [ps] are the maximal runs of [s] between
    characters of the class [sepc], in order. *)
Inductive pieces_of (sepc : char -> bool) : jsstring -> list jsstring -> Prop :=
| pieces_last (p : jsstring) :
    forallb (fun c => negb (sepc c)) p = true -> pieces_of sepc p [p]
| pieces_more (p : jsstring) (c : char) (s : jsstring) (ps : list jsstring) :
    forallb (fun c => negb (sepc c)) p = true -> sepc c = true ->
    pieces_of sepc s ps -> pieces_of sepc (p ++ c :: s) (p :: ps).

(** The trimmed, non-empty pieces of a disciplines field. *)
Definition kept_pieces (s : jsstring) : list jsstring :=
  filter (fun x => 0 <? length x) (map trim (split_chars sep_chars s)).

(** Strings without the character [|], the one the link keys are made of. *)
Definition no_pipe (s : jsstring) : bool :=
  forallb (fun c => negb (c =? 124)%N) s.

(** A record whose three labels (country, every discipline, gender) have
    no [|]. *)
Definition safe_row (d : AthleteRow) : bool :=
  no_pipe (Homework3.clean (country d) Unknown_Country)
  && forallb no_pipe
       (Homework3.splitDisciplines
          (Homework3.clean (disciplines d) Unknown_Discipline))
  && no_pipe (Homework3.clean (gender d) Unknown).

Definition safe_labels (data : list AthleteRow) : bool :=
  forallb safe_row data.

Definition safe_exploded (r : ExplodedRow) : bool :=
  no_pipe (e_country r) && no_pipe (discipline r) && no_pipe (e_gender r).

(** *** Link keys *)

(** The labels of a final row and the keys it adds to [linksMap]. *)
Definition label_C (r : ExplodedRow) : jsstring := prefix_C ++ e_country r.
Definition label_D (r : ExplodedRow) : jsstring := prefix_D ++ discipline r.
Definition label_G (r : ExplodedRow) : jsstring := prefix_G ++ e_gender r.

Definition key_CD (r : ExplodedRow) : jsstring :=
  label_C r ++ key_sep ++ label_D r.
Definition key_DG (r : ExplodedRow) : jsstring :=
  label_D r ++ key_sep ++ label_G r.

Definition link_keys (rows : list ExplodedRow) : list jsstring :=
  flat_map (fun r => [key_CD r; key_DG r]) rows.

(** The key of a pair of labels, and the two pieces that [linksNamed]
    reads from a key. *)
Definition encode (p : jsstring * jsstring) : jsstring :=
  fst p ++ key_sep ++ snd p.

Definition decode (k : jsstring) : jsstring * jsstring :=
  (nth 0 (split key_sep k) [], nth 1 (split key_sep k) []).

(** The rows that contribute the pair ([s], [t]). *)
Definition contributes (r : ExplodedRow) (s t : jsstring) : bool :=
  (str_eqb s (label_C r) && str_eqb t (label_D r))
  || (str_eqb s (label_D r) && str_eqb t (label_G r)).

(** Number of occurrences of a key in a sequence of keys. *)
Definition count (k : jsstring) (ks : list jsstring) : nat :=
  length (filter (str_eqb k) ks).

(** The keys of [ks] in order of first occurrence, each with its number of
    occurrences. *)
Definition tally (ks : list jsstring) : JSMap nat :=
  map (fun k => (k, count k ks)) (new_Set ks).

(** *** Top-N selection *)

(** The keys retained by a top-N selection on a map of counts, as
    [topCountrySet] and [topDiscSet] compute them. *)
Definition top_keys (n : Z) (counts : JSMap nat) : JSSet :=
  new_Set
    (map fst
       (slice0 n (sort_with (fun a b => descending (snd a) (snd b)) counts))).

(** Entries in descending order of count. *)
Definition by_count (a b : jsstring * nat) : Prop := snd b <= snd a.

(** [first_before c' c ks]: [c'] occurs in [ks] before any [c]. *)
Definition first_before (c' c : jsstring) (ks : list jsstring) : Prop :=
  exists pre post, ks = pre ++ c' :: post /\ ~ In c pre.

(** Strings without the character [c0]. *)
Definition without (c0 : char) (s : jsstring) : bool :=
  forallb (fun c => negb (c =? c0)%N) s.

(** *** The bar chart *)

(** The records that [rows] of the bar chart counts, and their keys. *)
Definition counted (d : AthleteRow) : bool :=
  truthy (country d)
  && (0 <? length (trim (CountryBarChart.String_ (country d)))).

Definition bar_keys (data : list AthleteRow) : list jsstring :=
  map (fun d => trim (CountryBarChart.String_ (country d)))
      (filter counted data).

(** [has_sep s]: the separator of the link keys occurs in [s]. *)
Fixpoint has_sep (s : jsstring) : bool :=
  match s with
  | [] => false
  | _ :: s' => startsWith key_sep s || has_sep s'
  end.

(** A label that is the first piece of every key it starts: it has no
    [|||] and does not end with [|], so that the first separator of the
    key is the one written behind the label. *)
Definition splits_off (a : jsstring) : bool :=
  negb (has_sep (a ++ [124; 124]%N)).



(** [unbracketed s body]: [body] is [s] without an opening bracket at its
    start and without a closing bracket at its end. *)
Definition first_is (c0 : char) (s : jsstring) : bool :=
  match s with
  | c :: _ => (c =? c0)%N
  | [] => false
  end.

Definition last_is (c0 : char) (s : jsstring) : bool := first_is c0 (rev s).

Inductive unbracketed : jsstring -> jsstring -> Prop :=
| unbracketed_both (x : jsstring) :
    unbracketed (91%N :: x ++ [93%N]) x
| unbracketed_open (x : jsstring) :
    last_is 93%N x = false -> unbracketed (91%N :: x) x
| unbracketed_close (x : jsstring) :
    first_is 91%N x = false -> unbracketed (x ++ [93%N]) x
| unbracketed_none (x : jsstring) :
    first_is 91%N x = false -> last_is 93%N x = false -> unbracketed x x.

(** *** Sample records *)

Definition row (c d g : string) : AthleteRow :=
  mkRow (Some (lit c)) (Some (lit d)) (Some (lit g)).

(** The three records of the specification's example. *)
Definition rows_usa : list AthleteRow :=
  [row "USA" "Swimming" "Male"; row "USA" "Swimming" "Female";
   row "USA" "Athletics" "Male"].

(** Two records of one country and one with a blank country. *)
Definition rows_blank : list AthleteRow :=
  [row "USA" "Swimming" "Male"; row "USA" "Swimming" "Male";
   row " " "Swimming" "Male"].

(** Records whose country contains the separator of the link keys. *)
Definition rows_sep : list AthleteRow := [row "A|||B" "X" "M"].

Definition rows_sep2 : list AthleteRow :=
  [row "A|||B" "X" "M"; row "A|||B" "Y" "M"].

(** Two records of one country, one with [|] for its discipline and the
    separator in its gender, and a record of another country with the
    separator in its country. *)
Definition rows_focus : list AthleteRow :=
  [row "USA" "|" "a|||b"; row "A|||B" "X" "M"; row "USA" "Judo" "Male"].

(* ================================================================= *)
(** * Properties *)

(** ** Strings *)

Lemma str_eqb_eq (a b : jsstring) : str_eqb a b = true <-> a = b.
Proof.
  revert b; induction a as [|x a IH]; intros [|y b]; simpl;
    try (split; [discriminate | discriminate]); try tauto.
  rewrite andb_true_iff, N.eqb_eq, IH.
  split; [intros [-> ->]; reflexivity | intros H; inversion H; auto].
Qed.

Lemma str_eqb_refl (a : jsstring) : str_eqb a a = true.
Proof. apply str_eqb_eq; reflexivity. Qed.

Lemma str_eqb_neq (a b : jsstring) : str_eqb a b = false <-> a <> b.
Proof.
  rewrite <- str_eqb_eq. destruct (str_eqb a b); split; congruence.
Qed.

Lemma str_eqb_sym (a b : jsstring) : str_eqb a b = str_eqb b a.
Proof.
  destruct (str_eqb a b) eqn:E.
  - apply str_eqb_eq in E; subst; symmetry; apply str_eqb_refl.
  - symmetry; apply str_eqb_neq; apply str_eqb_neq in E; congruence.
Qed.

Lemma startsWith_app (p s : jsstring) : startsWith p (p ++ s) = true.
Proof.
  induction p as [|x p IH]; simpl; [reflexivity|].
  rewrite N.eqb_refl; exact IH.
Qed.

Lemma startsWith_inv (p s : jsstring) :
  startsWith p s = true -> exists t, s = p ++ t.
Proof.
  revert s; induction p as [|x p IH]; intros s H; simpl in *.
  - exists s; reflexivity.
  - destruct s as [|y s]; [discriminate|].
    apply andb_true_iff in H as [Hxy Hp].
    apply N.eqb_eq in Hxy; subst y.
    destruct (IH _ Hp) as [t ->]; exists t; reflexivity.
Qed.

(** ** Sets *)

Lemma set_has_In (x : jsstring) (s : JSSet) : set_has x s = true <-> In x s.
Proof.
  unfold set_has; rewrite existsb_exists; split.
  - intros [y [Hy E]]; apply str_eqb_eq in E; subst; exact Hy.
  - intros H; exists x; split; [exact H | apply str_eqb_refl].
Qed.

Lemma set_has_not_In (x : jsstring) (s : JSSet) :
  set_has x s = false <-> ~ In x s.
Proof.
  rewrite <- set_has_In; destruct (set_has x s); split; congruence.
Qed.

Lemma new_Set_snoc (l : list jsstring) (x : jsstring) :
  new_Set (l ++ [x]) = set_add x (new_Set l).
Proof. unfold new_Set; rewrite fold_left_app; reflexivity. Qed.

Lemma In_set_add (x y : jsstring) (s : JSSet) :
  In y (set_add x s) <-> In y s \/ y = x.
Proof.
  unfold set_add; destruct (set_has x s) eqn:E.
  - apply set_has_In in E; split; [tauto | intros [H | ->]; assumption].
  - rewrite in_app_iff; simpl; split; intuition congruence.
Qed.

Lemma In_new_Set (l : list jsstring) (x : jsstring) :
  In x (new_Set l) <-> In x l.
Proof.
  induction l as [|y l IH] using rev_ind; [reflexivity|].
  rewrite new_Set_snoc, In_set_add, in_app_iff, IH; simpl; intuition congruence.
Qed.

Lemma NoDup_snoc {A} (l : list A) (x : A) :
  NoDup l -> ~ In x l -> NoDup (l ++ [x]).
Proof.
  intros Hl Hx; apply NoDup_rev in Hl.
  rewrite <- (rev_involutive (l ++ [x])); apply NoDup_rev.
  rewrite rev_app_distr; simpl; constructor; [|exact Hl].
  rewrite <- in_rev; exact Hx.
Qed.

Lemma NoDup_new_Set (l : list jsstring) : NoDup (new_Set l).
Proof.
  induction l as [|y l IH] using rev_ind; [constructor|].
  rewrite new_Set_snoc; unfold set_add.
  destruct (set_has y (new_Set l)) eqn:E; [exact IH|].
  apply NoDup_snoc; [exact IH | apply set_has_not_In; exact E].
Qed.

(** ** Arrays *)

Lemma slice0_zero {A} (l : list A) : slice0 0 l = [].
Proof.
  unfold slice0; simpl.
  replace (Z.to_nat (Z.min 0 (Z.of_nat (length l)))) with 0 by lia.
  reflexivity.
Qed.

Lemma firstn_incl_le {A} (j k : nat) (l : list A) :
  j <= k -> incl (firstn j l) (firstn k l).
Proof.
  revert j k; induction l as [|x l IH]; intros j k Hjk.
  - rewrite !firstn_nil; apply incl_refl.
  - destruct j as [|j]; [intros y []|].
    destruct k as [|k]; [lia|]; simpl.
    intros y [-> | Hy]; [left; reflexivity | right].
    apply (IH j k); [lia | exact Hy].
Qed.

Lemma slice0_pred_incl {A} (n : Z) (l : list A) :
  (1 <= n)%Z -> incl (slice0 (n - 1) l) (slice0 n l).
Proof.
  intros Hn; unfold slice0.
  replace (n - 1 <? 0)%Z with false by (symmetry; apply Z.ltb_ge; lia).
  replace (n <? 0)%Z with false by (symmetry; apply Z.ltb_ge; lia).
  apply firstn_incl_le; lia.
Qed.

(* ================================================================= *)
(** ** Top-N country selection *)

Lemma topCountrySet_zero (base : list CleanedRow) :
  Homework3.topCountrySet 0 base = [].
Proof. unfold Homework3.topCountrySet; rewrite slice0_zero; reflexivity. Qed.

Lemma filter_none {A} (l : list A) : filter (fun _ => false) l = [].
Proof. induction l; simpl; auto. Qed.

(** C5 (amended): with [topCountries = 0] and no country selected
    ([selectedCountry] null or empty), the graph has no node and no link. *)
Theorem graph_topCountries_zero (data : list AthleteRow) (topDisciplines : Z)
  (selectedCountry : option jsstring) :
  truthy selectedCountry = false ->
  Homework3.graph data 0 topDisciplines selectedCountry = empty_graph.
Proof.
  intros Hsel; unfold Homework3.graph, Homework3.filteredCountries.
  rewrite Hsel; simpl negb; cbv iota.
  rewrite topCountrySet_zero; simpl set_has.
  rewrite filter_none; reflexivity.
Qed.

Lemma graph_topCountries_zero_witness :
  truthy None = false /\
  Homework3.graph
    [row "USA" "Swimming" "Male"; row "FRA" "Judo" "Female"] 0 12 None
  = empty_graph.
Proof.
  split; [reflexivity | apply graph_topCountries_zero; reflexivity].
Defined.

(** C5 as stated fails when a country is selected: the selection bypasses
    the top-N country cut, so [topCountries = 0] leaves the graph of the
    selected country intact. *)
Lemma graph_topCountries_zero_selected :
  Homework3.graph [row "USA" "Swimming" "Male"] 0 12 (Some (lit "USA"))
  = mkGraph [mkNode (lit "C: USA"); mkNode (lit "D: Swimming");
             mkNode (lit "G: Male")]
            [mkLink (Some 0) (Some 1) 1; mkLink (Some 1) (Some 2) 1]
  /\ Homework3.graph [row "USA" "Swimming" "Male"] 0 12 (Some (lit "USA"))
     <> empty_graph.
Proof. split; [vm_compute; reflexivity | vm_compute; discriminate]. Qed.

(** C6: for [N >= 1] the countries retained with parameter [N - 1] are all
    retained with parameter [N], and so are the rows that pass the country
    filter. *)
Theorem topCountries_monotone (data : list AthleteRow) (N : Z) :
  (1 <= N)%Z ->
  incl (Homework3.topCountrySet (N - 1) (Homework3.cleaned data))
       (Homework3.topCountrySet N (Homework3.cleaned data))
  /\ incl (Homework3.filteredCountries None (N - 1) (Homework3.cleaned data))
          (Homework3.filteredCountries None N (Homework3.cleaned data)).
Proof.
  intros HN.
  assert (Hset : incl (Homework3.topCountrySet (N - 1) (Homework3.cleaned data))
                      (Homework3.topCountrySet N (Homework3.cleaned data))).
  { unfold Homework3.topCountrySet; intros c Hc.
    apply <- In_new_Set; apply -> In_new_Set in Hc.
    apply in_map_iff in Hc as [kv [<- Hkv]].
    apply in_map; revert Hkv; apply slice0_pred_incl; exact HN. }
  split; [exact Hset|].
  unfold Homework3.filteredCountries; simpl.
  intros d Hd; apply filter_In in Hd as [Hd Hc]; apply filter_In.
  split; [exact Hd|].
  apply set_has_In; apply set_has_In in Hc; apply Hset; exact Hc.
Qed.

Lemma topCountries_monotone_witness :
  let data := [row "USA" "Swimming" "Male"; row "FRA" "Judo" "Female";
               row "USA" "Judo" "Female"] in
  (1 <= 2)%Z /\
  (incl (Homework3.topCountrySet (2 - 1) (Homework3.cleaned data))
        (Homework3.topCountrySet 2 (Homework3.cleaned data))
   /\ incl (Homework3.filteredCountries None (2 - 1) (Homework3.cleaned data))
           (Homework3.filteredCountries None 2 (Homework3.cleaned data))).
Proof.
  intros data; split; [lia|].
  exact (topCountries_monotone data 2 ltac:(lia)).
Defined.

(** The hypothesis of C6 is needed: [slice(0, -1)] keeps all but the last
    entry, [slice(0, 0)] none. *)
Example topCountries_not_monotone_at_zero :
  Homework3.topCountrySet (0 - 1)
    (Homework3.cleaned [row "USA" "Swimming" "Male"; row "FRA" "Judo" "Female"])
  = [lit "USA"]
  /\ Homework3.topCountrySet 0
       (Homework3.cleaned [row "USA" "Swimming" "Male";
                           row "FRA" "Judo" "Female"])
     = [].
Proof. split; vm_compute; reflexivity. Qed.

(** Ties keep the order of first occurrence: with one row each, the
    country met first is the one retained. *)
Example topCountries_tie_first_seen :
  Homework3.topCountrySet 1
    (Homework3.cleaned [row "FRA" "Judo" "Female"; row "USA" "Swimming" "Male"])
  = [lit "FRA"].
Proof. vm_compute; reflexivity. Qed.

(* ================================================================= *)
(** ** The two variants *)

(** C10: without a selected country the Homework 3 computation returns the
    graph of the Homework 2 computation, nodes and links alike. *)
Theorem graph_Homework2_Homework3 (data : list AthleteRow)
  (topCountries topDisciplines : Z) :
  Homework2.graph data topCountries topDisciplines
  = Homework3.graph data topCountries topDisciplines None.
Proof.
  unfold Homework2.graph, Homework3.graph.
  unfold Homework3.base, Homework3.filteredCountries,
    Homework2.filteredCountries; simpl truthy; cbv iota; simpl negb; cbv iota.
  reflexivity.
Qed.

(** ** Maps *)

Lemma map_get_In {V} (k : jsstring) (v : V) (m : JSMap V) :
  map_get k m = Some v -> In (k, v) m.
Proof.
  induction m as [|[k' v'] m IH]; simpl; [discriminate|].
  destruct (str_eqb k k') eqn:E.
  - apply str_eqb_eq in E; subst; intros [= ->]; left; reflexivity.
  - intros H; right; exact (IH H).
Qed.

Lemma map_get_None {V} (k : jsstring) (m : JSMap V) :
  map_get k m = None <-> ~ In k (map fst m).
Proof.
  induction m as [|[k' v'] m IH]; simpl; [tauto|].
  destruct (str_eqb k k') eqn:E.
  - apply str_eqb_eq in E; subst; split; [discriminate | tauto].
  - apply str_eqb_neq in E; rewrite IH; intuition congruence.
Qed.

Lemma map_set_fresh {V} (k : jsstring) (v : V) (m : JSMap V) :
  ~ In k (map fst m) -> map_set k v m = m ++ [(k, v)].
Proof.
  induction m as [|[k' v'] m IH]; simpl; [reflexivity|].
  intros H; destruct (str_eqb k k') eqn:E.
  - apply str_eqb_eq in E; subst; tauto.
  - rewrite IH; [reflexivity | tauto].
Qed.

(** On a map that lists a function over distinct keys, [get] reads the
    function and [set] on a listed key changes it at that key. *)
Lemma map_get_tabulate {V} (f : jsstring -> V) (k : jsstring) (s : JSSet) :
  In k s -> map_get k (map (fun k' => (k', f k')) s) = Some (f k).
Proof.
  induction s as [|k' s IH]; simpl; [tauto|].
  destruct (str_eqb k k') eqn:E.
  - apply str_eqb_eq in E; subst; reflexivity.
  - apply str_eqb_neq in E; intros [H | H]; [congruence | exact (IH H)].
Qed.

Lemma map_keys_tabulate {V} (f : jsstring -> V) (s : JSSet) :
  map fst (map (fun k' => (k', f k')) s) = s.
Proof. rewrite map_map; simpl; apply map_id. Qed.

Lemma map_set_tabulate {V} (f : jsstring -> V) (k : jsstring) (v : V)
  (s : JSSet) :
  NoDup s -> In k s ->
  map_set k v (map (fun k' => (k', f k')) s)
  = map (fun k' => (k', if str_eqb k k' then v else f k')) s.
Proof.
  induction s as [|k' s IH]; simpl; [tauto|].
  intros Hnd Hin; inversion Hnd as [|? ? Hk' Hs]; subst.
  destruct (str_eqb k k') eqn:E.
  - apply str_eqb_eq in E; subst k'; f_equal.
    apply map_ext_in; intros k'' Hk''.
    destruct (str_eqb k k'') eqn:E'; [|reflexivity].
    apply str_eqb_eq in E'; subst; tauto.
  - apply str_eqb_neq in E; f_equal; apply IH; [exact Hs|].
    destruct Hin; [congruence | assumption].
Qed.

(** A fold that updates one key per element builds the table of a value
    function [val] over the keys in order of first occurrence, as soon as
    [val] follows the update. *)
Lemma fold_tabulate {X V} (key : X -> jsstring) (step : option V -> X -> V)
  (val : list X -> jsstring -> V) :
  (forall pre x, In (key x) (map key pre) ->
     val (pre ++ [x]) (key x) = step (Some (val pre (key x))) x) ->
  (forall pre x, ~ In (key x) (map key pre) ->
     val (pre ++ [x]) (key x) = step None x) ->
  (forall pre x k, k <> key x -> val (pre ++ [x]) k = val pre k) ->
  forall xs,
    fold_left (fun m x => map_set (key x) (step (map_get (key x) m) x) m) xs []
    = map (fun k => (k, val xs k)) (new_Set (map key xs)).
Proof.
  intros Hold Hnew Hoth xs.
  induction xs as [|x xs IH] using rev_ind; [reflexivity|].
  rewrite fold_left_app; simpl; rewrite IH; clear IH.
  rewrite map_app; simpl; rewrite new_Set_snoc; unfold set_add.
  destruct (set_has (key x) (new_Set (map key xs))) eqn:E.
  - apply set_has_In in E.
    rewrite map_get_tabulate by exact E.
    rewrite map_set_tabulate by (try apply NoDup_new_Set; exact E).
    apply map_ext_in; intros k Hk.
    destruct (str_eqb (key x) k) eqn:E'.
    + apply str_eqb_eq in E'; subst k; rewrite Hold; [reflexivity|].
      apply -> In_new_Set; exact E.
    + apply str_eqb_neq in E'; rewrite Hoth; congruence.
  - apply set_has_not_In in E.
    assert (Hget : map_get (key x)
                     (map (fun k => (k, val xs k)) (new_Set (map key xs)))
                   = None).
    { apply map_get_None; rewrite map_keys_tabulate; exact E. }
    rewrite Hget, map_set_fresh by (rewrite map_keys_tabulate; exact E).
    rewrite map_app; simpl; f_equal.
    + apply map_ext_in; intros k Hk; rewrite Hoth; [reflexivity|].
      intros ->; tauto.
    + rewrite Hnew; [reflexivity|].
      intros H; apply E; apply <- In_new_Set; exact H.
Qed.

Lemma count_snoc (k x : jsstring) (ks : list jsstring) :
  count k (ks ++ [x]) = count k ks + (if str_eqb k x then 1 else 0).
Proof.
  unfold count; rewrite filter_app, length_app; simpl.
  destruct (str_eqb k x); reflexivity.
Qed.

Lemma count_not_In (k : jsstring) (ks : list jsstring) :
  ~ In k ks -> count k ks = 0.
Proof.
  unfold count; induction ks as [|x ks IH]; simpl; [reflexivity|].
  intros H; destruct (str_eqb k x) eqn:E.
  - apply str_eqb_eq in E; subst; tauto.
  - apply IH; tauto.
Qed.

Lemma count_In (k : jsstring) (ks : list jsstring) :
  In k ks -> 1 <= count k ks.
Proof.
  unfold count; induction ks as [|x ks IH]; simpl; [tauto|].
  destruct (str_eqb k x) eqn:E; simpl; [lia|].
  apply str_eqb_neq in E; intros [H | H]; [congruence | exact (IH H)].
Qed.

(** The map built by counting the keys [ks] one by one. *)
Lemma count_fold_tally (ks : list jsstring) :
  fold_left
    (fun m k =>
       map_set k (match map_get k m with Some v => v | None => 0 end + 1) m)
    ks []
  = tally ks.
Proof.
  unfold tally.
  rewrite <- (map_id ks) at 2.
  apply (fold_tabulate (fun k : jsstring => k)
           (fun ov _ => match ov with Some v => v | None => 0 end + 1)
           (fun ks k => count k ks)).
  - intros pre x _; rewrite count_snoc, str_eqb_refl; reflexivity.
  - intros pre x H; rewrite map_id in H.
    rewrite count_snoc, str_eqb_refl, count_not_In by exact H; reflexivity.
  - intros pre x k H; rewrite count_snoc.
    apply str_eqb_neq in H; rewrite H; lia.
Qed.

Lemma fold_left_pointwise {A B} (f g : A -> B -> A) :
  (forall a b, f a b = g a b) ->
  forall l a, fold_left f l a = fold_left g l a.
Proof.
  intros H l; induction l as [|b l IH]; intros a; simpl; [reflexivity|].
  rewrite H; apply IH.
Qed.

Lemma group_tabulate {A} (key : A -> jsstring) (values : list A) :
  group key values
  = map (fun k => (k, filter (fun x => str_eqb (key x) k) values))
        (new_Set (map key values)).
Proof.
  unfold group.
  rewrite <- (fold_tabulate key
                (fun og x => match og with Some g => g ++ [x] | None => [x] end)
                (fun xs k => filter (fun x => str_eqb (key x) k) xs)).
  - apply fold_left_pointwise; intros m x; simpl.
    destruct (map_get (key x) m); reflexivity.
  - intros pre x _; rewrite filter_app; simpl.
    rewrite str_eqb_refl; reflexivity.
  - intros pre x H; rewrite filter_app; simpl; rewrite str_eqb_refl.
    replace (filter (fun x0 => str_eqb (key x0) (key x)) pre) with (@nil A);
      [reflexivity|].
    symmetry; clear -H; induction pre as [|y pre IH]; simpl; [reflexivity|].
    destruct (str_eqb (key y) (key x)) eqn:E.
    + apply str_eqb_eq in E; simpl in H; tauto.
    + apply IH; simpl in H; tauto.
  - intros pre x k H; rewrite filter_app; simpl.
    replace (str_eqb (key x) k) with false; [apply app_nil_r|].
    symmetry; apply str_eqb_neq; congruence.
Qed.

Lemma rollup_length {A} (key : A -> jsstring) (values : list A) :
  rollup (@length A) key values
  = map (fun k => (k, count k (map key values))) (new_Set (map key values)).
Proof.
  unfold rollup; rewrite group_tabulate, map_map; simpl.
  apply map_ext; intros k; f_equal.
  unfold count; clear; induction values as [|x xs IH]; simpl; [reflexivity|].
  rewrite (str_eqb_sym k (key x)).
  destruct (str_eqb (key x) k); simpl; rewrite IH; reflexivity.
Qed.

(** ** Sorting *)

Lemma insert_sorted_perm {A} (cmp : A -> A -> Z) (x : A) (l : list A) :
  Permutation (x :: l) (insert_sorted cmp x l).
Proof.
  induction l as [|y l IH]; simpl; [apply Permutation_refl|].
  destruct (cmp x y <=? 0)%Z; [apply Permutation_refl|].
  eapply Permutation_trans; [apply perm_swap | apply perm_skip, IH].
Qed.

Lemma sort_with_perm {A} (cmp : A -> A -> Z) (l : list A) :
  Permutation l (sort_with cmp l).
Proof.
  induction l as [|x l IH]; simpl; [constructor|].
  eapply Permutation_trans; [apply perm_skip, IH | apply insert_sorted_perm].
Qed.

Lemma In_sort_with {A} (cmp : A -> A -> Z) (l : list A) (x : A) :
  In x (sort_with cmp l) <-> In x l.
Proof.
  split; apply Permutation_in;
    [apply Permutation_sym|]; apply sort_with_perm.
Qed.

Lemma NoDup_sort_with {A} (cmp : A -> A -> Z) (l : list A) :
  NoDup l -> NoDup (sort_with cmp l).
Proof. apply Permutation_NoDup, sort_with_perm. Qed.

Lemma length_sort_with {A} (cmp : A -> A -> Z) (l : list A) :
  length (sort_with cmp l) = length l.
Proof. symmetry; apply Permutation_length, sort_with_perm. Qed.

Lemma insert_sorted_Sorted {A} (cmp : A -> A -> Z) (x : A) (l : list A) :
  (forall a b, (0 < cmp a b)%Z -> (cmp b a <= 0)%Z) ->
  Sorted (fun a b => (cmp a b <= 0)%Z) l ->
  Sorted (fun a b => (cmp a b <= 0)%Z) (insert_sorted cmp x l).
Proof.
  intros Htot Hl; induction Hl as [|y l Hl IH Hhd]; simpl.
  - repeat constructor.
  - destruct (cmp x y <=? 0)%Z eqn:E.
    + apply Z.leb_le in E; repeat constructor; assumption.
    + apply Z.leb_gt in E; constructor; [exact IH|].
      destruct Hhd as [|z l Hyz]; simpl.
      * constructor; apply Htot; exact E.
      * destruct (cmp x z <=? 0)%Z; constructor;
          [apply Htot; exact E | exact Hyz].
Qed.

Lemma sort_with_Sorted {A} (cmp : A -> A -> Z) (l : list A) :
  (forall a b, (0 < cmp a b)%Z -> (cmp b a <= 0)%Z) ->
  Sorted (fun a b => (cmp a b <= 0)%Z) (sort_with cmp l).
Proof.
  intros Htot; induction l as [|x l IH]; simpl; [constructor|].
  apply insert_sorted_Sorted; assumption.
Qed.

Lemma default_compare_total (a b : jsstring) :
  (0 < default_compare a b)%Z -> (default_compare b a <= 0)%Z.
Proof.
  unfold default_compare.
  destruct (str_ltb a b), (str_ltb b a); lia.
Qed.

(** [sort] returns its argument in ascending order: no element is
    followed by a smaller one. *)
Lemma sort_Sorted (l : list jsstring) :
  Sorted (fun a b => (default_compare a b <= 0)%Z) (sort l).
Proof. apply sort_with_Sorted, default_compare_total. Qed.

(** The sort by descending count is stable: entries of equal count keep
    the order they have in the count map, which is the order of first
    occurrence of their keys. *)
Lemma insert_descending_same_count (x : jsstring * nat)
  (l : list (jsstring * nat)) (v : nat) :
  filter (fun kv => snd kv =? v)
         (insert_sorted (fun a b => descending (snd a) (snd b)) x l)
  = filter (fun kv => snd kv =? v) (x :: l).
Proof.
  induction l as [|y l IH]; [reflexivity|].
  cbn [insert_sorted].
  destruct (descending (snd x) (snd y) <=? 0)%Z eqn:E; [reflexivity|].
  apply Z.leb_gt in E; unfold descending in E.
  destruct (Nat.ltb_spec (snd y) (snd x)); [lia|].
  destruct (Nat.ltb_spec (snd x) (snd y)); [|lia].
  cbn [filter] in *; rewrite IH.
  destruct (Nat.eqb_spec (snd x) v), (Nat.eqb_spec (snd y) v);
    try reflexivity; lia.
Qed.

Lemma sort_descending_stable (l : list (jsstring * nat)) (v : nat) :
  filter (fun kv => snd kv =? v)
         (sort_with (fun a b => descending (snd a) (snd b)) l)
  = filter (fun kv => snd kv =? v) l.
Proof.
  induction l as [|x l IH]; [reflexivity|].
  cbn [sort_with fold_right]; rewrite insert_descending_same_count.
  cbn [filter]; fold (sort_with (fun a b => descending (snd a) (snd b)) l).
  rewrite IH; reflexivity.
Qed.

(** Sorting commutes with a map that the comparator does not see. *)
Lemma sort_with_map {A B} (cmpA : A -> A -> Z) (cmpB : B -> B -> Z)
  (f : A -> B) (l : list A) :
  (forall a b, cmpB (f a) (f b) = cmpA a b) ->
  sort_with cmpB (map f l) = map f (sort_with cmpA l).
Proof.
  intros H; induction l as [|x l IH]; simpl; [reflexivity|].
  rewrite IH; generalize (sort_with cmpA l); intros s.
  induction s as [|y s IHs]; simpl; [reflexivity|].
  rewrite H; destruct (cmpA x y <=? 0)%Z; simpl; [reflexivity|].
  rewrite IHs; reflexivity.
Qed.

Lemma slice0_map {A B} (f : A -> B) (n : Z) (l : list A) :
  slice0 n (map f l) = map f (slice0 n l).
Proof. unfold slice0; rewrite length_map, firstn_map; reflexivity. Qed.

Lemma slice0_incl {A} (n : Z) (l : list A) : incl (slice0 n l) l.
Proof.
  unfold slice0; intros x Hx.
  rewrite <- (firstn_skipn (Z.to_nat
    (if (n <? 0)%Z then Z.max (Z.of_nat (length l) + n) 0
     else Z.min n (Z.of_nat (length l)))) l).
  apply in_or_app; left; exact Hx.
Qed.

Lemma slice0_nonempty {A} (n : Z) (l : list A) :
  (1 <= n)%Z -> l <> [] -> slice0 n l <> [].
Proof.
  intros Hn Hl; unfold slice0.
  replace (n <? 0)%Z with false by (symmetry; apply Z.ltb_ge; lia).
  destruct l as [|x l]; [congruence|].
  replace (Z.to_nat (Z.min n (Z.of_nat (length (x :: l)))))
    with (S (Z.to_nat (Z.min n (Z.of_nat (length (x :: l)))) - 1))
    by (simpl length; lia).
  simpl; discriminate.
Qed.

(** ** The index of the nodes *)

Lemma new_Map_distinct {V} (entries : list (jsstring * V)) :
  NoDup (map fst entries) -> new_Map entries = entries.
Proof.
  unfold new_Map.
  induction entries as [|e es IH] using rev_ind; [reflexivity|].
  rewrite map_app; simpl; intros Hnd.
  rewrite fold_left_app; simpl.
  assert (Hes : NoDup (map fst es) /\ ~ In (fst e) (map fst es)).
  { apply NoDup_remove in Hnd; rewrite app_nil_r in Hnd; exact Hnd. }
  rewrite IH by apply Hes.
  rewrite map_set_fresh by apply Hes.
  destruct e; reflexivity.
Qed.

Lemma mapi_from_keys (i : nat) (names : list jsstring) :
  map fst (mapi_from i (fun n j => (name n, j)) (map mkNode names)) = names.
Proof.
  revert i; induction names as [|n names IH]; intros i; simpl;
    [reflexivity | rewrite IH; reflexivity].
Qed.

Lemma map_get_mapi_from (i j : nat) (names : list jsstring) (n : jsstring) :
  NoDup names ->
  nth_error names j = Some n ->
  map_get n (mapi_from i (fun n j => (name n, j)) (map mkNode names))
  = Some (i + j).
Proof.
  revert i j; induction names as [|m names IH]; intros i j Hnd Hj.
  - destruct j; discriminate.
  - inversion Hnd as [|? ? Hm Hnames]; subst; simpl.
    destruct j as [|j]; simpl in Hj.
    + injection Hj as ->; rewrite str_eqb_refl; f_equal; lia.
    + destruct (str_eqb n m) eqn:E.
      * apply str_eqb_eq in E; subst m.
        exfalso; apply Hm; eapply nth_error_In; exact Hj.
      * rewrite (IH (S i) j Hnames Hj); f_equal; lia.
Qed.

Lemma idx_position (names : list jsstring) (j : nat) (n : jsstring) :
  NoDup names ->
  nth_error names j = Some n ->
  map_get n (Homework3.idx (map mkNode names)) = Some j.
Proof.
  intros Hnd Hj; unfold Homework3.idx, mapi.
  rewrite new_Map_distinct by (rewrite mapi_from_keys; exact Hnd).
  apply (map_get_mapi_from 0 j names n Hnd Hj).
Qed.

Lemma idx_missing (names : list jsstring) (n : jsstring) :
  NoDup names -> ~ In n names ->
  map_get n (Homework3.idx (map mkNode names)) = None.
Proof.
  intros Hnd Hn; unfold Homework3.idx, mapi.
  rewrite new_Map_distinct by (rewrite mapi_from_keys; exact Hnd).
  apply map_get_None; rewrite mapi_from_keys; exact Hn.
Qed.

Lemma idx_found (names : list jsstring) (j : nat) (n : jsstring) :
  NoDup names ->
  map_get n (Homework3.idx (map mkNode names)) = Some j ->
  nth_error names j = Some n.
Proof.
  intros Hnd Hget.
  destruct (in_dec (list_eq_dec N.eq_dec) n names) as [Hin | Hout].
  - apply In_nth_error in Hin as [j' Hj'].
    rewrite (idx_position names j' n Hnd Hj') in Hget.
    injection Hget as <-; exact Hj'.
  - rewrite idx_missing in Hget by assumption; discriminate.
Qed.

(** ** Splitting a link key *)

Lemma split_from_nonempty (sep : jsstring) (k : nat) (s : jsstring) :
  split_from sep k s <> [].
Proof.
  revert k; induction s as [|c s IH]; intros k; simpl; [discriminate|].
  destruct k as [|k]; [|apply IH].
  destruct (startsWith sep (c :: s)); [discriminate|].
  destruct (split_from sep 0 s); discriminate.
Qed.

Lemma split_cons_other (sep : jsstring) (c : char) (s : jsstring) :
  startsWith sep (c :: s) = false ->
  exists w ws, split sep s = w :: ws /\ split sep (c :: s) = (c :: w) :: ws.
Proof.
  intros H; unfold split.
  destruct (split_from sep 0 s) as [|w ws] eqn:E;
    [exfalso; exact (split_from_nonempty _ _ _ E)|].
  exists w, ws; split; [reflexivity|].
  change (split_from sep 0 (c :: s))
    with (if startsWith sep (c :: s)
          then [] :: split_from sep (length sep - 1) s
          else match split_from sep 0 s with
               | w :: ws => (c :: w) :: ws
               | [] => [[c]]
               end).
  rewrite H, E; reflexivity.
Qed.

Lemma startsWith_key_sep_other (c : char) (s : jsstring) :
  (c =? 124)%N = false -> startsWith key_sep (c :: s) = false.
Proof.
  intros H.
  change (startsWith key_sep (c :: s))
    with ((124 =? c)%N && startsWith [124; 124]%N s).
  rewrite N.eqb_sym, H; reflexivity.
Qed.

Lemma split_key_sep_skip (b : jsstring) :
  split key_sep (key_sep ++ b) = [] :: split key_sep b.
Proof. reflexivity. Qed.

(** A string without [|] is one piece. *)
Lemma split_no_pipe (s : jsstring) :
  no_pipe s = true -> split key_sep s = [s].
Proof.
  induction s as [|c s IH]; [reflexivity|].
  intros H; simpl in H; apply andb_true_iff in H as [Hc Hs].
  apply negb_true_iff in Hc.
  destruct (split_cons_other key_sep c s (startsWith_key_sep_other c s Hc))
    as [w [ws [E ->]]].
  rewrite (IH Hs) in E; injection E as <- <-; reflexivity.
Qed.

(** The first piece of a key is its source as soon as the source has no
    [|], whatever the target. *)
Lemma split_key_source (a b : jsstring) :
  no_pipe a = true ->
  split key_sep (a ++ key_sep ++ b) = a :: split key_sep b.
Proof.
  induction a as [|c a IH]; [intros _; apply split_key_sep_skip|].
  intros H; simpl in H; apply andb_true_iff in H as [Hc Ha].
  apply negb_true_iff in Hc.
  change ((c :: a) ++ key_sep ++ b) with (c :: (a ++ key_sep ++ b)).
  destruct (split_cons_other key_sep c (a ++ key_sep ++ b)
              (startsWith_key_sep_other c _ Hc)) as [w [ws [E ->]]].
  rewrite (IH Ha) in E; injection E as <- <-; reflexivity.
Qed.

Lemma split_key_safe (a b : jsstring) :
  no_pipe a = true -> no_pipe b = true ->
  split key_sep (a ++ key_sep ++ b) = [a; b].
Proof.
  intros Ha Hb; rewrite split_key_source, split_no_pipe by assumption.
  reflexivity.
Qed.

(** Every key has at least two pieces, so that [source] and [target] of a
    named link are never [undefined]. *)
Lemma split_key_two_pieces (a b : jsstring) (k : nat) :
  k <= length a ->
  2 <= length (split_from key_sep k (a ++ key_sep ++ b)).
Proof.
  revert k; induction a as [|c a IH]; intros k Hk.
  - assert (k = 0) by (simpl in Hk; lia); subst k.
    change (split_from key_sep 0 ([] ++ key_sep ++ b))
      with ([] :: split_from key_sep 0 b).
    pose proof (split_from_nonempty key_sep 0 b) as Hne.
    destruct (split_from key_sep 0 b); [congruence | simpl; lia].
  - destruct k as [|k].
    + change (split_from key_sep 0 ((c :: a) ++ key_sep ++ b))
        with (if startsWith key_sep (c :: a ++ key_sep ++ b)
              then [] :: split_from key_sep (length key_sep - 1)
                           (a ++ key_sep ++ b)
              else match split_from key_sep 0 (a ++ key_sep ++ b) with
                   | w :: ws => (c :: w) :: ws
                   | [] => [[c]]
                   end).
      destruct (startsWith key_sep (c :: a ++ key_sep ++ b)).
      * pose proof (split_from_nonempty key_sep (length key_sep - 1)
                      (a ++ key_sep ++ b)) as Hne.
        destruct (split_from key_sep (length key_sep - 1) (a ++ key_sep ++ b));
          [congruence | simpl; lia].
      * specialize (IH 0 (Nat.le_0_l _)).
        destruct (split_from key_sep 0 (a ++ key_sep ++ b));
          simpl in *; lia.
    + apply (IH k); simpl in Hk; lia.
Qed.

Lemma no_pipe_app (a b : jsstring) :
  no_pipe (a ++ b) = no_pipe a && no_pipe b.
Proof. apply forallb_app. Qed.

(** ** The stages of the computation *)

Lemma graph_stages (data : list AthleteRow) (tc td : Z)
  (sel : option jsstring) :
  Homework3.graph data tc td sel = graph_of_links (named_links data tc td sel).
Proof. reflexivity. Qed.

Lemma graph_Homework2_stages (data : list AthleteRow) (tc td : Z) :
  Homework2.graph data tc td = graph_of_links (named_links data tc td None).
Proof. reflexivity. Qed.

Lemma linksMap_tally (rows : list ExplodedRow) :
  Homework3.linksMap rows = tally (link_keys rows).
Proof.
  rewrite <- count_fold_tally; unfold Homework3.linksMap, link_keys.
  generalize (@nil (jsstring * nat)).
  induction rows as [|r rows IH]; intros m; simpl; [reflexivity|].
  rewrite IH; reflexivity.
Qed.

Lemma linksNamed_tally (rows : list ExplodedRow) :
  Homework3.linksNamed (Homework3.linksMap rows)
  = map (fun k => mkNamed (fst (decode k)) (snd (decode k))
                          (count k (link_keys rows)))
        (new_Set (link_keys rows)).
Proof.
  rewrite linksMap_tally; unfold Homework3.linksNamed, tally.
  rewrite map_map; reflexivity.
Qed.

Lemma no_pipe_labels (r : ExplodedRow) :
  safe_exploded r = true ->
  no_pipe (label_C r) = true /\ no_pipe (label_D r) = true
  /\ no_pipe (label_G r) = true.
Proof.
  unfold safe_exploded, label_C, label_D, label_G; intros H.
  apply andb_true_iff in H as [H Hg]; apply andb_true_iff in H as [Hc Hd].
  rewrite !no_pipe_app, Hc, Hd, Hg; repeat split; reflexivity.
Qed.

Lemma decode_key_CD (r : ExplodedRow) :
  safe_exploded r = true -> decode (key_CD r) = (label_C r, label_D r).
Proof.
  intros H; destruct (no_pipe_labels r H) as [Hc [Hd _]].
  unfold decode, key_CD; rewrite split_key_safe by assumption; reflexivity.
Qed.

Lemma decode_key_DG (r : ExplodedRow) :
  safe_exploded r = true -> decode (key_DG r) = (label_D r, label_G r).
Proof.
  intros H; destruct (no_pipe_labels r H) as [_ [Hd Hg]].
  unfold decode, key_DG; rewrite split_key_safe by assumption; reflexivity.
Qed.

Lemma In_link_keys (rows : list ExplodedRow) (k : jsstring) :
  In k (link_keys rows) <->
  exists r, In r rows /\ (k = key_CD r \/ k = key_DG r).
Proof.
  unfold link_keys; rewrite in_flat_map; split.
  - intros [r [Hr [H | [H | []]]]]; exists r; auto.
  - intros [r [Hr [H | H]]]; exists r; simpl; auto.
Qed.

(** Rows that reach the link stage come from the data row by row. *)
Lemma In_cleaned (data : list AthleteRow) (cr : CleanedRow) :
  In cr (Homework3.cleaned data) <->
  exists d, In d data /\
    cr = mkCleaned (Homework3.clean (country d) Unknown_Country)
                   (Homework3.clean (disciplines d) Unknown_Discipline)
                   (Homework3.clean (gender d) Unknown).
Proof.
  unfold Homework3.cleaned; rewrite in_map_iff.
  split; intros [d [H1 H2]]; exists d; auto.
Qed.

Lemma base_incl (sel : option jsstring) (cl : list CleanedRow) :
  incl (Homework3.base sel cl) cl.
Proof.
  unfold Homework3.base; destruct (truthy sel); [|apply incl_refl].
  intros x Hx; apply filter_In in Hx; tauto.
Qed.

Lemma filteredCountries_incl (sel : option jsstring) (tc : Z)
  (b : list CleanedRow) :
  incl (Homework3.filteredCountries sel tc b) b.
Proof.
  unfold Homework3.filteredCountries; destruct (negb (truthy sel));
    [|apply incl_refl].
  intros x Hx; apply filter_In in Hx; tauto.
Qed.

Lemma In_exploded (fc : list CleanedRow) (er : ExplodedRow) :
  In er (Homework3.exploded fc) <->
  exists cr, In cr fc /\
    In (discipline er) (Homework3.splitDisciplines (disciplineRaw cr)) /\
    e_country er = c_country cr /\ e_gender er = c_gender cr.
Proof.
  unfold Homework3.exploded; rewrite in_flat_map; split.
  - intros [cr [Hcr H]]; apply in_map_iff in H as [disc [<- Hd]].
    exists cr; simpl; auto.
  - intros [cr [Hcr [Hd [Hc Hg]]]]; exists cr; split; [exact Hcr|].
    apply in_map_iff; exists (discipline er); split; [|exact Hd].
    destruct er; simpl in *; subst; reflexivity.
Qed.

Lemma In_finalRows (td : Z) (ex : list ExplodedRow) (er : ExplodedRow) :
  In er (Homework3.finalRows td ex) <->
  In er ex /\ set_has (discipline er) (Homework3.topDiscSet td ex) = true.
Proof. unfold Homework3.finalRows; apply filter_In. Qed.

Lemma final_rows_origin (data : list AthleteRow) (tc td : Z)
  (sel : option jsstring) (er : ExplodedRow) :
  In er (final_rows data tc td sel) ->
  exists d, In d data /\
    e_country er = Homework3.clean (country d) Unknown_Country /\
    In (discipline er)
       (Homework3.splitDisciplines
          (Homework3.clean (disciplines d) Unknown_Discipline)) /\
    e_gender er = Homework3.clean (gender d) Unknown.
Proof.
  unfold final_rows; intros H.
  apply In_finalRows in H as [H _].
  apply In_exploded in H as [cr [Hcr [Hd [Hc Hg]]]].
  apply filteredCountries_incl, base_incl, In_cleaned in Hcr
    as [d [Hdata ->]].
  exists d; simpl in *; auto.
Qed.

Lemma final_rows_safe (data : list AthleteRow) (tc td : Z)
  (sel : option jsstring) :
  safe_labels data = true ->
  Forall (fun r => safe_exploded r = true) (final_rows data tc td sel).
Proof.
  intros Hsafe; apply Forall_forall; intros er Her.
  destruct (final_rows_origin _ _ _ _ _ Her) as [d [Hd [Hc [Hdisc Hg]]]].
  unfold safe_labels in Hsafe; rewrite forallb_forall in Hsafe.
  specialize (Hsafe d Hd); unfold safe_row in Hsafe.
  apply andb_true_iff in Hsafe as [Hsafe Hsg].
  apply andb_true_iff in Hsafe as [Hsc Hsd].
  rewrite forallb_forall in Hsd.
  unfold safe_exploded; rewrite Hc, Hg, Hsc, Hsg, (Hsd _ Hdisc); reflexivity.
Qed.

(** ** Node ordering *)

Lemma startsWith_cons (a : char) (p : jsstring) (y : char) (s : jsstring) :
  startsWith (a :: p) (y :: s) = (a =? y)%N && startsWith p s.
Proof. reflexivity. Qed.

Lemma startsWith_first (a b : char) (p q s : jsstring) :
  a <> b -> startsWith (a :: p) s = true -> startsWith (b :: q) s = false.
Proof.
  intros Hab; destruct s as [|y s]; [discriminate|].
  rewrite !startsWith_cons; intros H.
  apply andb_true_iff in H as [H _]; apply N.eqb_eq in H; subst y.
  apply N.eqb_neq in Hab; rewrite N.eqb_sym, Hab; reflexivity.
Qed.

Lemma prefix_C_not_D (n : jsstring) :
  startsWith prefix_C n = true -> startsWith prefix_D n = false.
Proof. apply startsWith_first; discriminate. Qed.

Lemma prefix_C_not_G (n : jsstring) :
  startsWith prefix_C n = true -> startsWith prefix_G n = false.
Proof. apply startsWith_first; discriminate. Qed.

Lemma prefix_D_not_C (n : jsstring) :
  startsWith prefix_D n = true -> startsWith prefix_C n = false.
Proof. apply startsWith_first; discriminate. Qed.

Lemma prefix_D_not_G (n : jsstring) :
  startsWith prefix_D n = true -> startsWith prefix_G n = false.
Proof. apply startsWith_first; discriminate. Qed.

Lemma prefix_G_not_C (n : jsstring) :
  startsWith prefix_G n = true -> startsWith prefix_C n = false.
Proof. apply startsWith_first; discriminate. Qed.

Lemma prefix_G_not_D (n : jsstring) :
  startsWith prefix_G n = true -> startsWith prefix_D n = false.
Proof. apply startsWith_first; discriminate. Qed.

Lemma filter_all {A} (p : A -> bool) (l : list A) :
  (forall x, In x l -> p x = true) -> filter p l = l.
Proof.
  induction l as [|x l IH]; simpl; intros H; [reflexivity|].
  rewrite (H x (or_introl eq_refl)), IH; auto.
Qed.

Lemma filter_nothing {A} (p : A -> bool) (l : list A) :
  (forall x, In x l -> p x = false) -> filter p l = [].
Proof.
  induction l as [|x l IH]; simpl; intros H; [reflexivity|].
  rewrite (H x (or_introl eq_refl)), IH; auto.
Qed.

Lemma In_sort_filter (p : jsstring -> bool) (names : list jsstring)
  (n : jsstring) :
  In n (sort (filter p names)) <-> In n names /\ p n = true.
Proof. unfold sort; rewrite In_sort_with; apply filter_In. Qed.

Lemma In_ordered (names : list jsstring) (n : jsstring) :
  In n (Homework3.ordered names) <->
  In n names /\
  (startsWith prefix_C n = true \/ startsWith prefix_D n = true
   \/ startsWith prefix_G n = true).
Proof.
  unfold Homework3.ordered, Homework3.countries, Homework3.disciplines_,
    Homework3.genders.
  rewrite !in_app_iff, !In_sort_filter; tauto.
Qed.

Lemma NoDup_sort_filter (p : jsstring -> bool) (names : list jsstring) :
  NoDup names -> NoDup (sort (filter p names)).
Proof. intros H; apply NoDup_sort_with, NoDup_filter, H. Qed.

Lemma NoDup_app_disjoint {A} (l1 l2 : list A) :
  NoDup l1 -> NoDup l2 -> (forall x, In x l1 -> In x l2 -> False) ->
  NoDup (l1 ++ l2).
Proof.
  induction l1 as [|x l1 IH]; simpl; intros H1 H2 Hd; [exact H2|].
  inversion H1 as [|? ? Hx Hl1]; subst; constructor.
  - rewrite in_app_iff; intros [H | H]; [tauto | eapply Hd; eauto].
  - apply IH; eauto.
Qed.

Lemma NoDup_ordered (names : list jsstring) :
  NoDup names -> NoDup (Homework3.ordered names).
Proof.
  intros H; unfold Homework3.ordered, Homework3.countries,
    Homework3.disciplines_, Homework3.genders.
  apply NoDup_app_disjoint; [apply NoDup_sort_filter, H | |].
  - apply NoDup_app_disjoint; try (apply NoDup_sort_filter, H).
    intros x Hd Hg; apply In_sort_filter in Hd as [_ Hd].
    apply In_sort_filter in Hg as [_ Hg].
    rewrite (prefix_D_not_G x Hd) in Hg; discriminate.
  - intros x Hc Hx; apply In_sort_filter in Hc as [_ Hc].
    apply in_app_iff in Hx as [Hx | Hx]; apply In_sort_filter in Hx as [_ Hx].
    + rewrite (prefix_C_not_D x Hc) in Hx; discriminate.
    + rewrite (prefix_C_not_G x Hc) in Hx; discriminate.
Qed.

Lemma In_nodeNames (ln : list NamedLink) (n : jsstring) :
  In n (Homework3.nodeNames ln) <->
  exists l, In l ln /\ (n = l_source l \/ n = l_target l).
Proof.
  unfold Homework3.nodeNames; rewrite In_new_Set, in_flat_map; split.
  - intros [l [Hl [H | [H | []]]]]; exists l; auto.
  - intros [l [Hl [H | H]]]; exists l; simpl; auto.
Qed.

Lemma names_of_nodes (names : list jsstring) :
  map name (map mkNode names) = names.
Proof. rewrite map_map; apply map_id. Qed.

Lemma graph_node_names (ln : list NamedLink) :
  map name (nodes (graph_of_links ln))
  = Homework3.ordered (Homework3.nodeNames ln).
Proof. apply names_of_nodes. Qed.

Lemma NoDup_graph_nodes (ln : list NamedLink) :
  NoDup (map name (nodes (graph_of_links ln))).
Proof.
  rewrite graph_node_names; apply NoDup_ordered.
  unfold Homework3.nodeNames; apply NoDup_new_Set.
Qed.

(** The tiers of the graph are the three sorted arrays. *)
Lemma tier_C_graph (ln : list NamedLink) :
  tier prefix_C (graph_of_links ln)
  = Homework3.countries (Homework3.nodeNames ln).
Proof.
  unfold tier; rewrite graph_node_names; unfold Homework3.ordered.
  rewrite !filter_app, filter_all, !filter_nothing, !app_nil_r;
    [reflexivity | | |];
    intros x Hx; apply In_sort_filter in Hx as [_ Hx];
    auto using prefix_G_not_C, prefix_D_not_C.
Qed.

Lemma tier_D_graph (ln : list NamedLink) :
  tier prefix_D (graph_of_links ln)
  = Homework3.disciplines_ (Homework3.nodeNames ln).
Proof.
  unfold tier; rewrite graph_node_names; unfold Homework3.ordered.
  rewrite !filter_app.
  rewrite (filter_nothing _ (Homework3.countries _)),
    (filter_all _ (Homework3.disciplines_ _)),
    (filter_nothing _ (Homework3.genders _)), app_nil_r;
    [reflexivity | | |];
    intros x Hx; apply In_sort_filter in Hx as [_ Hx];
    auto using prefix_G_not_D, prefix_C_not_D.
Qed.

Lemma tier_G_graph (ln : list NamedLink) :
  tier prefix_G (graph_of_links ln)
  = Homework3.genders (Homework3.nodeNames ln).
Proof.
  unfold tier; rewrite graph_node_names; unfold Homework3.ordered.
  rewrite !filter_app.
  rewrite (filter_nothing _ (Homework3.countries _)),
    (filter_nothing _ (Homework3.disciplines_ _)),
    (filter_all _ (Homework3.genders _));
    [reflexivity | | |];
    intros x Hx; apply In_sort_filter in Hx as [_ Hx];
    auto using prefix_C_not_G, prefix_D_not_G.
Qed.

(** An endpoint that is a node gets the position of the node. *)
Lemma endpoint_index (ln : list NamedLink) (n : jsstring) :
  In n (map name (nodes (graph_of_links ln))) ->
  exists i,
    map_get n (Homework3.idx (nodes (graph_of_links ln))) = Some i
    /\ nth_error (map name (nodes (graph_of_links ln))) i = Some n.
Proof.
  intros Hin; pose proof (NoDup_graph_nodes ln) as Hnd.
  rewrite graph_node_names in *.
  destruct (In_nth_error _ _ Hin) as [i Hi]; exists i; split; [|exact Hi].
  apply idx_position; assumption.
Qed.

(** ** Rows, links and nodes *)

Lemma splitDisciplines_nonempty (s : jsstring) :
  Homework3.splitDisciplines s <> [].
Proof.
  unfold Homework3.splitDisciplines.
  destruct (filter _ _) as [|p ps]; simpl; discriminate.
Qed.

Lemma In_topDiscSet (td : Z) (ex : list ExplodedRow) (k : jsstring) :
  In k (Homework3.topDiscSet td ex) -> In k (map discipline ex).
Proof.
  unfold Homework3.topDiscSet, Homework3.discCounts; intros H.
  apply -> In_new_Set in H; apply in_map_iff in H as [kv [<- Hkv]].
  apply slice0_incl, In_sort_with in Hkv.
  rewrite rollup_length in Hkv.
  apply in_map_iff in Hkv as [k' [<- Hk']]; simpl.
  apply -> In_new_Set in Hk'; exact Hk'.
Qed.

Lemma topDiscSet_nonempty (td : Z) (ex : list ExplodedRow) :
  (1 <= td)%Z -> ex <> [] -> Homework3.topDiscSet td ex <> [].
Proof.
  intros Htd Hex; unfold Homework3.topDiscSet, Homework3.discCounts.
  rewrite rollup_length.
  assert (Hs : slice0 td
                 (sort_with (fun a b => descending (snd a) (snd b))
                    (map (fun k => (k, count k (map discipline ex)))
                       (new_Set (map discipline ex)))) <> []).
  { apply slice0_nonempty; [exact Htd|].
    intros E; apply (f_equal (@length _)) in E.
    rewrite length_sort_with, length_map in E; simpl in E.
    destruct ex as [|r ex]; [congruence|].
    assert (Hin : In (discipline r) (new_Set (map discipline (r :: ex))))
      by (apply <- In_new_Set; left; reflexivity).
    destruct (new_Set (map discipline (r :: ex))); [destruct Hin | discriminate]. }
  destruct (slice0 _ _) as [|kv s]; [congruence|].
  intros E.
  assert (Hin : In (fst kv) (new_Set (map fst (kv :: s))))
    by (apply <- In_new_Set; left; reflexivity).
  rewrite E in Hin; destruct Hin.
Qed.

Lemma finalRows_nonempty (td : Z) (ex : list ExplodedRow) :
  (1 <= td)%Z -> ex <> [] -> Homework3.finalRows td ex <> [].
Proof.
  intros Htd Hex.
  pose proof (topDiscSet_nonempty td ex Htd Hex) as Hne.
  destruct (Homework3.topDiscSet td ex) as [|k s] eqn:E; [congruence|].
  assert (Hk : In k (Homework3.topDiscSet td ex))
    by (rewrite E; left; reflexivity).
  pose proof (In_topDiscSet _ _ _ Hk) as Hmap.
  apply in_map_iff in Hmap as [r [Hr Hin]].
  intros Hempty.
  assert (Hfin : In r (Homework3.finalRows td ex)).
  { apply In_finalRows; split; [exact Hin|].
    apply set_has_In; rewrite Hr; exact Hk. }
  rewrite Hempty in Hfin; destruct Hfin.
Qed.

(** Every final row has its country to discipline link, whose source is
    the country label as soon as the country has no [|]. *)
Lemma final_row_source_link (rows : list ExplodedRow) (r : ExplodedRow) :
  In r rows -> no_pipe (e_country r) = true ->
  exists l, In l (Homework3.linksNamed (Homework3.linksMap rows))
            /\ l_source l = label_C r /\ 1 <= l_value l.
Proof.
  intros Hr Hc.
  assert (Hk : In (key_CD r) (link_keys rows))
    by (apply In_link_keys; exists r; auto).
  exists (mkNamed (fst (decode (key_CD r))) (snd (decode (key_CD r)))
                  (count (key_CD r) (link_keys rows))).
  split; [|split].
  - rewrite linksNamed_tally.
    apply (in_map (fun k => mkNamed (fst (decode k)) (snd (decode k))
                                    (count k (link_keys rows)))).
    apply <- In_new_Set; exact Hk.
  - simpl; unfold key_CD.
    rewrite split_key_source; [reflexivity|].
    unfold label_C; rewrite no_pipe_app, Hc; reflexivity.
  - simpl; apply count_In; exact Hk.
Qed.

(** With labels free of [|], the named links are the pairs of labels of
    the final rows. *)
Lemma named_link_labels (rows : list ExplodedRow) (l : NamedLink) :
  Forall (fun r => safe_exploded r = true) rows ->
  In l (Homework3.linksNamed (Homework3.linksMap rows)) ->
  exists r, In r rows /\
    ((l_source l = label_C r /\ l_target l = label_D r
      /\ l_value l = count (key_CD r) (link_keys rows))
     \/ (l_source l = label_D r /\ l_target l = label_G r
         /\ l_value l = count (key_DG r) (link_keys rows))).
Proof.
  intros Hsafe Hl; rewrite Forall_forall in Hsafe.
  rewrite linksNamed_tally in Hl.
  apply in_map_iff in Hl as [k [<- Hk]].
  apply -> In_new_Set in Hk; apply In_link_keys in Hk as [r [Hr [-> | ->]]];
    exists r; (split; [exact Hr|]); cbn [l_source l_target l_value].
  - left; rewrite (decode_key_CD r (Hsafe r Hr)); auto.
  - right; rewrite (decode_key_DG r (Hsafe r Hr)); auto.
Qed.

Lemma label_prefixes (r : ExplodedRow) :
  startsWith prefix_C (label_C r) = true
  /\ startsWith prefix_D (label_D r) = true
  /\ startsWith prefix_G (label_G r) = true.
Proof. repeat split; apply startsWith_app. Qed.

Lemma node_of_source (ln : list NamedLink) (l : NamedLink) :
  In l ln ->
  startsWith prefix_C (l_source l) = true
  \/ startsWith prefix_D (l_source l) = true
  \/ startsWith prefix_G (l_source l) = true ->
  In (l_source l) (map name (nodes (graph_of_links ln))).
Proof.
  intros Hl Hp; rewrite graph_node_names; apply In_ordered; split; [|exact Hp].
  apply In_nodeNames; exists l; auto.
Qed.

Lemma node_of_target (ln : list NamedLink) (l : NamedLink) :
  In l ln ->
  startsWith prefix_C (l_target l) = true
  \/ startsWith prefix_D (l_target l) = true
  \/ startsWith prefix_G (l_target l) = true ->
  In (l_target l) (map name (nodes (graph_of_links ln))).
Proof.
  intros Hl Hp; rewrite graph_node_names; apply In_ordered; split; [|exact Hp].
  apply In_nodeNames; exists l; auto.
Qed.

Lemma nth_error_node (ln : list NamedLink) (i : nat) (n : jsstring) :
  nth_error (map name (nodes (graph_of_links ln))) i = Some n ->
  nth_error (nodes (graph_of_links ln)) i = Some (mkNode n).
Proof.
  rewrite nth_error_map.
  destruct (nth_error (nodes (graph_of_links ln)) i) as [[m]|]; simpl;
    [intros [= ->]; reflexivity | discriminate].
Qed.

Lemma singleton_list {A} (a : A) (l : list A) :
  NoDup l -> (forall x, In x l -> x = a) -> In a l -> l = [a].
Proof.
  intros Hnd Hall Hin; destruct l as [|x l]; [destruct Hin|].
  rewrite (Hall x (or_introl eq_refl)) in *.
  destruct l as [|y l]; [reflexivity|].
  inversion Hnd as [|? ? Hx _]; subst.
  exfalso; apply Hx; left; apply Hall; right; left; reflexivity.
Qed.

(* ================================================================= *)
(** ** Blank countries *)


Lemma clean_not_blank (v : option jsstring) (fallback : jsstring) :
  blank v = false ->
  Homework3.clean v fallback
  = trim (match v with Some x => x | None => [] end).
Proof.
  unfold blank, Homework3.clean; intros H; apply negb_false_iff in H.
  rewrite H; reflexivity.
Qed.



(** Every key of [linksMap] has its two pieces: the destructuring in
    [linksNamed] never yields [undefined], on which [startsWith] would
    throw. *)
Lemma linksMap_keys_two_pieces (rows : list ExplodedRow) (k : jsstring) :
  In k (map fst (Homework3.linksMap rows)) -> 2 <= length (split key_sep k).
Proof.
  rewrite linksMap_tally; unfold tally; rewrite map_keys_tabulate; intros Hk.
  apply -> In_new_Set in Hk.
  apply In_link_keys in Hk as [r [_ [-> | ->]]];
    apply (split_key_two_pieces _ _ 0), Nat.le_0_l.
Qed.





(* ================================================================= *)
(** ** Selected country *)

Lemma final_rows_selected (data : list AthleteRow) (tc td : Z)
  (F : jsstring) :
  truthy (Some F) = true ->
  final_rows data tc td (Some F)
  = Homework3.finalRows td
      (Homework3.exploded
         (filter (fun cr => str_eqb (c_country cr) F) (Homework3.cleaned data))).
Proof.
  intros HF; unfold final_rows, Homework3.filteredCountries, Homework3.base.
  rewrite HF; reflexivity.
Qed.

Lemma graph_selected_any_topCountries (data : list AthleteRow) (tc tc' td : Z)
  (F : jsstring) :
  truthy (Some F) = true ->
  Homework3.graph data tc' td (Some F) = Homework3.graph data tc td (Some F).
Proof.
  intros HF; rewrite !graph_stages; unfold named_links.
  rewrite !final_rows_selected by exact HF; reflexivity.
Qed.

Lemma final_rows_selected_country (data : list AthleteRow) (tc td : Z)
  (F : jsstring) (r : ExplodedRow) :
  truthy (Some F) = true ->
  In r (final_rows data tc td (Some F)) -> e_country r = F.
Proof.
  intros HF Hr; rewrite final_rows_selected in Hr by exact HF.
  apply In_finalRows in Hr as [Hr _].
  apply In_exploded in Hr as [cr [Hcr [_ [Hc _]]]].
  apply filter_In in Hcr as [_ Hcr]; apply str_eqb_eq in Hcr; congruence.
Qed.

Lemma final_rows_selected_nonempty (data : list AthleteRow) (tc td : Z)
  (F : jsstring) (d : AthleteRow) :
  truthy (Some F) = true ->
  In d data -> Homework3.clean (country d) Unknown_Country = F ->
  (1 <= td)%Z ->
  final_rows data tc td (Some F) <> [].
Proof.
  intros HF Hd Hc Htd; rewrite final_rows_selected by exact HF.
  apply finalRows_nonempty; [exact Htd|].
  set (cr := mkCleaned (Homework3.clean (country d) Unknown_Country)
                       (Homework3.clean (disciplines d) Unknown_Discipline)
                       (Homework3.clean (gender d) Unknown)).
  assert (Hcr : In cr (filter (fun cr => str_eqb (c_country cr) F)
                         (Homework3.cleaned data))).
  { apply filter_In; split; [apply In_cleaned; exists d; auto|].
    simpl; rewrite Hc; apply str_eqb_refl. }
  pose proof (splitDisciplines_nonempty (disciplineRaw cr)) as Hne.
  destruct (Homework3.splitDisciplines (disciplineRaw cr)) as [|disc ds] eqn:E;
    [congruence|].
  assert (Her : In (mkExploded (c_country cr) disc (c_gender cr))
                   (Homework3.exploded
                      (filter (fun cr => str_eqb (c_country cr) F)
                         (Homework3.cleaned data)))).
  { apply In_exploded; exists cr; split; [exact Hcr|].
    cbn [discipline e_country e_gender]; rewrite E; simpl; auto. }
  intros Hempty; rewrite Hempty in Her; destruct Her.
Qed.

(** With labels free of [|], the names that start with [C: ] among the
    endpoints are the country labels of the final rows. *)
Lemma country_names_of_rows (rows : list ExplodedRow) (n : jsstring) :
  Forall (fun r => safe_exploded r = true) rows ->
  In n (filter (startsWith prefix_C)
          (Homework3.nodeNames
             (Homework3.linksNamed (Homework3.linksMap rows)))) <->
  exists r, In r rows /\ n = label_C r.
Proof.
  intros Hsafe; rewrite filter_In, In_nodeNames; split.
  - intros [[l [Hl Hn]] Hp].
    destruct (named_link_labels rows l Hsafe Hl)
      as [r [Hr [[Hs [Ht _]] | [Hs [Ht _]]]]];
      destruct (label_prefixes r) as [_ [HD HG]]; exists r;
      (split; [exact Hr|]);
      destruct Hn as [-> | ->]; try (rewrite Hs in *); try (rewrite Ht in *);
      try reflexivity.
    + rewrite (prefix_D_not_C _ HD) in Hp; discriminate.
    + rewrite (prefix_D_not_C _ HD) in Hp; discriminate.
    + rewrite (prefix_G_not_C _ HG) in Hp; discriminate.
  - intros [r [Hr ->]]; rewrite Forall_forall in Hsafe.
    assert (Hc : no_pipe (e_country r) = true).
    { specialize (Hsafe r Hr); unfold safe_exploded in Hsafe.
      apply andb_true_iff in Hsafe as [Hsafe _].
      apply andb_true_iff in Hsafe as [Hsafe _]; exact Hsafe. }
    destruct (final_row_source_link rows r Hr Hc) as [l [Hl [Hs _]]].
    split; [exists l; auto | apply label_prefixes].
Qed.

(* ================================================================= *)
(** ** Explosion of the disciplines field *)

Lemma split_chars_nonempty (sepc : char -> bool) (s : jsstring) :
  split_chars sepc s <> [].
Proof.
  destruct s as [|c s]; simpl; [discriminate|].
  destruct (sepc c); [discriminate|].
  destruct (split_chars sepc s); discriminate.
Qed.

Lemma split_chars_pieces (sepc : char -> bool) (s : jsstring) :
  pieces_of sepc s (split_chars sepc s).
Proof.
  induction s as [|c s IH]; simpl; [constructor; reflexivity|].
  destruct (sepc c) eqn:E.
  - apply (pieces_more sepc [] c s); [reflexivity | exact E | exact IH].
  - inversion IH as [p Hp Hs Hsplit | p c' s' ps Hp Hc' Hrest Hs Hsplit].
    + constructor; simpl; rewrite E, Hp; reflexivity.
    + apply (pieces_more sepc (c :: p) c' s' ps); [|exact Hc' | exact Hrest].
      simpl; rewrite E, Hp; reflexivity.
Qed.

Lemma forallb_trimStart (P : char -> bool) (s : jsstring) :
  forallb P s = true -> forallb P (trimStart s) = true.
Proof.
  induction s as [|c s IH]; simpl; [auto|].
  intros H; destruct (is_ws c); [|exact H].
  apply andb_true_iff in H as [_ H]; auto.
Qed.

Lemma forallb_rev (P : char -> bool) (s : jsstring) :
  forallb P (rev s) = forallb P s.
Proof.
  induction s as [|c s IH]; simpl; [reflexivity|].
  rewrite forallb_app, IH; simpl; rewrite andb_true_r; apply andb_comm.
Qed.

Lemma forallb_trim (P : char -> bool) (s : jsstring) :
  forallb P s = true -> forallb P (trim s) = true.
Proof.
  intros H; unfold trim, trimEnd.
  rewrite forallb_rev; apply forallb_trimStart.
  rewrite forallb_rev; apply forallb_trimStart; exact H.
Qed.

Lemma trimStart_idem (s : jsstring) : trimStart (trimStart s) = trimStart s.
Proof.
  induction s as [|c s IH]; simpl; [reflexivity|].
  destruct (is_ws c) eqn:E; [exact IH | simpl; rewrite E; reflexivity].
Qed.

Lemma trimStart_snoc (l : jsstring) (c : char) :
  is_ws c = false -> exists l', trimStart (l ++ [c]) = l' ++ [c].
Proof.
  intros Hc; induction l as [|x l IH]; simpl.
  - rewrite Hc; exists []; reflexivity.
  - destruct (is_ws x); [exact IH | exists (x :: l); reflexivity].
Qed.

Lemma trimStart_trimEnd (s : jsstring) :
  trimStart (trimEnd (trimStart s)) = trimEnd (trimStart s).
Proof.
  assert (H : forall t, trimStart t = t -> trimStart (trimEnd t) = trimEnd t).
  { intros [|c t] Ht; [reflexivity|].
    assert (Hc : is_ws c = false).
    { simpl in Ht; destruct (is_ws c) eqn:E; [|reflexivity].
      exfalso.
      assert (Hlen : length (trimStart t) <= length t).
      { clear; induction t as [|x t IH]; simpl; [lia|].
        destruct (is_ws x); simpl; lia. }
      rewrite Ht in Hlen; simpl in Hlen; lia. }
    unfold trimEnd; simpl rev.
    destruct (trimStart_snoc (rev t) c Hc) as [l' ->].
    rewrite rev_app_distr; simpl; rewrite Hc; reflexivity. }
  apply H, trimStart_idem.
Qed.

Lemma trim_idem (s : jsstring) : trim (trim s) = trim s.
Proof.
  unfold trim at 1 2; rewrite trimStart_trimEnd.
  unfold trim, trimEnd; rewrite rev_involutive, trimStart_idem; reflexivity.
Qed.

(** C4 (amended): explosion has a single path, with or without quoted
    items in the string: the string is cut at every comma, semicolon, pipe
    and slash, each piece is trimmed and empty pieces are discarded, so that
    every label kept is non-empty, trimmed and free of separators; if no
    piece is kept the string itself is the one label. *)
Theorem splitDisciplines_single_path (s : jsstring) :
  pieces_of sep_chars s (split_chars sep_chars s)
  /\ (kept_pieces s = [] -> Homework3.splitDisciplines s = [s])
  /\ (kept_pieces s <> [] -> Homework3.splitDisciplines s = kept_pieces s)
  /\ Forall (fun l => l <> [] /\ trim l = l /\ sep_free l = true)
            (kept_pieces s).
Proof.
  split; [apply split_chars_pieces|].
  unfold Homework3.splitDisciplines, kept_pieces.
  split; [intros ->; reflexivity|]; split.
  - intros H; destruct (filter _ _);
      [exfalso; apply H; reflexivity | reflexivity].
  - apply Forall_forall; intros l Hl.
    apply filter_In in Hl as [Hl Hlen].
    apply in_map_iff in Hl as [p [<- Hp]].
    split; [intros E; rewrite E in Hlen; discriminate|].
    split; [apply trim_idem|].
    apply forallb_trim.
    pose proof (split_chars_pieces sep_chars s) as Hpieces.
    induction Hpieces as [q Hq | q c s' ps Hq Hc Hrest IH].
    + destruct Hp as [<- | []]; exact Hq.
    + destruct Hp as [<- | Hp]; [exact Hq | exact (IH Hp)].
Qed.

(** C4 as stated fails on a string with quoted items: the Sankey
    explosion cuts it at the comma and keeps the brackets and quotes, where
    the claim has the single label that [parseDisciplinesField] builds. *)
Lemma splitDisciplines_quoted_list :
  Homework3.clean (Some (lit "['Freestyle', 'Relay']")) Unknown_Discipline
  = lit "['Freestyle', 'Relay']"
  /\ HeightWeightScatter.quoted_items (lit "['Freestyle', 'Relay']")
     = [lit "Freestyle"; lit "Relay"]
  /\ HeightWeightScatter.parseDisciplinesField
       (Some (lit "['Freestyle', 'Relay']"))
     = lit "Freestyle, Relay"
  /\ Homework3.splitDisciplines (lit "['Freestyle', 'Relay']")
     = [lit "['Freestyle'"; lit "'Relay']"]
  /\ Homework3.splitDisciplines (lit "['Freestyle', 'Relay']")
     <> [join (lit ", ")
           (map trim
              (HeightWeightScatter.quoted_items
                 (lit "['Freestyle', 'Relay']")))].
Proof.
  repeat split; try (vm_compute; reflexivity).
  vm_compute; discriminate.
Qed.

(** The quoted path of [parseDisciplinesField]. *)
Lemma parseDisciplinesField_quoted (s : jsstring) :
  HeightWeightScatter.quoted_items (trim s) <> [] ->
  HeightWeightScatter.parseDisciplinesField (Some s)
  = join (lit ", ") (map trim (HeightWeightScatter.quoted_items (trim s))).
Proof.
  intros H; unfold HeightWeightScatter.parseDisciplinesField.
  destruct (trim s) as [|c t] eqn:E; [exfalso; apply H; reflexivity|].
  simpl negb; cbv iota.
  destruct (HeightWeightScatter.quoted_items (c :: t)); [congruence|].
  reflexivity.
Qed.

(** A cleaned string without separator is its own single label. *)
Lemma splitDisciplines_atomic (s : jsstring) :
  sep_free s = true -> trim s = s -> s <> [] ->
  Homework3.splitDisciplines s = [s].
Proof.
  intros Hfree Htrim Hne.
  assert (Hsplit : split_chars sep_chars s = [s]).
  { clear Htrim Hne; induction s as [|c s IH]; [reflexivity|].
    simpl in Hfree; apply andb_true_iff in Hfree as [Hc Hs].
    apply negb_true_iff in Hc; simpl; rewrite Hc, (IH Hs); reflexivity. }
  unfold Homework3.splitDisciplines; rewrite Hsplit; simpl; rewrite Htrim.
  destruct s; [congruence | reflexivity].
Qed.

(* ================================================================= *)
(** ** Labels that contain the key separator *)

(** C1 at the input [{country: A|||B, disciplines: X, gender: M}]: the key
    of the country link splits into [C: A] and [B]; [B] is no node, so the
    link has no target index, against the non-null assertion on
    [idx.get(l.target)]. *)
Theorem graph_separator_in_country :
  safe_labels rows_sep = false
  /\ named_links rows_sep 12 12 None
     = [mkNamed (lit "C: A") (lit "B") 1; mkNamed (lit "D: X") (lit "G: M") 1]
  /\ Homework3.graph rows_sep 12 12 None
     = mkGraph [mkNode (lit "C: A"); mkNode (lit "D: X"); mkNode (lit "G: M")]
               [mkLink (Some 0) None 1; mkLink (Some 1) (Some 2) 1]
  /\ exists l, In l (links (Homework3.graph rows_sep 12 12 None))
               /\ target l = None.
Proof.
  split; [reflexivity|]; split; [vm_compute; reflexivity|].
  split; [vm_compute; reflexivity|].
  exists (mkLink (Some 0) None 1); split; [|reflexivity].
  vm_compute; left; reflexivity.
Qed.

(** C2 at two records of country [A|||B] with disciplines [X] and [Y]: two
    distinct keys split into the same pair ([C: A], [B]), which appears
    twice with weight 1 although two rows contribute to it. *)
Theorem graph_separator_duplicate_pair :
  map label_C (final_rows rows_sep2 12 12 None)
  = [lit "C: A|||B"; lit "C: A|||B"]
  /\ map fst (Homework3.linksMap (final_rows rows_sep2 12 12 None))
  = [lit "C: A|||B|||D: X"; lit "D: X|||G: M";
     lit "C: A|||B|||D: Y"; lit "D: Y|||G: M"]
  /\ named_links rows_sep2 12 12 None
     = [mkNamed (lit "C: A") (lit "B") 1; mkNamed (lit "D: X") (lit "G: M") 1;
        mkNamed (lit "C: A") (lit "B") 1; mkNamed (lit "D: Y") (lit "G: M") 1]
  /\ links (Homework3.graph rows_sep2 12 12 None)
     = [mkLink (Some 0) None 1; mkLink (Some 1) (Some 3) 1;
        mkLink (Some 0) None 1; mkLink (Some 2) (Some 3) 1]
  /\ ~ NoDup (map (fun l => (l_source l, l_target l))
                  (named_links rows_sep2 12 12 None))
  /\ ~ NoDup (map (fun l => (source l, target l))
                  (links (Homework3.graph rows_sep2 12 12 None))).
Proof.
  assert (Hn : named_links rows_sep2 12 12 None
     = [mkNamed (lit "C: A") (lit "B") 1; mkNamed (lit "D: X") (lit "G: M") 1;
        mkNamed (lit "C: A") (lit "B") 1; mkNamed (lit "D: Y") (lit "G: M") 1])
    by (vm_compute; reflexivity).
  assert (Hl : links (Homework3.graph rows_sep2 12 12 None)
     = [mkLink (Some 0) None 1; mkLink (Some 1) (Some 3) 1;
        mkLink (Some 0) None 1; mkLink (Some 2) (Some 3) 1])
    by (vm_compute; reflexivity).
  split; [vm_compute; reflexivity|].
  split; [vm_compute; reflexivity|].
  split; [exact Hn|]; split; [exact Hl|]; split.
  - rewrite Hn; simpl; intros H.
    inversion H as [|? ? Hin _]; apply Hin; right; left; reflexivity.
  - rewrite Hl; simpl; intros H.
    inversion H as [|? ? Hin _]; apply Hin; right; left; reflexivity.
Qed.

(** C9 at the input of C1, in both variants: the node [D: X] (position 1)
    has the outgoing link to [G: M] of weight 1 and no incoming link, the
    country link having lost its target. *)
Theorem graph_separator_flow :
  nth_error (nodes (Homework3.graph rows_sep 12 12 None)) 1
  = Some (mkNode (lit "D: X"))
  /\ flow_in (Homework3.graph rows_sep 12 12 None) 1 = 0
  /\ flow_out (Homework3.graph rows_sep 12 12 None) 1 = 1
  /\ flow_in (Homework2.graph rows_sep 12 12) 1 = 0
  /\ flow_out (Homework2.graph rows_sep 12 12) 1 = 1.
Proof. repeat split; vm_compute; reflexivity. Qed.

(* ================================================================= *)
(** ** Well-formedness of the graph *)

(** For every input the node names are distinct and made of the three
    sorted tiers, and every node is an endpoint of some link. *)
Theorem graph_nodes_ordered (data : list AthleteRow) (tc td : Z)
  (sel : option jsstring) :
  NoDup (map name (nodes (Homework3.graph data tc td sel)))
  /\ map name (nodes (Homework3.graph data tc td sel))
     = tier prefix_C (Homework3.graph data tc td sel)
       ++ tier prefix_D (Homework3.graph data tc td sel)
       ++ tier prefix_G (Homework3.graph data tc td sel)
  /\ (forall p, In p [prefix_C; prefix_D; prefix_G] ->
        Sorted (fun a b => (default_compare a b <= 0)%Z)
               (tier p (Homework3.graph data tc td sel))
        /\ forall n, In n (tier p (Homework3.graph data tc td sel)) <->
             In n (Homework3.nodeNames (named_links data tc td sel))
             /\ startsWith p n = true)
  /\ (forall i, i < length (nodes (Homework3.graph data tc td sel)) ->
        exists l, In l (links (Homework3.graph data tc td sel))
                  /\ (source l = Some i \/ target l = Some i)).
Proof.
  rewrite graph_stages; set (ln := named_links data tc td sel).
  split; [apply NoDup_graph_nodes|]; split; [|split].
  - rewrite tier_C_graph, tier_D_graph, tier_G_graph; apply graph_node_names.
  - intros p [<- | [<- | [<- | []]]];
      rewrite ?tier_C_graph, ?tier_D_graph, ?tier_G_graph;
      (split; [apply sort_Sorted | intros n; apply In_sort_filter]).
  - intros i Hi.
    destruct (nth_error (map name (nodes (graph_of_links ln))) i) as [n|] eqn:E.
    2:{ apply nth_error_None in E; rewrite length_map in E; lia. }
    pose proof (NoDup_graph_nodes ln) as Hnd.
    assert (Hin : In n (map name (nodes (graph_of_links ln))))
      by (eapply nth_error_In; exact E).
    assert (Hget : map_get n (Homework3.idx (nodes (graph_of_links ln)))
                   = Some i).
    { rewrite graph_node_names in Hnd, E.
      apply idx_position; assumption. }
    rewrite graph_node_names in Hin.
    apply In_ordered in Hin as [Hin _].
    apply In_nodeNames in Hin as [l0 [Hl0 Hn]].
    exists (mkLink
              (map_get (l_source l0) (Homework3.idx (nodes (graph_of_links ln))))
              (map_get (l_target l0) (Homework3.idx (nodes (graph_of_links ln))))
              (l_value l0)).
    split.
    + apply (in_map (fun l => mkLink
               (map_get (l_source l) (Homework3.idx (nodes (graph_of_links ln))))
               (map_get (l_target l) (Homework3.idx (nodes (graph_of_links ln))))
               (l_value l))); exact Hl0.
    + simpl; destruct Hn as [<- | <-]; auto.
Qed.

Lemma named_link_prefixes (rows : list ExplodedRow) (l : NamedLink) :
  Forall (fun r => safe_exploded r = true) rows ->
  In l (Homework3.linksNamed (Homework3.linksMap rows)) ->
  (startsWith prefix_C (l_source l) = true
   /\ startsWith prefix_D (l_target l) = true)
  \/ (startsWith prefix_D (l_source l) = true
      /\ startsWith prefix_G (l_target l) = true).
Proof.
  intros Hsafe Hl.
  destruct (named_link_labels rows l Hsafe Hl)
    as [r [_ [[-> [-> _]] | [-> [-> _]]]]];
    destruct (label_prefixes r) as [HC [HD HG]]; auto.
Qed.

Lemma Forall2_map_right {A B} (R : A -> B -> Prop) (f : A -> B)
  (l : list A) :
  (forall x, In x l -> R x (f x)) -> Forall2 R l (map f l).
Proof.
  induction l as [|x l IH]; simpl; intros H; constructor; auto.
Qed.

(** When no label contains [|], every link of the graph carries the
    positions of the two labels of its named link. *)
Theorem graph_indices_valid (data : list AthleteRow) (tc td : Z)
  (sel : option jsstring) :
  safe_labels data = true ->
  Forall2
    (fun l0 l =>
       exists i j,
         source l = Some i /\ target l = Some j /\ value l = l_value l0
         /\ nth_error (map name (nodes (Homework3.graph data tc td sel))) i
            = Some (l_source l0)
         /\ nth_error (map name (nodes (Homework3.graph data tc td sel))) j
            = Some (l_target l0)
         /\ i < length (nodes (Homework3.graph data tc td sel))
         /\ j < length (nodes (Homework3.graph data tc td sel)))
    (named_links data tc td sel)
    (links (Homework3.graph data tc td sel)).
Proof.
  intros Hsafe; rewrite graph_stages.
  pose proof (final_rows_safe data tc td sel Hsafe) as Hrows.
  set (ln := named_links data tc td sel).
  apply (Forall2_map_right _
           (fun l => mkLink
              (map_get (l_source l) (Homework3.idx (nodes (graph_of_links ln))))
              (map_get (l_target l) (Homework3.idx (nodes (graph_of_links ln))))
              (l_value l))).
  intros l0 Hl0.
  assert (Hs : In (l_source l0) (map name (nodes (graph_of_links ln)))).
  { apply node_of_source; [exact Hl0|].
    destruct (named_link_prefixes _ l0 Hrows Hl0) as [[H _] | [H _]]; auto. }
  assert (Ht : In (l_target l0) (map name (nodes (graph_of_links ln)))).
  { apply node_of_target; [exact Hl0|].
    destruct (named_link_prefixes _ l0 Hrows Hl0) as [[_ H] | [_ H]]; auto. }
  destruct (endpoint_index ln _ Hs) as [i [Hgi Hni]].
  destruct (endpoint_index ln _ Ht) as [j [Hgj Hnj]].
  exists i, j; cbn [source target value].
  repeat split; try assumption.
  - rewrite <- (length_map name); apply nth_error_Some; congruence.
  - rewrite <- (length_map name); apply nth_error_Some; congruence.
Qed.

(* ================================================================= *)
(** ** Doubling the input *)

Lemma Doubled_app_self {A} (l : list A) : Doubled l (l ++ l).
Proof.
  rewrite <- (app_nil_r l) at 1.
  rewrite <- (app_nil_r (l ++ l)), <- app_assoc.
  apply dbl_block, dbl_nil.
Qed.

Lemma Doubled_each {A} (l : list A) :
  Doubled l (flat_map (fun x => [x; x]) l).
Proof.
  induction l as [|x l IH]; simpl; [constructor|].
  apply (dbl_block [x] l _ IH).
Qed.

Lemma Doubled_map {A B} (f : A -> B) (l l' : list A) :
  Doubled l l' -> Doubled (map f l) (map f l').
Proof.
  induction 1 as [|b l l' _ IH]; simpl; [constructor|].
  rewrite !map_app; apply dbl_block, IH.
Qed.

Lemma Doubled_filter {A} (p : A -> bool) (l l' : list A) :
  Doubled l l' -> Doubled (filter p l) (filter p l').
Proof.
  induction 1 as [|b l l' _ IH]; simpl; [constructor|].
  rewrite !filter_app; apply dbl_block, IH.
Qed.

Lemma Doubled_flat_map {A B} (f : A -> list B) (l l' : list A) :
  Doubled l l' -> Doubled (flat_map f l) (flat_map f l').
Proof.
  induction 1 as [|b l l' _ IH]; simpl; [constructor|].
  rewrite !flat_map_app; apply dbl_block, IH.
Qed.

Lemma set_add_again (s : JSSet) (b : list jsstring) :
  (forall x, In x b -> In x s) ->
  fold_left (fun s x => set_add x s) b s = s.
Proof.
  revert s; induction b as [|x b IH]; intros s H; simpl; [reflexivity|].
  unfold set_add at 2.
  replace (set_has x s) with true
    by (symmetry; apply set_has_In, H; left; reflexivity).
  apply IH; intros y Hy; apply H; right; exact Hy.
Qed.

Lemma In_fold_set_add (b : list jsstring) (s : JSSet) (x : jsstring) :
  In x (fold_left (fun s x => set_add x s) b s) <-> In x s \/ In x b.
Proof.
  revert s; induction b as [|y b IH]; intros s; simpl; [tauto|].
  rewrite IH, In_set_add; intuition congruence.
Qed.

Lemma Doubled_fold_set_add (l l' : list jsstring) (s : JSSet) :
  Doubled l l' ->
  fold_left (fun s x => set_add x s) l' s
  = fold_left (fun s x => set_add x s) l s.
Proof.
  intros H; revert s; induction H as [|b l l' _ IH]; intros s;
    [reflexivity|].
  rewrite !fold_left_app, IH; f_equal.
  apply set_add_again; intros x Hx; apply In_fold_set_add; auto.
Qed.

Lemma Doubled_new_Set (l l' : list jsstring) :
  Doubled l l' -> new_Set l' = new_Set l.
Proof. apply Doubled_fold_set_add. Qed.

Lemma Doubled_count (k : jsstring) (l l' : list jsstring) :
  Doubled l l' -> count k l' = 2 * count k l.
Proof.
  unfold count; induction 1 as [|b l l' _ IH]; [reflexivity|].
  rewrite !filter_app, !length_app, IH; lia.
Qed.

Lemma Doubled_tally (l l' : list jsstring) :
  Doubled l l' ->
  tally l' = map (fun kv => (fst kv, 2 * snd kv)) (tally l).
Proof.
  intros H; unfold tally; rewrite (Doubled_new_Set l l' H), map_map; simpl.
  apply map_ext; intros k; rewrite (Doubled_count k l l' H); reflexivity.
Qed.

Lemma descending_double (a b : nat) :
  descending (2 * a) (2 * b) = descending a b.
Proof.
  unfold descending.
  destruct (Nat.ltb_spec b a), (Nat.ltb_spec (2 * b) (2 * a)); try lia;
    destruct (Nat.ltb_spec a b), (Nat.ltb_spec (2 * a) (2 * b)); lia.
Qed.

(** The keys retained by a top-N selection do not change when every count
    doubles. *)
Lemma top_keys_double (n : Z) (counts : JSMap nat) :
  new_Set
    (map fst
       (slice0 n
          (sort_with (fun a b => descending (snd a) (snd b))
             (map (fun kv => (fst kv, 2 * snd kv)) counts))))
  = new_Set
      (map fst
         (slice0 n
            (sort_with (fun a b => descending (snd a) (snd b)) counts))).
Proof.
  rewrite (sort_with_map (fun a b => descending (snd a) (snd b))
             (fun a b => descending (snd a) (snd b))
             (fun kv : jsstring * nat => (fst kv, 2 * snd kv)))
    by (intros a b; apply descending_double).
  rewrite slice0_map, map_map; reflexivity.
Qed.

Lemma rollup_tally {A} (key : A -> jsstring) (values : list A) :
  rollup (@length A) key values = tally (map key values).
Proof. apply rollup_length. Qed.

Lemma Doubled_topCountrySet (tc : Z) (b b' : list CleanedRow) :
  Doubled b b' ->
  Homework3.topCountrySet tc b' = Homework3.topCountrySet tc b.
Proof.
  intros H; unfold Homework3.topCountrySet, Homework3.countryCounts.
  rewrite !rollup_tally.
  rewrite (Doubled_tally _ _ (Doubled_map c_country _ _ H)).
  apply top_keys_double.
Qed.

Lemma Doubled_topDiscSet (td : Z) (e e' : list ExplodedRow) :
  Doubled e e' ->
  Homework3.topDiscSet td e' = Homework3.topDiscSet td e.
Proof.
  intros H; unfold Homework3.topDiscSet, Homework3.discCounts.
  rewrite !rollup_tally.
  rewrite (Doubled_tally _ _ (Doubled_map discipline _ _ H)).
  apply top_keys_double.
Qed.

Lemma Doubled_final_rows (data data' : list AthleteRow) (tc td : Z)
  (sel : option jsstring) :
  Doubled data data' ->
  Doubled (final_rows data tc td sel) (final_rows data' tc td sel).
Proof.
  intros H; unfold final_rows, Homework3.finalRows.
  assert (Hb : Doubled (Homework3.base sel (Homework3.cleaned data))
                       (Homework3.base sel (Homework3.cleaned data'))).
  { unfold Homework3.base, Homework3.cleaned.
    destruct (truthy sel);
      [apply Doubled_filter|]; apply Doubled_map; exact H. }
  assert (Hf : Doubled
                 (Homework3.filteredCountries sel tc
                    (Homework3.base sel (Homework3.cleaned data)))
                 (Homework3.filteredCountries sel tc
                    (Homework3.base sel (Homework3.cleaned data')))).
  { unfold Homework3.filteredCountries.
    destruct (negb (truthy sel)); [|exact Hb].
    rewrite (Doubled_topCountrySet tc _ _ Hb).
    apply Doubled_filter; exact Hb. }
  assert (He : Doubled
                 (Homework3.exploded
                    (Homework3.filteredCountries sel tc
                       (Homework3.base sel (Homework3.cleaned data))))
                 (Homework3.exploded
                    (Homework3.filteredCountries sel tc
                       (Homework3.base sel (Homework3.cleaned data')))))
    by (apply Doubled_flat_map; exact Hf).
  rewrite (Doubled_topDiscSet td _ _ He).
  apply Doubled_filter; exact He.
Qed.

Lemma Doubled_named_links (data data' : list AthleteRow) (tc td : Z)
  (sel : option jsstring) :
  Doubled data data' ->
  named_links data' tc td sel
  = map (fun l => mkNamed (l_source l) (l_target l) (2 * l_value l))
        (named_links data tc td sel).
Proof.
  intros H; unfold named_links; rewrite !linksNamed_tally.
  pose proof (Doubled_flat_map (fun r => [key_CD r; key_DG r]) _ _
                (Doubled_final_rows data data' tc td sel H)) as Hk.
  fold (link_keys (final_rows data tc td sel)) in Hk.
  fold (link_keys (final_rows data' tc td sel)) in Hk.
  rewrite (Doubled_new_Set _ _ Hk), map_map; cbn [l_source l_target l_value].
  apply map_ext; intros k; rewrite (Doubled_count k _ _ Hk); reflexivity.
Qed.

Lemma flat_map_of_map {A B C} (f : B -> list C) (g : A -> B) (l : list A) :
  flat_map f (map g l) = flat_map (fun x => f (g x)) l.
Proof.
  induction l as [|x l IH]; simpl; [reflexivity | rewrite IH; reflexivity].
Qed.

Lemma graph_of_links_double (ln : list NamedLink) :
  graph_of_links
    (map (fun l => mkNamed (l_source l) (l_target l) (2 * l_value l)) ln)
  = double_weights (graph_of_links ln).
Proof.
  assert (Hn : Homework3.nodeNames
                 (map (fun l => mkNamed (l_source l) (l_target l)
                                        (2 * l_value l)) ln)
               = Homework3.nodeNames ln).
  { unfold Homework3.nodeNames; f_equal.
    rewrite flat_map_of_map; reflexivity. }
  unfold graph_of_links, double_weights; rewrite Hn; cbn [nodes links].
  rewrite !map_map; reflexivity.
Qed.

(** For every input, a doubled input (each record twice, in the order
    [data ++ data], record by record, or block by block) gives the same
    nodes and the same links with doubled weights. *)
Theorem graph_doubled (data data' : list AthleteRow) (tc td : Z)
  (sel : option jsstring) :
  Doubled data data' ->
  Homework3.graph data' tc td sel
  = double_weights (Homework3.graph data tc td sel).
Proof.
  intros H; rewrite !graph_stages, (Doubled_named_links _ _ _ _ _ H).
  apply graph_of_links_double.
Qed.

Corollary graph_doubled_app (data : list AthleteRow) (tc td : Z)
  (sel : option jsstring) :
  Homework3.graph (data ++ data) tc td sel
  = double_weights (Homework3.graph data tc td sel).
Proof.
  rewrite !graph_stages, (Doubled_named_links _ _ _ _ _ (Doubled_app_self data)).
  apply graph_of_links_double.
Qed.

Corollary graph_doubled_each (data : list AthleteRow) (tc td : Z)
  (sel : option jsstring) :
  Homework3.graph (flat_map (fun d => [d; d]) data) tc td sel
  = double_weights (Homework3.graph data tc td sel).
Proof.
  rewrite !graph_stages, (Doubled_named_links _ _ _ _ _ (Doubled_each data)).
  apply graph_of_links_double.
Qed.

(* ================================================================= *)
(** ** One link per pair of labels *)

Lemma key_CD_not_DG (r r' : ExplodedRow) : key_CD r <> key_DG r'.
Proof. unfold key_CD, key_DG, label_C, label_D; discriminate. Qed.

Lemma encode_decode_key (rows : list ExplodedRow) (k : jsstring) :
  Forall (fun r => safe_exploded r = true) rows ->
  In k (link_keys rows) -> encode (decode k) = k.
Proof.
  intros Hsafe Hk; rewrite Forall_forall in Hsafe.
  apply In_link_keys in Hk as [r [Hr [-> | ->]]].
  - rewrite (decode_key_CD r (Hsafe r Hr)); reflexivity.
  - rewrite (decode_key_DG r (Hsafe r Hr)); reflexivity.
Qed.

Lemma NoDup_map_injective {A B} (f : A -> B) (l : list A) :
  (forall x y, In x l -> In y l -> f x = f y -> x = y) ->
  NoDup l -> NoDup (map f l).
Proof.
  intros Hinj Hnd; induction Hnd as [|x l Hx Hnd IH]; simpl; constructor.
  - intros H; apply in_map_iff in H as [y [Hy Hin]].
    apply Hx; rewrite (Hinj x y); auto; [left; reflexivity | right; exact Hin].
  - apply IH; intros y z Hy Hz; apply Hinj; right; assumption.
Qed.

Lemma count_link_keys (rows : list ExplodedRow) (k : jsstring) :
  count k (link_keys rows)
  = length (filter (fun r => str_eqb k (key_CD r) || str_eqb k (key_DG r))
                   rows).
Proof.
  unfold count, link_keys; induction rows as [|r rows IH]; [reflexivity|].
  cbn [flat_map app filter].
  destruct (str_eqb k (key_CD r)) eqn:E1.
  - apply str_eqb_eq in E1; subst k.
    replace (str_eqb (key_CD r) (key_DG r)) with false
      by (symmetry; apply str_eqb_neq, key_CD_not_DG).
    cbn [orb length]; rewrite IH; reflexivity.
  - destruct (str_eqb k (key_DG r)); cbn [orb length]; rewrite IH; reflexivity.
Qed.

Lemma contributes_keys (r : ExplodedRow) (k : jsstring) :
  safe_exploded r = true -> encode (decode k) = k ->
  str_eqb k (key_CD r) || str_eqb k (key_DG r)
  = contributes r (fst (decode k)) (snd (decode k)).
Proof.
  intros Hr Hk; unfold contributes.
  assert (H1 : str_eqb k (key_CD r)
               = str_eqb (fst (decode k)) (label_C r)
                 && str_eqb (snd (decode k)) (label_D r)).
  { destruct (str_eqb k (key_CD r)) eqn:E.
    - apply str_eqb_eq in E; subst k; rewrite (decode_key_CD r Hr); simpl.
      rewrite !str_eqb_refl; reflexivity.
    - symmetry; apply andb_false_iff.
      destruct (str_eqb (fst (decode k)) (label_C r)) eqn:E1; [|auto].
      destruct (str_eqb (snd (decode k)) (label_D r)) eqn:E2; [|auto].
      apply str_eqb_eq in E1, E2; apply str_eqb_neq in E.
      exfalso; apply E; rewrite <- Hk; unfold encode, key_CD; congruence. }
  assert (H2 : str_eqb k (key_DG r)
               = str_eqb (fst (decode k)) (label_D r)
                 && str_eqb (snd (decode k)) (label_G r)).
  { destruct (str_eqb k (key_DG r)) eqn:E.
    - apply str_eqb_eq in E; subst k; rewrite (decode_key_DG r Hr); simpl.
      rewrite !str_eqb_refl; reflexivity.
    - symmetry; apply andb_false_iff.
      destruct (str_eqb (fst (decode k)) (label_D r)) eqn:E1; [|auto].
      destruct (str_eqb (snd (decode k)) (label_G r)) eqn:E2; [|auto].
      apply str_eqb_eq in E1, E2; apply str_eqb_neq in E.
      exfalso; apply E; rewrite <- Hk; unfold encode, key_DG; congruence. }
  rewrite H1, H2; reflexivity.
Qed.

Lemma filter_pointwise_in {A} (p q : A -> bool) (l : list A) :
  (forall x, In x l -> p x = q x) -> filter p l = filter q l.
Proof.
  induction l as [|x l IH]; simpl; intros H; [reflexivity|].
  rewrite (H x (or_introl eq_refl)), IH; auto.
Qed.

(** When no label contains [|]: the named links have pairwise distinct
    (source, target) pairs, so have the links of the graph, and the weight
    of a link is the number of final rows that contribute its pair. *)
Theorem links_distinct_weighted (data : list AthleteRow) (tc td : Z)
  (sel : option jsstring) :
  safe_labels data = true ->
  NoDup (map (fun l => (l_source l, l_target l))
             (named_links data tc td sel))
  /\ NoDup (map (fun l => (source l, target l))
                (links (Homework3.graph data tc td sel)))
  /\ Forall (fun l =>
               l_value l
               = length (filter (fun r => contributes r (l_source l)
                                                      (l_target l))
                                (final_rows data tc td sel)))
            (named_links data tc td sel).
Proof.
  intros Hsafe.
  pose proof (final_rows_safe data tc td sel Hsafe) as Hrows.
  rewrite graph_stages in *.
  set (rows := final_rows data tc td sel) in *.
  assert (Hpairs : NoDup (map (fun l => (l_source l, l_target l))
                              (named_links data tc td sel))).
  { unfold named_links; fold rows; rewrite linksNamed_tally, map_map.
    cbn [l_source l_target].
    apply NoDup_map_injective; [|apply NoDup_new_Set].
    intros k k' Hk Hk' E.
    apply -> In_new_Set in Hk; apply -> In_new_Set in Hk'.
    rewrite <- (encode_decode_key rows k Hrows Hk),
      <- (encode_decode_key rows k' Hrows Hk').
    destruct (decode k), (decode k'); simpl in E; congruence. }
  split; [exact Hpairs|]; split.
  - set (ln := named_links data tc td sel) in *.
    set (g := graph_of_links ln) in *.
    assert (Hname : forall l0, In l0 ln ->
              exists i j,
                map_get (l_source l0) (Homework3.idx (nodes g)) = Some i
                /\ map_get (l_target l0) (Homework3.idx (nodes g)) = Some j
                /\ nth_error (map name (nodes g)) i = Some (l_source l0)
                /\ nth_error (map name (nodes g)) j = Some (l_target l0)).
    { intros l0 Hl0.
      assert (Hs : In (l_source l0) (map name (nodes g))).
      { apply node_of_source; [exact Hl0|].
        destruct (named_link_prefixes _ l0 Hrows Hl0) as [[H _] | [H _]]; auto. }
      assert (Ht : In (l_target l0) (map name (nodes g))).
      { apply node_of_target; [exact Hl0|].
        destruct (named_link_prefixes _ l0 Hrows Hl0) as [[_ H] | [_ H]]; auto. }
      destruct (endpoint_index ln _ Hs) as [i [Hgi Hni]].
      destruct (endpoint_index ln _ Ht) as [j [Hgj Hnj]].
      exists i, j; auto. }
    change (links g)
      with (map (fun l => mkLink
                   (map_get (l_source l) (Homework3.idx (nodes g)))
                   (map_get (l_target l) (Homework3.idx (nodes g)))
                   (l_value l)) ln).
    rewrite map_map; cbn [source target].
    replace (map (fun x => (map_get (l_source x) (Homework3.idx (nodes g)),
                            map_get (l_target x) (Homework3.idx (nodes g)))) ln)
      with (map (fun p => (map_get (fst p) (Homework3.idx (nodes g)),
                           map_get (snd p) (Homework3.idx (nodes g))))
                (map (fun l => (l_source l, l_target l)) ln))
      by (rewrite map_map; reflexivity).
    apply NoDup_map_injective; [|exact Hpairs].
    intros [a b] [a' b'] Hab Hab' E.
    apply in_map_iff in Hab as [l0 [E0 Hl0]].
    apply in_map_iff in Hab' as [l0' [E0' Hl0']].
    destruct (Hname l0 Hl0) as [i [j [Hi [Hj [Hni Hnj]]]]].
    destruct (Hname l0' Hl0') as [i' [j' [Hi' [Hj' [Hni' Hnj']]]]].
    injection E0 as <- <-; injection E0' as <- <-.
    cbn [fst snd] in E; rewrite Hi, Hj, Hi', Hj' in E.
    injection E as <- <-; congruence.
  - apply Forall_forall; intros l Hl.
    unfold named_links in Hl; fold rows in Hl.
    rewrite linksNamed_tally in Hl.
    apply in_map_iff in Hl as [k [<- Hk]]; cbn [l_source l_target l_value].
    apply -> In_new_Set in Hk.
    rewrite count_link_keys; f_equal.
    apply filter_pointwise_in; intros r Hr.
    apply contributes_keys;
      [rewrite Forall_forall in Hrows; apply Hrows; exact Hr|].
    apply (encode_decode_key rows); assumption.
Qed.

(* ================================================================= *)
(** ** Flow through the discipline nodes *)

Lemma filter_of_map {A B} (q : B -> bool) (f : A -> B) (l : list A) :
  filter q (map f l) = map f (filter (fun x => q (f x)) l).
Proof.
  induction l as [|x l IH]; simpl; [reflexivity|].
  destruct (q (f x)); simpl; rewrite IH; reflexivity.
Qed.

Lemma count_unchanged (ks L : list jsstring) (x : jsstring) :
  ~ In x L ->
  map (fun k => count k (ks ++ [x])) L = map (fun k => count k ks) L.
Proof.
  intros Hx; apply map_ext_in; intros k Hk; rewrite count_snoc.
  replace (str_eqb k x) with false; [lia|].
  symmetry; apply str_eqb_neq; intros ->; tauto.
Qed.

Lemma sum_count_snoc_in (P : jsstring -> bool) (ks L : list jsstring)
  (x : jsstring) :
  NoDup L -> In x L ->
  list_sum (map (fun k => count k (ks ++ [x])) (filter P L))
  = list_sum (map (fun k => count k ks) (filter P L))
    + (if P x then 1 else 0).
Proof.
  induction 1 as [|y L Hy Hnd IH]; [intros []|].
  intros [-> | Hin]; simpl.
  - assert (Hrest : ~ In x (filter P L))
      by (intros H; apply filter_In in H; tauto).
    destruct (P x); simpl.
    + rewrite (count_unchanged ks _ x Hrest), count_snoc, str_eqb_refl; lia.
    + rewrite (count_unchanged ks _ x Hrest); lia.
  - assert (Hyx : str_eqb y x = false)
      by (apply str_eqb_neq; intros ->; tauto).
    destruct (P y); simpl; rewrite (IH Hin); [|reflexivity].
    rewrite count_snoc, Hyx; lia.
Qed.

(** Summing the counts of the distinct keys that satisfy [P] counts the
    keys that satisfy [P]. *)
Lemma sum_count_filter (P : jsstring -> bool) (ks : list jsstring) :
  list_sum (map (fun k => count k ks) (filter P (new_Set ks)))
  = length (filter P ks).
Proof.
  induction ks as [|x ks IH] using rev_ind; [reflexivity|].
  rewrite new_Set_snoc, filter_app, length_app; unfold set_add.
  destruct (set_has x (new_Set ks)) eqn:E.
  - apply set_has_In in E.
    rewrite (sum_count_snoc_in P ks _ x (NoDup_new_Set ks) E), IH.
    simpl; destruct (P x); reflexivity.
  - apply set_has_not_In in E.
    rewrite filter_app, map_app, list_sum_app.
    rewrite (count_unchanged ks (filter P (new_Set ks)) x)
      by (intros H; apply filter_In in H; tauto).
    rewrite IH; f_equal; simpl.
    destruct (P x); simpl; [|reflexivity].
    rewrite count_snoc, str_eqb_refl, count_not_In; [reflexivity|].
    intros H; apply E; apply <- In_new_Set; exact H.
Qed.

Lemma sum_values_named (rows : list ExplodedRow) (Q : NamedLink -> bool)
  (P : jsstring -> bool) :
  (forall k, In k (link_keys rows) ->
     Q (mkNamed (fst (decode k)) (snd (decode k)) (count k (link_keys rows)))
     = P k) ->
  list_sum (map l_value
              (filter Q (Homework3.linksNamed (Homework3.linksMap rows))))
  = length (filter P (link_keys rows)).
Proof.
  intros HQ; rewrite linksNamed_tally, filter_of_map, map_map.
  cbn [l_value].
  rewrite (filter_pointwise_in _ P), sum_count_filter; [reflexivity|].
  intros k Hk; apply HQ; apply -> In_new_Set; exact Hk.
Qed.

Lemma length_filter_link_keys (rows : list ExplodedRow)
  (P : jsstring -> bool) (R : ExplodedRow -> bool) :
  (forall r, In r rows ->
     (if P (key_CD r) then 1 else 0) + (if P (key_DG r) then 1 else 0)
     = if R r then 1 else 0) ->
  length (filter P (link_keys rows)) = length (filter R rows).
Proof.
  unfold link_keys; induction rows as [|r rows IH]; intros H; [reflexivity|].
  cbn [flat_map app filter].
  specialize (IH (fun r' Hr' => H r' (or_intror Hr'))).
  specialize (H r (or_introl eq_refl)).
  destruct (P (key_CD r)), (P (key_DG r)), (R r); cbn [length];
    rewrite ?IH; simpl in H; lia.
Qed.

Lemma label_D_not_C (r r' : ExplodedRow) : label_D r <> label_C r'.
Proof. unfold label_D, label_C; discriminate. Qed.

Lemma label_D_not_G (r r' : ExplodedRow) : label_D r <> label_G r'.
Proof. unfold label_D, label_G; discriminate. Qed.

Lemma index_is (ln : list NamedLink) (i : nat) (p n : jsstring) :
  nth_error (map name (nodes (graph_of_links ln))) i = Some p ->
  In n (map name (nodes (graph_of_links ln))) ->
  endpoint_is (map_get n (Homework3.idx (nodes (graph_of_links ln)))) i
  = str_eqb n p.
Proof.
  intros Hp Hn; destruct (endpoint_index ln n Hn) as [j [Hget Hj]].
  rewrite Hget; simpl.
  destruct (Nat.eqb_spec j i) as [-> | Hji]; symmetry.
  - apply str_eqb_eq; congruence.
  - apply str_eqb_neq; intros ->; apply Hji.
    pose proof (NoDup_graph_nodes ln) as Hnd.
    rewrite NoDup_nth_error in Hnd; apply Hnd; [|congruence].
    apply nth_error_Some; congruence.
Qed.

Lemma index_in_tier (ln : list NamedLink) (prefix n : jsstring) :
  In n (map name (nodes (graph_of_links ln))) ->
  endpoint_in_tier prefix (graph_of_links ln)
    (map_get n (Homework3.idx (nodes (graph_of_links ln))))
  = startsWith prefix n.
Proof.
  intros Hn; destruct (endpoint_index ln n Hn) as [j [Hget Hj]].
  rewrite Hget; unfold endpoint_in_tier.
  rewrite (nth_error_node ln j n Hj); reflexivity.
Qed.

(** When no label contains [|], the weight that enters a discipline node
    from the country tier and the weight that leaves it for the gender
    tier are both the number of final rows of that discipline. *)
Theorem flow_conserved (data : list AthleteRow) (tc td : Z)
  (sel : option jsstring) (i : nat) (p : jsstring) :
  safe_labels data = true ->
  nth_error (map name (nodes (Homework3.graph data tc td sel))) i = Some p ->
  startsWith prefix_D p = true ->
  flow_in (Homework3.graph data tc td sel) i
  = length (filter (fun r => str_eqb (label_D r) p)
                   (final_rows data tc td sel))
  /\ flow_out (Homework3.graph data tc td sel) i
     = length (filter (fun r => str_eqb (label_D r) p)
                      (final_rows data tc td sel))
  /\ flow_in (Homework3.graph data tc td sel) i
     = flow_out (Homework3.graph data tc td sel) i.
Proof.
  intros Hsafe Hp HD.
  pose proof (final_rows_safe data tc td sel Hsafe) as Hrows.
  rewrite graph_stages in *; unfold named_links in *.
  set (rows := final_rows data tc td sel) in *.
  set (ln := Homework3.linksNamed (Homework3.linksMap rows)) in *.
  set (g := graph_of_links ln) in *.
  assert (Hnodes : forall l0, In l0 ln ->
            In (l_source l0) (map name (nodes g))
            /\ In (l_target l0) (map name (nodes g))).
  { intros l0 Hl0; split; [apply node_of_source | apply node_of_target];
      try exact Hl0;
      destruct (named_link_prefixes _ l0 Hrows Hl0) as [[H1 H2] | [H1 H2]];
      auto. }
  assert (Hlinks : links g
            = map (fun l => mkLink
                     (map_get (l_source l) (Homework3.idx (nodes g)))
                     (map_get (l_target l) (Homework3.idx (nodes g)))
                     (l_value l)) ln) by reflexivity.
  assert (Hin : flow_in g i
                = length (filter (fun r => str_eqb (label_D r) p) rows)).
  { unfold flow_in; rewrite Hlinks, filter_of_map, map_map; cbn [value].
    cbn [source target].
    rewrite (filter_pointwise_in _ (fun l0 => str_eqb (l_target l0) p)).
    - unfold ln.
      rewrite (sum_values_named rows _
                 (fun k => str_eqb (snd (decode k)) p)) by reflexivity.
      apply length_filter_link_keys; intros r Hr.
      rewrite Forall_forall in Hrows.
      rewrite (decode_key_CD r (Hrows r Hr)), (decode_key_DG r (Hrows r Hr)).
      cbn [snd].
      replace (str_eqb (label_G r) p) with false; [lia|].
      symmetry; apply str_eqb_neq; intros E; subst p.
      destruct (label_prefixes r) as [_ [_ HG]].
      rewrite (prefix_G_not_D _ HG) in HD; discriminate.
    - intros l0 Hl0; destruct (Hnodes l0 Hl0) as [Hs Ht].
      unfold g in *.
      rewrite (index_is ln i p _ Hp Ht), (index_in_tier ln _ _ Hs).
      destruct (str_eqb (l_target l0) p) eqn:E; [|reflexivity].
      apply str_eqb_eq in E; simpl.
      destruct (named_link_prefixes _ l0 Hrows Hl0) as [[H1 _] | [_ H2]];
        [exact H1|].
      rewrite E in H2; rewrite (prefix_G_not_D _ H2) in HD; discriminate. }
  assert (Hout : flow_out g i
                 = length (filter (fun r => str_eqb (label_D r) p) rows)).
  { unfold flow_out; rewrite Hlinks, filter_of_map, map_map; cbn [value].
    cbn [source target].
    rewrite (filter_pointwise_in _ (fun l0 => str_eqb (l_source l0) p)).
    - unfold ln.
      rewrite (sum_values_named rows _
                 (fun k => str_eqb (fst (decode k)) p)) by reflexivity.
      apply length_filter_link_keys; intros r Hr.
      rewrite Forall_forall in Hrows.
      rewrite (decode_key_CD r (Hrows r Hr)), (decode_key_DG r (Hrows r Hr)).
      cbn [fst].
      replace (str_eqb (label_C r) p) with false; [lia|].
      symmetry; apply str_eqb_neq; intros E; subst p.
      destruct (label_prefixes r) as [HC _].
      rewrite (prefix_C_not_D _ HC) in HD; discriminate.
    - intros l0 Hl0; destruct (Hnodes l0 Hl0) as [Hs Ht].
      unfold g in *.
      rewrite (index_is ln i p _ Hp Hs), (index_in_tier ln _ _ Ht).
      destruct (str_eqb (l_source l0) p) eqn:E; [|reflexivity].
      apply str_eqb_eq in E; simpl.
      destruct (named_link_prefixes _ l0 Hrows Hl0) as [[H1 _] | [_ H2]];
        [|exact H2].
      rewrite E in H1; rewrite (prefix_C_not_D _ H1) in HD; discriminate. }
  split; [exact Hin|]; split; [exact Hout|]; congruence.
Qed.

(* ================================================================= *)
(** ** The three-record example *)

Example graph_three_records :
  Homework3.graph rows_usa 1 2 None
  = mkGraph
      [mkNode (lit "C: USA"); mkNode (lit "D: Athletics");
       mkNode (lit "D: Swimming"); mkNode (lit "G: Female");
       mkNode (lit "G: Male")]
      [mkLink (Some 0) (Some 2) 2; mkLink (Some 2) (Some 4) 1;
       mkLink (Some 2) (Some 3) 1; mkLink (Some 0) (Some 1) 1;
       mkLink (Some 1) (Some 4) 1].
Proof. vm_compute; reflexivity. Qed.

Example graph_three_records_doubled :
  links (Homework3.graph (rows_usa ++ rows_usa) 1 2 None)
  = [mkLink (Some 0) (Some 2) 4; mkLink (Some 2) (Some 4) 2;
     mkLink (Some 2) (Some 3) 2; mkLink (Some 0) (Some 1) 2;
     mkLink (Some 1) (Some 4) 2].
Proof. rewrite graph_doubled_app, graph_three_records; reflexivity. Qed.

(* ================================================================= *)
(** ** The sanitizer *)

Lemma clean_nonempty (v : option jsstring) (fallback : jsstring) :
  fallback <> [] -> Homework3.clean v fallback <> [].
Proof.
  intros Hfb; unfold Homework3.clean.
  destruct (trim _) as [|c s]; simpl; [exact Hfb | discriminate].
Qed.

Lemma clean_trimmed (v : option jsstring) (fallback : jsstring) :
  trim fallback = fallback ->
  trim (Homework3.clean v fallback) = Homework3.clean v fallback.
Proof.
  intros Hfb; unfold Homework3.clean.
  destruct (0 <? length (trim _)); [apply trim_idem | exact Hfb].
Qed.

Lemma clean_fixed (s fallback : jsstring) :
  trim s = s -> s <> [] -> Homework3.clean (Some s) fallback = s.
Proof.
  intros Ht Hne; unfold Homework3.clean; rewrite Ht.
  destruct s; [congruence | reflexivity].
Qed.

(** Every cleaned row has three non-empty fields without white space at
    either end, and cleaning the cleaned rows again returns them
    unchanged. *)
Theorem cleaned_rows_sanitized (data : list AthleteRow) :
  Forall (fun r =>
            (c_country r <> [] /\ trim (c_country r) = c_country r)
            /\ (disciplineRaw r <> []
                /\ trim (disciplineRaw r) = disciplineRaw r)
            /\ (c_gender r <> [] /\ trim (c_gender r) = c_gender r))
         (Homework3.cleaned data)
  /\ Homework3.cleaned
       (map (fun r => mkRow (Some (c_country r)) (Some (disciplineRaw r))
                            (Some (c_gender r)))
            (Homework3.cleaned data))
     = Homework3.cleaned data.
Proof.
  assert (H : Forall (fun r =>
            (c_country r <> [] /\ trim (c_country r) = c_country r)
            /\ (disciplineRaw r <> []
                /\ trim (disciplineRaw r) = disciplineRaw r)
            /\ (c_gender r <> [] /\ trim (c_gender r) = c_gender r))
         (Homework3.cleaned data)).
  { apply Forall_forall; intros r Hr.
    apply In_cleaned in Hr as [d [_ ->]]; cbn [c_country disciplineRaw c_gender].
    repeat split; try (apply clean_nonempty; discriminate);
      apply clean_trimmed; reflexivity. }
  split; [exact H|].
  induction H as [|r rs [[Hc1 Hc2] [[Hd1 Hd2] [Hg1 Hg2]]] _ IH];
    [reflexivity|].
  cbn [map Homework3.cleaned country disciplines gender] in *.
  rewrite !clean_fixed by assumption.
  f_equal; [destruct r; reflexivity | exact IH].
Qed.

(* ================================================================= *)
(** ** Explosion again *)

Lemma kept_pieces_atomic (s : jsstring) :
  Forall (fun l => l <> [] /\ trim l = l /\ sep_free l = true)
         (kept_pieces s).
Proof.
  apply Forall_forall; intros l Hl; unfold kept_pieces in Hl.
  apply filter_In in Hl as [Hl Hlen].
  apply in_map_iff in Hl as [p [<- Hp]].
  split; [intros E; rewrite E in Hlen; discriminate|].
  split; [apply trim_idem|].
  apply forallb_trim.
  pose proof (split_chars_pieces sep_chars s) as Hpieces.
  induction Hpieces as [q Hq | q c s' ps Hq Hc Hrest IH].
  - destruct Hp as [<- | []]; exact Hq.
  - destruct Hp as [<- | Hp]; [exact Hq | exact (IH Hp)].
Qed.

Lemma splitDisciplines_cases (s : jsstring) :
  (kept_pieces s = [] /\ Homework3.splitDisciplines s = [s])
  \/ (kept_pieces s <> [] /\ Homework3.splitDisciplines s = kept_pieces s).
Proof.
  unfold Homework3.splitDisciplines; fold (kept_pieces s).
  destruct (kept_pieces s) as [|p ps]; [left | right]; split;
    try reflexivity; discriminate.
Qed.

(** Explosion is idempotent: every label it returns explodes to itself, so
    exploding the labels again changes nothing; it returns at least one
    label, and only non-empty labels for a non-empty string. *)
Theorem splitDisciplines_idempotent (s : jsstring) :
  Homework3.splitDisciplines s <> []
  /\ Forall (fun l => Homework3.splitDisciplines l = [l])
            (Homework3.splitDisciplines s)
  /\ flat_map Homework3.splitDisciplines (Homework3.splitDisciplines s)
     = Homework3.splitDisciplines s
  /\ (s <> [] -> Forall (fun l => l <> []) (Homework3.splitDisciplines s)).
Proof.
  assert (Hself : Forall (fun l => Homework3.splitDisciplines l = [l])
                         (Homework3.splitDisciplines s)).
  { destruct (splitDisciplines_cases s) as [[_ E] | [_ E]].
    - rewrite E; constructor; [exact E | constructor].
    - rewrite E; eapply Forall_impl; [|apply kept_pieces_atomic].
      intros l [Hne [Ht Hf]]; apply splitDisciplines_atomic; assumption. }
  split; [apply splitDisciplines_nonempty|]; split; [exact Hself|]; split.
  - induction Hself as [|l ls Hl _ IH]; [reflexivity|].
    cbn [flat_map]; rewrite Hl, IH; reflexivity.
  - intros Hne; destruct (splitDisciplines_cases s) as [[_ E] | [_ E]];
      rewrite E.
    + constructor; [exact Hne | constructor].
    + eapply Forall_impl; [|apply kept_pieces_atomic].
      intros l [H _]; exact H.
Qed.

(* ================================================================= *)
(** ** Link keys *)

(** Round trip of a link key: when neither label contains [|], the two
    pieces read from the key of a pair are the pair. *)
Theorem link_key_round_trip (a b : jsstring) :
  no_pipe a = true -> no_pipe b = true -> decode (encode (a, b)) = (a, b).
Proof.
  intros Ha Hb; unfold decode, encode; cbn [fst snd].
  rewrite split_key_safe by assumption; reflexivity.
Qed.

Lemma link_key_round_trip_witness :
  no_pipe (lit "C: USA") = true /\ no_pipe (lit "D: Swimming") = true
  /\ decode (encode (lit "C: USA", lit "D: Swimming"))
     = (lit "C: USA", lit "D: Swimming").
Proof.
  split; [reflexivity|]; split; [reflexivity|].
  exact (link_key_round_trip (lit "C: USA") (lit "D: Swimming")
           eq_refl eq_refl).
Defined.

(* ================================================================= *)
(** ** Weights and empty graphs *)

Lemma length_link_keys (rows : list ExplodedRow) :
  length (link_keys rows) = 2 * length rows.
Proof.
  unfold link_keys; induction rows as [|r rows IH]; [reflexivity|].
  cbn [flat_map app length]; rewrite IH; lia.
Qed.

(** For every input each link has a weight of at least 1 and the weights
    add up to twice the number of final rows: every final row adds one
    unit to two links. *)
Theorem graph_total_weight (data : list AthleteRow) (tc td : Z)
  (sel : option jsstring) :
  Forall (fun l => 1 <= value l) (links (Homework3.graph data tc td sel))
  /\ list_sum (map value (links (Homework3.graph data tc td sel)))
     = 2 * length (final_rows data tc td sel).
Proof.
  rewrite graph_stages; unfold graph_of_links; cbn [links].
  rewrite map_map; cbn [value]; unfold named_links.
  rewrite linksNamed_tally; split.
  - apply Forall_forall; intros l Hl.
    apply in_map_iff in Hl as [l0 [<- Hl0]].
    apply in_map_iff in Hl0 as [k [<- Hk]]; cbn [value l_value].
    apply count_In; apply -> In_new_Set; exact Hk.
  - rewrite map_map; cbn [l_value].
    rewrite <- (filter_all (fun _ => true)
                  (new_Set (link_keys (final_rows data tc td sel))))
      by reflexivity.
    rewrite sum_count_filter, filter_all by reflexivity.
    apply length_link_keys.
Qed.

Lemma final_rows_no_data (tc td : Z) (sel : option jsstring) :
  final_rows [] tc td sel = [].
Proof.
  unfold final_rows, Homework3.filteredCountries, Homework3.base.
  destruct (truthy sel); reflexivity.
Qed.

Lemma final_rows_topDisciplines_zero (data : list AthleteRow) (tc : Z)
  (sel : option jsstring) :
  final_rows data tc 0 sel = [].
Proof.
  unfold final_rows, Homework3.finalRows, Homework3.topDiscSet.
  rewrite slice0_zero; apply filter_none.
Qed.

(** The graph is empty exactly when no row reaches the link stage; this is
    the case without records and with [topDisciplines = 0], whatever the
    selection. *)
Theorem graph_empty_iff (data : list AthleteRow) (tc td : Z)
  (sel : option jsstring) :
  (Homework3.graph data tc td sel = empty_graph
   <-> final_rows data tc td sel = [])
  /\ Homework3.graph [] tc td sel = empty_graph
  /\ Homework3.graph data tc 0 sel = empty_graph.
Proof.
  assert (H : forall d c t, final_rows d c t sel = [] ->
                            Homework3.graph d c t sel = empty_graph).
  { intros d c t E; rewrite graph_stages; unfold named_links; rewrite E.
    reflexivity. }
  split; [split; [|apply H]|].
  - intros E.
    destruct (final_rows data tc td sel) as [|r rows] eqn:Hrows;
      [reflexivity|].
    assert (Hk : In (key_CD r) (new_Set (link_keys (r :: rows))))
      by (apply <- In_new_Set; left; reflexivity).
    rewrite graph_stages in E; unfold named_links in E.
    rewrite Hrows, linksNamed_tally in E.
    apply (f_equal links) in E; cbn [links graph_of_links empty_graph] in E.
    destruct (new_Set (link_keys (r :: rows))); [destruct Hk | discriminate E].
  - split; apply H;
      [apply final_rows_no_data | apply final_rows_topDisciplines_zero].
Qed.

(* ================================================================= *)
(** ** Top-N selection: what is retained *)

Lemma topCountrySet_top_keys (tc : Z) (b : list CleanedRow) :
  Homework3.topCountrySet tc b = top_keys tc (tally (map c_country b)).
Proof.
  unfold Homework3.topCountrySet, Homework3.countryCounts, top_keys.
  rewrite rollup_tally; reflexivity.
Qed.

Lemma topDiscSet_top_keys (td : Z) (ex : list ExplodedRow) :
  Homework3.topDiscSet td ex = top_keys td (tally (map discipline ex)).
Proof.
  unfold Homework3.topDiscSet, Homework3.discCounts, top_keys.
  rewrite rollup_tally; reflexivity.
Qed.

Lemma new_Set_distinct (l : list jsstring) : NoDup l -> new_Set l = l.
Proof.
  induction l as [|x l IH] using rev_ind; [reflexivity|].
  intros Hnd; apply NoDup_remove in Hnd as [Hl Hx].
  rewrite app_nil_r in Hl, Hx.
  rewrite new_Set_snoc, (IH Hl); unfold set_add.
  replace (set_has x l) with false; [reflexivity|].
  symmetry; apply set_has_not_In; exact Hx.
Qed.

Lemma NoDup_firstn {A} (k : nat) (l : list A) : NoDup l -> NoDup (firstn k l).
Proof.
  intros H; rewrite <- (firstn_skipn k l) in H.
  apply NoDup_app_remove_r in H; exact H.
Qed.

Lemma length_new_Set_le (l : list jsstring) :
  length (new_Set l) <= length l.
Proof.
  apply NoDup_incl_length; [apply NoDup_new_Set|].
  intros x Hx; apply -> In_new_Set; exact Hx.
Qed.

Lemma tally_keys (ks : list jsstring) : map fst (tally ks) = new_Set ks.
Proof. apply map_keys_tabulate. Qed.

Lemma In_tally (ks : list jsstring) (k : jsstring) (v : nat) :
  In (k, v) (tally ks) <-> In k ks /\ v = count k ks.
Proof.
  unfold tally; rewrite in_map_iff; split.
  - intros [k' [E Hk']]; injection E as -> <-.
    split; [apply -> In_new_Set; exact Hk' | reflexivity].
  - intros [Hk ->]; exists k; split; [reflexivity|].
    apply <- In_new_Set; exact Hk.
Qed.

Lemma sorted_keys_distinct (ks : list jsstring) :
  NoDup (map fst (sort_with (fun a b => descending (snd a) (snd b))
                            (tally ks))).
Proof.
  eapply Permutation_NoDup;
    [apply Permutation_map, sort_with_perm|].
  rewrite tally_keys; apply NoDup_new_Set.
Qed.

(** The retained keys are the keys of the first entries of the sorted
    counts, without repetition. *)
Lemma top_keys_firstn (n : Z) (ks : list jsstring) :
  top_keys n (tally ks)
  = map fst (slice0 n (sort_with (fun a b => descending (snd a) (snd b))
                                 (tally ks))).
Proof.
  unfold top_keys; apply new_Set_distinct.
  unfold slice0; rewrite <- firstn_map.
  apply NoDup_firstn, sorted_keys_distinct.
Qed.

Lemma length_slice0 {A} (n : Z) (l : list A) :
  (0 <= n)%Z -> length (slice0 n l) = min (Z.to_nat n) (length l).
Proof.
  intros Hn; unfold slice0.
  replace (n <? 0)%Z with false by (symmetry; apply Z.ltb_ge; lia).
  rewrite length_firstn; lia.
Qed.

Lemma slice0_all {A} (n : Z) (l : list A) :
  (Z.of_nat (length l) <= n)%Z -> slice0 n l = l.
Proof.
  intros Hn; unfold slice0.
  replace (n <? 0)%Z with false by (symmetry; apply Z.ltb_ge; lia).
  apply firstn_all2; lia.
Qed.

Lemma top_keys_incl (n : Z) (ks : list jsstring) :
  incl (top_keys n (tally ks)) ks.
Proof.
  intros k Hk; rewrite top_keys_firstn in Hk.
  apply in_map_iff in Hk as [[k' v] [<- Hkv]].
  apply slice0_incl, In_sort_with, In_tally in Hkv; tauto.
Qed.

Lemma length_top_keys (n : Z) (ks : list jsstring) :
  (0 <= n)%Z ->
  length (top_keys n (tally ks)) = min (Z.to_nat n) (length (new_Set ks)).
Proof.
  intros Hn; rewrite top_keys_firstn, length_map, length_slice0 by exact Hn.
  rewrite length_sort_with; unfold tally; rewrite length_map; reflexivity.
Qed.

Lemma top_keys_all (n : Z) (ks : list jsstring) (k : jsstring) :
  (Z.of_nat (length (new_Set ks)) <= n)%Z -> In k ks ->
  In k (top_keys n (tally ks)).
Proof.
  intros Hn Hk; rewrite top_keys_firstn, slice0_all.
  - apply in_map_iff; exists (k, count k ks); split; [reflexivity|].
    apply In_sort_with, In_tally; auto.
  - rewrite length_sort_with; unfold tally; rewrite length_map; exact Hn.
Qed.

Lemma insert_sorted_by_count (x : jsstring * nat) (l : list (jsstring * nat)) :
  StronglySorted by_count l ->
  StronglySorted by_count
    (insert_sorted (fun a b => descending (snd a) (snd b)) x l).
Proof.
  induction 1 as [|y l Hl IH Hy]; cbn [insert_sorted];
    [repeat constructor|].
  destruct (descending (snd x) (snd y) <=? 0)%Z eqn:E.
  - assert (Hxy : by_count x y).
    { apply Z.leb_le in E; unfold descending, by_count in *.
      destruct (Nat.ltb_spec (snd y) (snd x)); [lia|].
      destruct (Nat.ltb_spec (snd x) (snd y)); lia. }
    constructor; [constructor; assumption|].
    constructor; [exact Hxy|].
    eapply Forall_impl; [|exact Hy].
    unfold by_count in *; intros z Hz; lia.
  - assert (Hyx : by_count y x).
    { apply Z.leb_gt in E; unfold descending, by_count in *.
      destruct (Nat.ltb_spec (snd y) (snd x)); [lia|].
      destruct (Nat.ltb_spec (snd x) (snd y)); lia. }
    constructor; [exact IH|].
    apply Forall_forall; intros z Hz.
    apply (Permutation_in _
             (Permutation_sym (insert_sorted_perm _ x l))) in Hz.
    destruct Hz as [<- | Hz]; [exact Hyx|].
    rewrite Forall_forall in Hy; apply Hy; exact Hz.
Qed.

Lemma sort_by_count (l : list (jsstring * nat)) :
  StronglySorted by_count
    (sort_with (fun a b => descending (snd a) (snd b)) l).
Proof.
  induction l as [|x l IH]; [constructor|].
  apply insert_sorted_by_count; exact IH.
Qed.

Lemma StronglySorted_app_order {A} (R : A -> A -> Prop) (l1 l2 : list A) :
  StronglySorted R (l1 ++ l2) ->
  forall x y, In x l1 -> In y l2 -> R x y.
Proof.
  induction l1 as [|a l1 IH]; intros H x y Hx Hy; [destruct Hx|].
  inversion H as [|? ? Hs Ha]; subst.
  destruct Hx as [<- | Hx]; [|exact (IH Hs x y Hx Hy)].
  rewrite Forall_forall in Ha; apply Ha, in_or_app; right; exact Hy.
Qed.


(** A retained key occurs at least as often as any key that is left out. *)
Lemma top_keys_most_frequent (n : Z) (ks : list jsstring) (c c' : jsstring) :
  In c (top_keys n (tally ks)) -> In c' ks ->
  ~ In c' (top_keys n (tally ks)) ->
  count c' ks <= count c ks.
Proof.
  rewrite top_keys_firstn; unfold slice0.
  set (S := sort_with (fun a b => descending (snd a) (snd b)) (tally ks)).
  set (k := Z.to_nat _); intros Hc Hc' Hout.
  apply in_map_iff in Hc as [[c0 v] [E Hcv]]; cbn [fst] in E; subst c0.
  assert (Hv : v = count c ks).
  { assert (H : In (c, v) S)
      by (rewrite <- (firstn_skipn k S); apply in_or_app; left; exact Hcv).
    apply In_sort_with, In_tally in H; tauto. }
  assert (Hc'S : In (c', count c' ks) S)
    by (apply In_sort_with, In_tally; auto).
  rewrite <- (firstn_skipn k S) in Hc'S.
  apply in_app_or in Hc'S as [Hin | Hin].
  - exfalso; apply Hout; apply in_map_iff.
    exists (c', count c' ks); auto.
  - pose proof (sort_by_count (tally ks)) as Hsorted; fold S in Hsorted.
    rewrite <- (firstn_skipn k S) in Hsorted.
    pose proof (StronglySorted_app_order _ _ _ Hsorted _ _ Hcv Hin) as H.
    unfold by_count in H; cbn [snd] in H; lia.
Qed.

(* ================================================================= *)
(** ** Top-N selection in the pipeline *)

Lemma count_map {A} (f : A -> jsstring) (k : jsstring) (l : list A) :
  count k (map f l) = length (filter (fun x => str_eqb k (f x)) l).
Proof.
  unfold count; induction l as [|x l IH]; [reflexivity|].
  cbn [map filter]; destruct (str_eqb k (f x)); cbn [length]; rewrite IH;
    reflexivity.
Qed.

(** A retained country has at least as many rows as any country of the
    rows that is left out. *)
Theorem topCountrySet_most_frequent (b : list CleanedRow) (tc : Z)
  (c c' : jsstring) :
  set_has c (Homework3.topCountrySet tc b) = true ->
  In c' (map c_country b) ->
  set_has c' (Homework3.topCountrySet tc b) = false ->
  length (filter (fun r => str_eqb c' (c_country r)) b)
  <= length (filter (fun r => str_eqb c (c_country r)) b).
Proof.
  rewrite topCountrySet_top_keys, <- !count_map; intros Hc Hc' Hout.
  apply set_has_In in Hc; apply set_has_not_In in Hout.
  exact (top_keys_most_frequent tc _ c c' Hc Hc' Hout).
Qed.

Lemma topCountrySet_most_frequent_witness :
  set_has (lit "USA")
    (Homework3.topCountrySet 1 (Homework3.cleaned rows_blank)) = true
  /\ In Unknown_Country (map c_country (Homework3.cleaned rows_blank))
  /\ set_has Unknown_Country
       (Homework3.topCountrySet 1 (Homework3.cleaned rows_blank)) = false
  /\ length (filter (fun r => str_eqb Unknown_Country (c_country r))
                    (Homework3.cleaned rows_blank))
     <= length (filter (fun r => str_eqb (lit "USA") (c_country r))
                       (Homework3.cleaned rows_blank)).
Proof.
  split; [reflexivity|].
  split; [right; right; left; reflexivity|].
  split; [reflexivity|].
  refine (topCountrySet_most_frequent (Homework3.cleaned rows_blank) 1
            (lit "USA") Unknown_Country _ _ _).
  - reflexivity.
  - right; right; left; reflexivity.
  - reflexivity.
Defined.

(** With non-negative limits, the retained countries and disciplines are
    distinct values of the rows, as many as the limit allows. *)
Theorem top_sets_size (b : list CleanedRow) (ex : list ExplodedRow)
  (tc td : Z) :
  (0 <= tc)%Z -> (0 <= td)%Z ->
  (NoDup (Homework3.topCountrySet tc b)
   /\ incl (Homework3.topCountrySet tc b) (map c_country b)
   /\ length (Homework3.topCountrySet tc b)
      = min (Z.to_nat tc) (length (new_Set (map c_country b))))
  /\ (NoDup (Homework3.topDiscSet td ex)
      /\ incl (Homework3.topDiscSet td ex) (map discipline ex)
      /\ length (Homework3.topDiscSet td ex)
         = min (Z.to_nat td) (length (new_Set (map discipline ex)))).
Proof.
  intros Htc Htd; rewrite topCountrySet_top_keys, topDiscSet_top_keys.
  repeat split; try (unfold top_keys; apply NoDup_new_Set);
    try apply top_keys_incl; apply length_top_keys; assumption.
Qed.

Lemma top_sets_size_witness :
  (0 <= 1)%Z /\ (0 <= 12)%Z
  /\ length (Homework3.topCountrySet 1 (Homework3.cleaned rows_blank))
     = min (Z.to_nat 1)
           (length (new_Set (map c_country (Homework3.cleaned rows_blank)))).
Proof.
  split; [lia|]; split; [lia|].
  exact (proj2 (proj2 (proj1
           (top_sets_size (Homework3.cleaned rows_blank) [] 1 12
              ltac:(lia) ltac:(lia))))).
Defined.

(** Limits at least as large as the numbers of distinct countries and
    disciplines drop nothing: without selection every exploded row of the
    cleaned data reaches the link stage. *)
Theorem large_limits_keep_all (data : list AthleteRow) (tc td : Z) :
  (Z.of_nat (length (new_Set (map c_country (Homework3.cleaned data))))
   <= tc)%Z ->
  (Z.of_nat
     (length (new_Set (map discipline
                           (Homework3.exploded (Homework3.cleaned data)))))
   <= td)%Z ->
  final_rows data tc td None = Homework3.exploded (Homework3.cleaned data).
Proof.
  intros Htc Htd.
  assert (Hf : Homework3.filteredCountries None tc
                 (Homework3.base None (Homework3.cleaned data))
               = Homework3.cleaned data).
  { unfold Homework3.filteredCountries, Homework3.base; simpl.
    apply filter_all; intros r Hr; apply set_has_In.
    rewrite topCountrySet_top_keys; apply top_keys_all; [exact Htc|].
    apply in_map; exact Hr. }
  unfold final_rows; rewrite Hf; unfold Homework3.finalRows.
  apply filter_all; intros r Hr; apply set_has_In.
  rewrite topDiscSet_top_keys; apply top_keys_all; [exact Htd|].
  apply in_map; exact Hr.
Qed.

Lemma large_limits_keep_all_witness :
  (Z.of_nat (length (new_Set (map c_country (Homework3.cleaned rows_usa))))
   <= 12)%Z
  /\ (Z.of_nat
        (length (new_Set (map discipline
                              (Homework3.exploded
                                 (Homework3.cleaned rows_usa)))))
      <= 12)%Z
  /\ final_rows rows_usa 12 12 None
     = Homework3.exploded (Homework3.cleaned rows_usa).
Proof.
  assert (H1 : (Z.of_nat (length (new_Set (map c_country
                   (Homework3.cleaned rows_usa)))) <= 12)%Z)
    by (vm_compute; discriminate).
  assert (H2 : (Z.of_nat (length (new_Set (map discipline
                   (Homework3.exploded (Homework3.cleaned rows_usa)))))
                <= 12)%Z)
    by (vm_compute; discriminate).
  split; [exact H1|]; split; [exact H2|].
  exact (large_limits_keep_all rows_usa 12 12 H1 H2).
Defined.

(* ================================================================= *)
(** ** Size of the tiers *)

Lemma discipline_names_of_rows (rows : list ExplodedRow) (n : jsstring) :
  Forall (fun r => safe_exploded r = true) rows ->
  In n (filter (startsWith prefix_D)
          (Homework3.nodeNames
             (Homework3.linksNamed (Homework3.linksMap rows)))) ->
  exists r, In r rows /\ n = label_D r.
Proof.
  intros Hsafe; rewrite filter_In, In_nodeNames.
  intros [[l [Hl Hn]] Hp].
  destruct (named_link_labels rows l Hsafe Hl)
    as [r [Hr [[Hs [Ht _]] | [Hs [Ht _]]]]];
    destruct (label_prefixes r) as [HC [_ HG]]; exists r;
    (split; [exact Hr|]);
    destruct Hn as [-> | ->]; try (rewrite Hs in *); try (rewrite Ht in *);
    try reflexivity.
  - rewrite (prefix_C_not_D _ HC) in Hp; discriminate.
  - rewrite (prefix_G_not_D _ HG) in Hp; discriminate.
Qed.

Lemma final_rows_retained (data : list AthleteRow) (tc td : Z)
  (sel : option jsstring) (r : ExplodedRow) :
  In r (final_rows data tc td sel) ->
  In (discipline r)
     (Homework3.topDiscSet td
        (Homework3.exploded
           (Homework3.filteredCountries sel tc
              (Homework3.base sel (Homework3.cleaned data)))))
  /\ (truthy sel = false ->
      In (e_country r)
         (Homework3.topCountrySet tc (Homework3.cleaned data))).
Proof.
  unfold final_rows; intros Hr; apply In_finalRows in Hr as [Hr Hd].
  split; [apply set_has_In; exact Hd|]; intros Hsel.
  apply In_exploded in Hr as [cr [Hcr [_ [Hc _]]]].
  unfold Homework3.filteredCountries, Homework3.base in Hcr.
  rewrite Hsel in Hcr; simpl in Hcr.
  apply filter_In in Hcr as [_ Hcr]; apply set_has_In in Hcr.
  rewrite Hc; exact Hcr.
Qed.

Lemma length_top_keys_le (n : Z) (ks : list jsstring) :
  (0 <= n)%Z -> length (top_keys n (tally ks)) <= Z.to_nat n.
Proof. intros Hn; rewrite length_top_keys by exact Hn; lia. Qed.

(** When no label contains [|] and the limits are not negative, the
    discipline tier has at most [topDisciplines] nodes and, without
    selection, the country tier has at most [topCountries] nodes. *)
Theorem tiers_bounded (data : list AthleteRow) (tc td : Z)
  (sel : option jsstring) :
  safe_labels data = true -> (0 <= tc)%Z -> (0 <= td)%Z ->
  truthy sel = false ->
  length (tier prefix_C (Homework3.graph data tc td sel)) <= Z.to_nat tc
  /\ length (tier prefix_D (Homework3.graph data tc td sel)) <= Z.to_nat td.
Proof.
  intros Hsafe Htc Htd Hsel.
  pose proof (final_rows_safe data tc td sel Hsafe) as Hrows.
  rewrite graph_stages, tier_C_graph, tier_D_graph.
  unfold Homework3.countries, Homework3.disciplines_, sort, named_links.
  rewrite !length_sort_with; split.
  - assert (Hlen :
      length (filter (startsWith prefix_C)
                (Homework3.nodeNames
                   (Homework3.linksNamed
                      (Homework3.linksMap (final_rows data tc td sel)))))
      <= length (map (fun c => prefix_C ++ c)
                     (Homework3.topCountrySet tc (Homework3.cleaned data)))).
    { apply NoDup_incl_length;
        [apply NoDup_filter; unfold Homework3.nodeNames; apply NoDup_new_Set|].
      intros n Hn; apply (country_names_of_rows _ n Hrows) in Hn
        as [r [Hr ->]].
      unfold label_C; apply (in_map (fun c => prefix_C ++ c)).
      apply (final_rows_retained data tc td sel r Hr), Hsel. }
    rewrite length_map, topCountrySet_top_keys in Hlen.
    exact (Nat.le_trans _ _ _ Hlen
             (length_top_keys_le tc
                (map c_country (Homework3.cleaned data)) Htc)).
  - set (ex := Homework3.exploded
                 (Homework3.filteredCountries sel tc
                    (Homework3.base sel (Homework3.cleaned data)))).
    assert (Hlen :
      length (filter (startsWith prefix_D)
                (Homework3.nodeNames
                   (Homework3.linksNamed
                      (Homework3.linksMap (final_rows data tc td sel)))))
      <= length (map (fun d => prefix_D ++ d) (Homework3.topDiscSet td ex))).
    { apply NoDup_incl_length;
        [apply NoDup_filter; unfold Homework3.nodeNames; apply NoDup_new_Set|].
      intros n Hn; apply (discipline_names_of_rows _ n Hrows) in Hn
        as [r [Hr ->]].
      unfold label_D; apply (in_map (fun d => prefix_D ++ d)).
      apply (final_rows_retained data tc td sel r Hr). }
    rewrite length_map, topDiscSet_top_keys in Hlen.
    exact (Nat.le_trans _ _ _ Hlen
             (length_top_keys_le td (map discipline ex) Htd)).
Qed.

Lemma tiers_bounded_witness :
  safe_labels rows_usa = true /\ (0 <= 1)%Z /\ (0 <= 1)%Z
  /\ truthy None = false
  /\ length (tier prefix_C (Homework3.graph rows_usa 1 1 None)) <= Z.to_nat 1
  /\ length (tier prefix_D (Homework3.graph rows_usa 1 1 None)) <= Z.to_nat 1.
Proof.
  split; [reflexivity|]; split; [lia|]; split; [lia|]; split; [reflexivity|].
  exact (tiers_bounded rows_usa 1 1 None eq_refl ltac:(lia) ltac:(lia) eq_refl).
Defined.

(* ================================================================= *)
(** ** The bars of [CountryBarChart] *)

Lemma bar_rows_tally (data : list AthleteRow) (topN : Z) :
  CountryBarChart.rows data topN
  = slice0 topN (sort_with (fun a b => descending (snd a) (snd b))
                           (tally (bar_keys data))).
Proof.
  unfold CountryBarChart.rows, bar_keys; rewrite rollup_tally; reflexivity.
Qed.

Lemma counted_not_blank (d : AthleteRow) :
  counted d = true ->
  blank (country d) = false
  /\ trim (CountryBarChart.String_ (country d))
     = Homework3.clean (country d) Unknown_Country.
Proof.
  unfold counted, blank, Homework3.clean; intros H.
  apply andb_true_iff in H as [Ht Hlen].
  destruct (country d) as [s|]; [|discriminate].
  cbn [CountryBarChart.String_] in *; rewrite Hlen; auto.
Qed.

Lemma not_blank_counted (d : AthleteRow) :
  blank (country d) = false -> counted d = true.
Proof.
  unfold counted, blank; intros H; apply negb_false_iff in H.
  destruct (country d) as [[|c s]|]; try discriminate.
  cbn [truthy CountryBarChart.String_ andb]; exact H.
Qed.

Lemma filter_twice {A} (p q : A -> bool) (l : list A) :
  filter p (filter q l) = filter (fun x => q x && p x) l.
Proof.
  induction l as [|x l IH]; [reflexivity|].
  cbn [filter]; destruct (q x); cbn [filter andb]; rewrite IH; reflexivity.
Qed.

Lemma counted_key (d : AthleteRow) (c : jsstring) :
  c <> [] ->
  counted d && str_eqb c (trim (CountryBarChart.String_ (country d)))
  = match country d with
    | Some s => str_eqb c (trim s)
    | None => false
    end.
Proof.
  intros Hc; unfold counted.
  assert (Hnil : str_eqb c [] = false) by (apply str_eqb_neq; exact Hc).
  destruct d as [[[|x s]|] ds g];
    cbn [country truthy andb CountryBarChart.String_].
  - symmetry; exact Hnil.
  - destruct (trim (x :: s)) as [|y t]; [symmetry; exact Hnil | reflexivity].
  - reflexivity.
Qed.

Lemma count_bar_keys (data : list AthleteRow) (c : jsstring) :
  c <> [] ->
  count c (bar_keys data)
  = length (filter (fun d => match country d with
                             | Some s => str_eqb c (trim s)
                             | None => false
                             end) data).
Proof.
  intros Hc; unfold bar_keys; rewrite count_map, filter_twice; f_equal.
  apply filter_pointwise_in; intros d _; apply counted_key; exact Hc.
Qed.

Lemma bar_origin (data : list AthleteRow) (topN : Z) (c : jsstring)
  (n : nat) :
  In (c, n) (CountryBarChart.rows data topN) ->
  n = count c (bar_keys data)
  /\ exists d, In d data /\ blank (country d) = false
               /\ Homework3.clean (country d) Unknown_Country = c.
Proof.
  rewrite bar_rows_tally; intros H.
  apply slice0_incl, In_sort_with, In_tally in H as [Hc Hn].
  split; [exact Hn|].
  unfold bar_keys in Hc; apply in_map_iff in Hc as [d [Hkey Hd]].
  apply filter_In in Hd as [Hd Hcounted].
  destruct (counted_not_blank d Hcounted) as [Hb Hclean].
  exists d; repeat split; try assumption; congruence.
Qed.

(** Every bar carries a country that is not empty, has no white space at
    either end and is the sanitized country of some record; its count is
    the number of records whose trimmed country is that country, at least
    one. *)
Theorem bar_of_records (data : list AthleteRow) (topN : Z) (c : jsstring)
  (n : nat) :
  In (c, n) (CountryBarChart.rows data topN) ->
  c <> [] /\ trim c = c /\ 1 <= n
  /\ n = length (filter (fun d => match country d with
                                  | Some s => str_eqb c (trim s)
                                  | None => false
                                  end) data)
  /\ exists d, In d data /\ blank (country d) = false
               /\ Homework3.clean (country d) Unknown_Country = c.
Proof.
  intros H; destruct (bar_origin data topN c n H) as [Hn [d [Hd [Hb Hc]]]].
  assert (Hne : c <> [])
    by (rewrite <- Hc; apply clean_nonempty; discriminate).
  split; [exact Hne|]; split.
  { rewrite <- Hc; apply clean_trimmed; reflexivity. }
  split.
  { rewrite Hn; apply count_In.
    rewrite bar_rows_tally in H.
    apply slice0_incl, In_sort_with, In_tally in H; tauto. }
  split; [rewrite Hn; apply count_bar_keys; exact Hne|].
  exists d; auto.
Qed.

Lemma bar_of_records_witness :
  In (lit "USA", 2) (CountryBarChart.rows rows_blank 15)
  /\ 2 = length (filter (fun d => match country d with
                                  | Some s => str_eqb (lit "USA") (trim s)
                                  | None => false
                                  end) rows_blank).
Proof.
  assert (H : In (lit "USA", 2) (CountryBarChart.rows rows_blank 15))
    by (left; reflexivity).
  split; [exact H|].
  exact (proj1 (proj2 (proj2 (proj2
           (bar_of_records rows_blank 15 (lit "USA") 2 H))))).
Defined.



(** When no record has a missing or blank country, the bars of the chart
    carry, in the same order, the countries that the Sankey retains for
    the same limit. *)
Theorem bars_match_topCountrySet (data : list AthleteRow) (N : Z) :
  forallb (fun d => negb (blank (country d))) data = true ->
  map fst (CountryBarChart.rows data N)
  = Homework3.topCountrySet N (Homework3.cleaned data).
Proof.
  intros Hall; rewrite forallb_forall in Hall.
  assert (Hkeys : bar_keys data = map c_country (Homework3.cleaned data)).
  { unfold bar_keys, Homework3.cleaned; rewrite map_map; cbn [c_country].
    rewrite filter_all.
    - apply map_ext_in; intros d Hd.
      apply counted_not_blank, not_blank_counted, negb_true_iff, Hall, Hd.
    - intros d Hd; apply not_blank_counted, negb_true_iff, Hall, Hd. }
  rewrite bar_rows_tally, topCountrySet_top_keys, top_keys_firstn, Hkeys.
  reflexivity.
Qed.

Lemma bars_match_topCountrySet_witness :
  forallb (fun d => negb (blank (country d))) rows_usa = true
  /\ map fst (CountryBarChart.rows rows_usa 1)
     = Homework3.topCountrySet 1 (Homework3.cleaned rows_usa).
Proof.
  split; [reflexivity|].
  exact (bars_match_topCountrySet rows_usa 1 eq_refl).
Defined.

(** A click on a bar either clears the selection or selects the country
    of the bar, which is then a selection in force (not empty) that leaves
    at least one row to the Sankey. *)
Theorem bar_click_selects_rows (data : list AthleteRow) (topN : Z)
  (c : jsstring) (n : nat) (selectedCountry : option jsstring) :
  In (c, n) (CountryBarChart.rows data topN) ->
  CountryBarChart.onClick selectedCountry c = None
  \/ (CountryBarChart.onClick selectedCountry c = Some c
      /\ truthy (Some c) = true
      /\ Homework3.base (Some c) (Homework3.cleaned data) <> []).
Proof.
  intros H; destruct (bar_origin data topN c n H) as [_ [d [Hd [_ Hc]]]].
  assert (Hne : c <> [])
    by (rewrite <- Hc; apply clean_nonempty; discriminate).
  assert (Ht : truthy (Some c) = true)
    by (clear -Hne; destruct c; [exfalso; apply Hne; reflexivity | reflexivity]).
  unfold CountryBarChart.onClick.
  destruct selectedCountry as [sel|]; [destruct (str_eqb sel c)|];
    [left; reflexivity | right | right];
    (split; [reflexivity|]; split; [exact Ht|]);
    unfold Homework3.base; rewrite Ht; intros E;
    assert (Hin : In (mkCleaned
                        (Homework3.clean (country d) Unknown_Country)
                        (Homework3.clean (disciplines d) Unknown_Discipline)
                        (Homework3.clean (gender d) Unknown))
                     (filter (fun r => str_eqb (c_country r) c)
                             (Homework3.cleaned data)))
      by (apply filter_In; split;
          [apply In_cleaned; exists d; auto
          | cbn [c_country]; rewrite Hc; apply str_eqb_refl]);
    rewrite E in Hin; destruct Hin.
Qed.

Lemma bar_click_selects_rows_witness :
  In (lit "USA", 2) (CountryBarChart.rows rows_blank 15)
  /\ (CountryBarChart.onClick None (lit "USA") = None
      \/ (CountryBarChart.onClick None (lit "USA") = Some (lit "USA")
          /\ truthy (Some (lit "USA")) = true
          /\ Homework3.base (Some (lit "USA")) (Homework3.cleaned rows_blank)
             <> [])).
Proof.
  assert (H : In (lit "USA", 2) (CountryBarChart.rows rows_blank 15))
    by (left; reflexivity).
  split; [exact H|].
  exact (bar_click_selects_rows rows_blank 15 (lit "USA") 2 None H).
Defined.

(** A click clears the selection exactly when the bar clicked is the
    selected one, and two clicks on the same bar restore the selection
    exactly when it was empty or that bar: from another selected country
    they end with no selection. *)
Theorem onClick_twice (selectedCountry : option jsstring) (c : jsstring) :
  (CountryBarChart.onClick selectedCountry c = None
   <-> selectedCountry = Some c)
  /\ (CountryBarChart.onClick (CountryBarChart.onClick selectedCountry c) c
      = selectedCountry
      <-> selectedCountry = None \/ selectedCountry = Some c)
  /\ (selectedCountry <> Some c ->
      CountryBarChart.onClick (CountryBarChart.onClick selectedCountry c) c
      = None).
Proof.
  unfold CountryBarChart.onClick.
  destruct selectedCountry as [sel|].
  - destruct (str_eqb sel c) eqn:E.
    + apply str_eqb_eq in E; subst sel; repeat split; auto; congruence.
    + pose proof E as Hne; apply str_eqb_neq in Hne.
      rewrite str_eqb_refl; repeat split; try congruence.
      intros [H | H]; congruence.
  - rewrite str_eqb_refl; repeat split; auto; congruence.
Qed.

(* ================================================================= *)
(** ** Ties in the top-N selection *)

Lemma fold_set_add_extends (post : list jsstring) (s : JSSet) :
  exists extra, fold_left (fun s x => set_add x s) post s = s ++ extra.
Proof.
  revert s; induction post as [|x post IH]; intros s; cbn [fold_left].
  - exists []; symmetry; apply app_nil_r.
  - destruct (IH (set_add x s)) as [extra ->]; unfold set_add.
    destruct (set_has x s); [exists extra; reflexivity|].
    exists (x :: extra); rewrite <- app_assoc; reflexivity.
Qed.

Lemma first_before_new_Set (c' c : jsstring) (ks : list jsstring) :
  first_before c' c ks ->
  exists l1 l2, new_Set ks = l1 ++ c' :: l2 /\ ~ In c l1.
Proof.
  intros [pre [post [-> Hc]]].
  assert (Hpre : ~ In c (new_Set pre))
    by (intros H; apply Hc; apply -> In_new_Set; exact H).
  unfold new_Set; rewrite fold_left_app; cbn [fold_left].
  fold (new_Set pre).
  destruct (fold_set_add_extends post (set_add c' (new_Set pre)))
    as [extra ->].
  unfold set_add; destruct (set_has c' (new_Set pre)) eqn:E.
  - apply set_has_In, in_split in E as [l1 [l2 E]].
    exists l1, (l2 ++ extra); rewrite E, <- app_assoc; split; [reflexivity|].
    intros H; apply Hpre; rewrite E; apply in_or_app; left; exact H.
  - exists (new_Set pre), extra; rewrite <- app_assoc; auto.
Qed.

Lemma app_eq_split {A} (X Y L R : list A) (e : A) :
  X ++ Y = L ++ e :: R -> In e X \/ exists L', L = X ++ L'.
Proof.
  revert L; induction X as [|a X IH]; intros L H.
  - right; exists L; reflexivity.
  - destruct L as [|a' L]; cbn [app] in H; injection H as -> H.
    + left; left; reflexivity.
    + destruct (IH L H) as [Hin | [L' ->]];
        [left; right; exact Hin | right; exists L'; reflexivity].
Qed.

(** Among keys of equal count the one met first is retained first. *)
Lemma top_keys_ties (n : Z) (ks : list jsstring) (c c' : jsstring) :
  In c (top_keys n (tally ks)) ->
  first_before c' c ks ->
  count c' ks = count c ks ->
  In c' (top_keys n (tally ks)).
Proof.
  rewrite top_keys_firstn; unfold slice0.
  set (S := sort_with (fun a b => descending (snd a) (snd b)) (tally ks)).
  set (k := Z.to_nat _); intros Hc Hfirst Hcount.
  destruct (first_before_new_Set c' c ks Hfirst) as [l1 [l2 [Hset Hl1]]].
  set (v := count c ks) in *.
  set (P := fun kv : jsstring * nat => snd kv =? v).
  assert (HcF : In (c, v) (filter P (firstn k S))).
  { apply in_map_iff in Hc as [[c0 v0] [E Hcv]]; cbn [fst] in E; subst c0.
    assert (H : In (c, v0) S)
      by (rewrite <- (firstn_skipn k S); apply in_or_app; left; exact Hcv).
    apply In_sort_with, In_tally in H as [_ ->].
    apply filter_In; split; [exact Hcv|]; apply Nat.eqb_refl. }
  pose proof (sort_descending_stable (tally ks) v) as Hstable.
  fold S in Hstable; fold P in Hstable.
  rewrite <- (firstn_skipn k S), filter_app in Hstable.
  unfold tally in Hstable at 1; rewrite Hset, map_app, filter_app in Hstable.
  cbn [map filter] in Hstable.
  replace (P (c', count c' ks)) with true in Hstable
    by (unfold P; cbn [snd]; rewrite Hcount; symmetry; apply Nat.eqb_refl).
  destruct (app_eq_split _ _ _ _ _ Hstable) as [Hin | [L' HL]].
  - apply filter_In in Hin as [Hin _].
    apply in_map_iff; exists (c', count c' ks); auto.
  - exfalso; apply Hl1.
    assert (H : In (c, v) (filter P (map (fun k0 => (k0, count k0 ks)) l1)))
      by (rewrite HL; apply in_or_app; left; exact HcF).
    apply filter_In in H as [H _].
    apply in_map_iff in H as [k0 [E Hk0]]; injection E as -> _; exact Hk0.
Qed.

(** Ties go to the country met first: when a country is retained, every
    country with the same number of rows whose first row comes before
    the rows of that country is retained as well. *)
Theorem topCountrySet_ties_first_seen (b : list CleanedRow) (tc : Z)
  (c c' : jsstring) :
  set_has c (Homework3.topCountrySet tc b) = true ->
  first_before c' c (map c_country b) ->
  length (filter (fun r => str_eqb c' (c_country r)) b)
  = length (filter (fun r => str_eqb c (c_country r)) b) ->
  set_has c' (Homework3.topCountrySet tc b) = true.
Proof.
  rewrite topCountrySet_top_keys, <- !count_map; intros Hc Hfirst Hcount.
  apply set_has_In; apply set_has_In in Hc.
  exact (top_keys_ties tc _ c c' Hc Hfirst Hcount).
Qed.

Lemma topCountrySet_ties_first_seen_witness :
  set_has (lit "USA")
    (Homework3.topCountrySet 2
       (Homework3.cleaned [row "FRA" "Judo" "Female";
                           row "USA" "Swimming" "Male";
                           row "GER" "Judo" "Male"])) = true
  /\ set_has (lit "FRA")
       (Homework3.topCountrySet 2
          (Homework3.cleaned [row "FRA" "Judo" "Female";
                              row "USA" "Swimming" "Male";
                              row "GER" "Judo" "Male"])) = true.
Proof.
  split; [reflexivity|].
  refine (topCountrySet_ties_first_seen
            (Homework3.cleaned [row "FRA" "Judo" "Female";
                                row "USA" "Swimming" "Male";
                                row "GER" "Judo" "Male"])
            2 (lit "USA") (lit "FRA") _ _ _).
  - reflexivity.
  - exists [], [lit "USA"; lit "GER"]; split; [reflexivity | intros []].
  - reflexivity.
Defined.

(* ================================================================= *)
(** ** Drawing the nodes *)

(** Every node of the graph belongs to one tier: its name is the prefix of
    the tier followed by a text, [layer] gives it the legend entry of that
    tier, and both the label and the tooltip show the text without the
    prefix. *)
Theorem node_display (data : list AthleteRow) (tc td : Z)
  (sel : option jsstring) (n : SankeyNode) :
  In n (nodes (Homework3.graph data tc td sel)) ->
  exists x,
    ((name n = prefix_C ++ x /\ Homework3.layer (name n) = lit "Country")
     \/ (name n = prefix_D ++ x
         /\ Homework3.layer (name n) = lit "Discipline")
     \/ (name n = prefix_G ++ x /\ Homework3.layer (name n) = lit "Gender"))
    /\ Homework3.label_text (name n) = x
    /\ Homework3.tooltip_text (name n) = x.
Proof.
  intros Hn; apply (in_map name) in Hn.
  rewrite graph_stages, graph_node_names in Hn.
  apply In_ordered in Hn as [_ [H | [H | H]]];
    pose proof H as Hp; apply startsWith_inv in H as [x Hx]; exists x;
    rewrite Hx in *; unfold Homework3.layer.
  - rewrite Hp; split; [left; split; reflexivity|]; split; reflexivity.
  - rewrite (prefix_D_not_C _ Hp), Hp.
    split; [right; left; split; reflexivity|]; split; reflexivity.
  - rewrite (prefix_G_not_C _ Hp), (prefix_G_not_D _ Hp).
    split; [right; right; split; reflexivity|]; split; reflexivity.
Qed.

Lemma node_display_witness :
  In (mkNode (lit "D: Swimming")) (nodes (Homework3.graph rows_usa 1 2 None))
  /\ exists x,
       ((name (mkNode (lit "D: Swimming")) = prefix_C ++ x
         /\ Homework3.layer (name (mkNode (lit "D: Swimming")))
            = lit "Country")
        \/ (name (mkNode (lit "D: Swimming")) = prefix_D ++ x
            /\ Homework3.layer (name (mkNode (lit "D: Swimming")))
               = lit "Discipline")
        \/ (name (mkNode (lit "D: Swimming")) = prefix_G ++ x
            /\ Homework3.layer (name (mkNode (lit "D: Swimming")))
               = lit "Gender"))
       /\ Homework3.label_text (name (mkNode (lit "D: Swimming"))) = x
       /\ Homework3.tooltip_text (name (mkNode (lit "D: Swimming"))) = x.
Proof.
  assert (H : In (mkNode (lit "D: Swimming"))
                 (nodes (Homework3.graph rows_usa 1 2 None)))
    by (vm_compute; right; right; left; reflexivity).
  split; [exact H|].
  exact (node_display rows_usa 1 2 None (mkNode (lit "D: Swimming")) H).
Defined.

(* ================================================================= *)
(** ** The disciplines shown by the scatter plot *)

Lemma quoted_from_items (s : jsstring) (open : option jsstring) :
  match open with
  | Some acc => without HeightWeightScatter.quote acc = true
  | None => True
  end ->
  Forall (fun it => it <> [] /\ without HeightWeightScatter.quote it = true)
         (HeightWeightScatter.quoted_from open s).
Proof.
  revert open; induction s as [|c s IH]; intros open Hopen;
    [constructor|].
  cbn [HeightWeightScatter.quoted_from].
  destruct open as [acc|].
  - destruct (c =? HeightWeightScatter.quote)%N eqn:E.
    + destruct acc as [|a acc]; [apply IH; reflexivity|].
      constructor; [|apply IH; exact I].
      split; [|unfold without; rewrite forallb_rev; exact Hopen].
      intros H; apply (f_equal (@length _)) in H.
      rewrite length_rev in H; discriminate.
    + apply IH; unfold without in *; cbn [forallb]; rewrite E; exact Hopen.
  - destruct (c =? HeightWeightScatter.quote)%N; apply IH; [reflexivity|exact I].
Qed.

Lemma without_join (c0 : char) (sep : jsstring) (parts : list jsstring) :
  without c0 sep = true ->
  Forall (fun p => without c0 p = true) parts ->
  without c0 (join sep parts) = true.
Proof.
  intros Hsep Hparts; induction Hparts as [|p ps Hp Hps IH]; [reflexivity|].
  destruct ps as [|q ps]; [exact Hp|].
  change (join sep (p :: q :: ps)) with (p ++ sep ++ join sep (q :: ps)).
  unfold without in *; rewrite !forallb_app.
  apply andb_true_iff; split; [exact Hp|].
  apply andb_true_iff; split; [exact Hsep | exact IH].
Qed.

Lemma without_filter (c0 : char) (s : jsstring) :
  without c0 (filter (fun c => negb (c =? c0)%N) s) = true.
Proof.
  unfold without; induction s as [|c s IH]; [reflexivity|].
  cbn [filter]; destruct (negb (c =? c0)%N) eqn:E; [|exact IH].
  cbn [forallb]; rewrite E; exact IH.
Qed.

(** [strip_brackets] takes away the opening bracket at the start and the
    closing bracket at the end, and nothing else. *)
Lemma unbracketed_strip (s body : jsstring) :
  unbracketed s body -> HeightWeightScatter.strip_brackets s = body.
Proof.
  unfold HeightWeightScatter.strip_brackets.
  intros [x | x Hx | x Hx | x Hf Hl].
  - rewrite N.eqb_refl, rev_app_distr; cbn [rev app].
    rewrite N.eqb_refl; apply rev_involutive.
  - rewrite N.eqb_refl; unfold last_is in Hx.
    destruct (rev x) as [|c r]; [reflexivity|].
    cbn [first_is] in Hx; rewrite Hx; reflexivity.
  - assert (E : match x ++ [93%N] with
                | c :: s' => if (c =? 91)%N then s' else x ++ [93%N]
                | [] => []
                end = x ++ [93%N]).
    { destruct x as [|c x]; [reflexivity|].
      cbn [app first_is] in *; rewrite Hx; reflexivity. }
    rewrite E, rev_app_distr; cbn [rev app].
    rewrite N.eqb_refl; apply rev_involutive.
  - assert (E : match x with
                | c :: s' => if (c =? 91)%N then s' else x
                | [] => []
                end = x).
    { destruct x as [|c x]; [reflexivity|].
      cbn [first_is] in Hf; rewrite Hf; reflexivity. }
    rewrite E; unfold last_is in Hl.
    destruct (rev x) as [|c r]; [reflexivity|].
    cbn [first_is] in Hl; rewrite Hl; reflexivity.
Qed.

Lemma ends_with (s r : jsstring) (c : char) :
  rev s = c :: r -> s = rev r ++ [c].
Proof.
  intros H; rewrite <- (rev_involutive s), H; reflexivity.
Qed.

Lemma unbracketed_exists (s : jsstring) : exists body, unbracketed s body.
Proof.
  destruct (first_is 91%N s) eqn:Hf.
  - destruct s as [|c y]; [discriminate|].
    cbn [first_is] in Hf; apply N.eqb_eq in Hf; subst c.
    destruct (last_is 93%N y) eqn:Hl.
    + unfold last_is in Hl; destruct (rev y) as [|c r] eqn:E; [discriminate|].
      cbn [first_is] in Hl; apply N.eqb_eq in Hl; subst c.
      rewrite (ends_with y r _ E); eexists; apply unbracketed_both.
    + eexists; apply unbracketed_open; exact Hl.
  - destruct (last_is 93%N s) eqn:Hl.
    + unfold last_is in Hl; destruct (rev s) as [|c r] eqn:E; [discriminate|].
      cbn [first_is] in Hl; apply N.eqb_eq in Hl; subst c.
      rewrite (ends_with s r _ E) in *.
      exists (rev r); apply unbracketed_close.
      destruct (rev r) as [|c x]; [reflexivity | exact Hf].
    + exists s; apply unbracketed_none; assumption.
Qed.

(** The discipline text has one of three shapes: [Unknown] for a missing
    or blank field; the quoted items, each non-empty before trimming,
    joined by a comma and a space, a text without single quote; or, when
    nothing is quoted, the trimmed field without the opening bracket at its
    start, the closing bracket at its end and its double quotes, trimmed
    again: a text without double quote and without white space at either
    end. *)
Theorem parseDisciplinesField_shapes (v : option jsstring) :
  (blank v = true /\ HeightWeightScatter.parseDisciplinesField v = Unknown)
  \/ (blank v = false
      /\ HeightWeightScatter.quoted_items
           (trim (match v with Some x => x | None => [] end)) <> []
      /\ Forall (fun it => it <> []
                           /\ without HeightWeightScatter.quote it = true)
                (HeightWeightScatter.quoted_items
                   (trim (match v with Some x => x | None => [] end)))
      /\ HeightWeightScatter.parseDisciplinesField v
         = join (lit ", ")
             (map trim
                (HeightWeightScatter.quoted_items
                   (trim (match v with Some x => x | None => [] end))))
      /\ without HeightWeightScatter.quote
           (HeightWeightScatter.parseDisciplinesField v) = true)
  \/ (blank v = false
      /\ HeightWeightScatter.quoted_items
           (trim (match v with Some x => x | None => [] end)) = []
      /\ (exists body,
            unbracketed (trim (match v with Some x => x | None => [] end))
                        body)
      /\ (forall body,
            unbracketed (trim (match v with Some x => x | None => [] end))
                        body ->
            HeightWeightScatter.parseDisciplinesField v
            = trim (filter (fun c => negb (c =? 34)%N) body))
      /\ without 34%N (HeightWeightScatter.parseDisciplinesField v) = true
      /\ trim (HeightWeightScatter.parseDisciplinesField v)
         = HeightWeightScatter.parseDisciplinesField v).
Proof.
  unfold HeightWeightScatter.parseDisciplinesField, blank.
  set (s := trim (match v with Some x => x | None => [] end)).
  destruct (0 <? length s) eqn:Hlen; cbn [negb]; [|left; auto].
  right.
  pose proof (quoted_from_items s None I) as Hitems.
  fold (HeightWeightScatter.quoted_items s) in Hitems.
  destruct (HeightWeightScatter.quoted_items s) as [|it items] eqn:Hq.
  - right; cbn [map length Nat.ltb Nat.leb].
    split; [reflexivity|]; split; [reflexivity|].
    split; [apply unbracketed_exists|].
    split; [intros body Hbody; rewrite (unbracketed_strip s body Hbody);
            reflexivity|].
    split; [|apply trim_idem].
    apply forallb_trim, without_filter.
  - left; change (0 <? length (map trim (it :: items))) with true; cbv iota.
    repeat split; [discriminate | exact Hitems|].
    apply without_join; [reflexivity|].
    apply Forall_forall; intros p Hp.
    apply in_map_iff in Hp as [q [<- Hq']].
    rewrite Forall_forall in Hitems.
    apply forallb_trim, (Hitems q Hq').
Qed.

(* ================================================================= *)
(** ** The numbers of the dashboard *)

Lemma length_filter_Boolean (values : list (option jsstring)) :
  length (App.filter_Boolean values) <= length values.
Proof.
  unfold App.filter_Boolean; induction values as [|v vs IH]; [apply le_n|].
  cbn [flat_map]; rewrite length_app.
  destruct v as [[|c s]|]; cbn [truthy length]; lia.
Qed.

Lemma In_filter_Boolean (values : list (option jsstring)) (s : jsstring) :
  In (Some s) values -> s <> [] -> In s (App.filter_Boolean values).
Proof.
  intros Hin Hne; unfold App.filter_Boolean; apply in_flat_map.
  exists (Some s); split; [exact Hin|].
  destruct s; [exfalso; apply Hne; reflexivity | left; reflexivity].
Qed.

Lemma length_slice0_le {A} (n : Z) (l : list A) :
  length (slice0 n l) <= length l.
Proof. unfold slice0; rewrite length_firstn; lia. Qed.

(** The dashboard counts all the records; its numbers of countries and of
    disciplines are at most the number of records, and the bar chart never
    has more bars than the dashboard has countries. *)
Theorem stats_bounds (rows : list AthleteRow) (topN : Z) :
  App.n (App.stats rows) = length rows
  /\ App.countries (App.stats rows) <= length rows
  /\ App.disciplines (App.stats rows) <= length rows
  /\ length (CountryBarChart.rows rows topN) <= App.countries (App.stats rows).
Proof.
  unfold App.stats; cbn [App.n App.countries App.disciplines].
  split; [reflexivity|]; split; [|split].
  - eapply Nat.le_trans; [apply length_new_Set_le|].
    eapply Nat.le_trans; [apply length_filter_Boolean|].
    unfold App.country_values; rewrite length_map; apply le_n.
  - eapply Nat.le_trans; [apply length_new_Set_le|].
    eapply Nat.le_trans; [apply length_filter_Boolean|].
    unfold App.disciplines_values; rewrite length_map; apply le_n.
  - rewrite bar_rows_tally.
    eapply Nat.le_trans; [apply length_slice0_le|].
    rewrite length_sort_with; unfold tally; rewrite length_map.
    rewrite <- (length_map trim
                  (new_Set (App.filter_Boolean (App.country_values rows)))).
    apply NoDup_incl_length; [apply NoDup_new_Set|].
    intros k Hk; apply -> In_new_Set in Hk.
    unfold bar_keys in Hk; apply in_map_iff in Hk as [d [<- Hd]].
    apply filter_In in Hd as [Hd Hcounted].
    unfold counted in Hcounted; apply andb_true_iff in Hcounted as [Ht _].
    destruct (country d) as [s|] eqn:E; [|discriminate].
    cbn [CountryBarChart.String_]; apply in_map; apply <- In_new_Set.
    apply In_filter_Boolean.
    + unfold App.country_values; rewrite <- E; apply in_map; exact Hd.
    + intros ->; discriminate.
Qed.

(* ================================================================= *)
(** ** White space around a field *)

Lemma trimStart_app_ws (a s : jsstring) :
  forallb is_ws a = true -> trimStart (a ++ s) = trimStart s.
Proof.
  induction a as [|c a IH]; [reflexivity|]; cbn [forallb app trimStart].
  intros H; apply andb_true_iff in H as [Hc Ha]; rewrite Hc; exact (IH Ha).
Qed.

Lemma trimStart_of_ws (s : jsstring) :
  forallb is_ws s = true -> trimStart s = [].
Proof.
  intros H; rewrite <- (app_nil_r s); exact (trimStart_app_ws s [] H).
Qed.

Lemma trimStart_ws (s : jsstring) :
  trimStart s = [] -> forallb is_ws s = true.
Proof.
  induction s as [|c s IH]; [reflexivity|]; cbn [trimStart forallb].
  destruct (is_ws c); [exact IH | discriminate].
Qed.

Lemma trimStart_app_rest (s b : jsstring) :
  trimStart s <> [] -> trimStart (s ++ b) = trimStart s ++ b.
Proof.
  induction s as [|c s IH]; [intros H; exfalso; apply H; reflexivity|].
  cbn [trimStart app]; destruct (is_ws c); [exact IH | reflexivity].
Qed.

Lemma trim_app_ws_r (s b : jsstring) :
  forallb is_ws b = true -> trim (s ++ b) = trim s.
Proof.
  intros Hb; unfold trim.
  destruct (trimStart s) as [|c t] eqn:E.
  - rewrite (trimStart_of_ws (s ++ b)); [reflexivity|].
    rewrite forallb_app, (trimStart_ws s E), Hb; reflexivity.
  - rewrite trimStart_app_rest by (rewrite E; discriminate).
    rewrite E; unfold trimEnd; rewrite rev_app_distr.
    rewrite trimStart_app_ws; [reflexivity|].
    rewrite forallb_rev; exact Hb.
Qed.

Lemma trim_app_ws_l (a s : jsstring) :
  forallb is_ws a = true -> trim (a ++ s) = trim s.
Proof. intros Ha; unfold trim; rewrite trimStart_app_ws by exact Ha; reflexivity. Qed.

(** White space around a field is ignored by the sanitizer, and a field
    made of white space only is sanitized like a missing one. *)
Theorem clean_ignores_padding (a s b fallback : jsstring) :
  forallb is_ws a = true -> forallb is_ws b = true ->
  Homework3.clean (Some (a ++ s ++ b)) fallback
  = Homework3.clean (Some s) fallback
  /\ Homework3.clean (Some a) fallback = Homework3.clean None fallback.
Proof.
  intros Ha Hb; unfold Homework3.clean.
  rewrite trim_app_ws_l, trim_app_ws_r by assumption.
  split; [reflexivity|].
  unfold trim; rewrite trimStart_of_ws by exact Ha; reflexivity.
Qed.

Lemma clean_ignores_padding_witness :
  forallb is_ws (lit "  ") = true /\ forallb is_ws (lit " ") = true
  /\ Homework3.clean (Some (lit "  " ++ lit "USA" ++ lit " ")) Unknown_Country
     = Homework3.clean (Some (lit "USA")) Unknown_Country.
Proof.
  split; [reflexivity|]; split; [reflexivity|].
  exact (proj1 (clean_ignores_padding (lit "  ") (lit "USA") (lit " ")
                  Unknown_Country eq_refl eq_refl)).
Defined.

(* ================================================================= *)
(** ** Endpoints are never undefined *)

(** For every input, each key of [linksMap] splits into at least two
    pieces, so that the source and the target of every named link are
    strings; the source of the link of a key is the first piece and its
    target the second. *)
Theorem named_links_defined (data : list AthleteRow) (tc td : Z)
  (sel : option jsstring) :
  Forall (fun kv => 2 <= length (split key_sep (fst kv)))
         (Homework3.linksMap (final_rows data tc td sel))
  /\ Forall2 (fun kv l =>
                nth_error (split key_sep (fst kv)) 0 = Some (l_source l)
                /\ nth_error (split key_sep (fst kv)) 1 = Some (l_target l)
                /\ l_value l = snd kv)
             (Homework3.linksMap (final_rows data tc td sel))
             (named_links data tc td sel).
Proof.
  assert (H : Forall (fun kv => 2 <= length (split key_sep (fst kv)))
                     (Homework3.linksMap (final_rows data tc td sel))).
  { apply Forall_forall; intros kv Hkv.
    apply linksMap_keys_two_pieces with (rows := final_rows data tc td sel).
    apply in_map; exact Hkv. }
  split; [exact H|].
  unfold named_links, Homework3.linksNamed.
  apply Forall2_map_right; intros kv Hkv; cbn [l_source l_target l_value].
  rewrite Forall_forall in H; specialize (H kv Hkv).
  destruct (split key_sep (fst kv)) as [|p [|q ps]]; simpl in H; try lia.
  repeat split.
Qed.

(* ================================================================= *)
(** ** The country tier of a selected country *)

(** *** Keys whose first separator is the one that [addLink] wrote *)

Lemma startsWith_app_long (p x z : jsstring) :
  length p <= length x -> startsWith p (x ++ z) = startsWith p x.
Proof.
  revert x; induction p as [|a p IH]; intros [|b x] H;
    cbn [startsWith app length] in *; try reflexivity; [lia|].
  rewrite IH by lia; reflexivity.
Qed.

Lemma split_key_source_off (a b : jsstring) :
  splits_off a = true ->
  split key_sep (a ++ key_sep ++ b) = a :: split key_sep b.
Proof.
  unfold splits_off; induction a as [|c a IH];
    [intros _; apply split_key_sep_skip|].
  intros H; apply negb_true_iff in H.
  change ((c :: a) ++ [124; 124]%N) with (c :: (a ++ [124; 124]%N)) in H.
  cbn [has_sep] in H; apply orb_false_iff in H as [Hs Ha].
  change ((c :: a) ++ key_sep ++ b) with (c :: (a ++ key_sep ++ b)).
  assert (Hs' : startsWith key_sep (c :: a ++ key_sep ++ b) = false).
  { replace (c :: a ++ key_sep ++ b)
      with ((c :: (a ++ [124; 124]%N)) ++ 124%N :: b)
      by (cbn [app]; rewrite <- app_assoc; reflexivity).
    rewrite startsWith_app_long; [exact Hs|].
    cbn [length]; rewrite length_app; cbn [length key_sep]; lia. }
  destruct (split_cons_other key_sep c _ Hs') as [w [ws [E ->]]].
  rewrite IH in E by (apply negb_true_iff; exact Ha).
  injection E as <- <-; reflexivity.
Qed.

Lemma has_sep_cons_other (c : char) (s : jsstring) :
  (c =? 124)%N = false -> has_sep (c :: s) = has_sep s.
Proof.
  intros H; cbn [has_sep]; rewrite (startsWith_key_sep_other c s H).
  reflexivity.
Qed.

Lemma splits_off_label (p a : jsstring) :
  no_pipe p = true -> splits_off (p ++ a) = splits_off a.
Proof.
  unfold splits_off; induction p as [|c p IH]; intros H; [reflexivity|].
  simpl in H; apply andb_true_iff in H as [Hc Hp]; apply negb_true_iff in Hc.
  change (((c :: p) ++ a) ++ [124; 124]%N)
    with (c :: ((p ++ a) ++ [124; 124]%N)).
  rewrite has_sep_cons_other by exact Hc; apply IH; exact Hp.
Qed.

(** A label without [|] is a label after which the key splits. *)
Lemma no_pipe_splits_off (a : jsstring) :
  no_pipe a = true -> splits_off a = true.
Proof.
  intros H; rewrite <- (app_nil_r a), (splits_off_label a [] H).
  reflexivity.
Qed.

(** The first piece of a string starts with what the string starts with up
    to its first [|]. *)
Lemma split_first_piece (p g : jsstring) :
  no_pipe p = true ->
  exists w ws, split key_sep (p ++ g) = (p ++ w) :: ws.
Proof.
  induction p as [|c p IH]; intros H.
  - cbn [app].
    destruct (split key_sep g) as [|w ws] eqn:E;
      [exfalso; exact (split_from_nonempty _ _ _ E)|].
    exists w, ws; reflexivity.
  - simpl in H; apply andb_true_iff in H as [Hc Hp].
    apply negb_true_iff in Hc.
    change ((c :: p) ++ g) with (c :: (p ++ g)).
    destruct (split_cons_other key_sep c (p ++ g)
                (startsWith_key_sep_other c _ Hc)) as [w [ws [E ->]]].
    destruct (IH Hp) as [w' [ws' E']]; rewrite E' in E; injection E as <- <-.
    exists w', ws'; reflexivity.
Qed.

(** The piece read after [skip] characters starts with the character that
    stands there. *)
Lemma first_piece_char (c : char) (k : nat) (s : jsstring) :
  first_is c (nth 0 (split_from key_sep k s) []) = true ->
  first_is c (skipn k s) = true.
Proof.
  revert k; induction s as [|x s IH]; intros k.
  - destruct k; cbn [split_from nth first_is]; discriminate.
  - destruct k as [|k]; [|cbn [split_from skipn]; apply IH].
    change (split_from key_sep 0 (x :: s))
      with (if startsWith key_sep (x :: s)
            then [] :: split_from key_sep (length key_sep - 1) s
            else match split_from key_sep 0 s with
                 | w :: ws => (x :: w) :: ws
                 | [] => [[x]]
                 end).
    destruct (startsWith key_sep (x :: s));
      [cbn [nth first_is]; discriminate|].
    destruct (split_from key_sep 0 s); cbn [nth first_is skipn]; auto.
Qed.

Lemma prefix_C_first (p : jsstring) :
  first_is 67%N p = false -> startsWith prefix_C p = false.
Proof.
  destruct p as [|x p]; [reflexivity|].
  cbn [first_is]; intros H.
  change (startsWith prefix_C (x :: p))
    with ((67 =? x)%N && startsWith [58; 32]%N p).
  rewrite N.eqb_sym, H; reflexivity.
Qed.

(** The second piece of a key does not start with [C] when the label in
    front of the separator has no [C] and the label behind does not start
    with one. *)
Lemma key_target_first (a h : jsstring) :
  without 67%N a = true -> first_is 67%N h = false ->
  first_is 67%N (nth 1 (split key_sep (a ++ key_sep ++ h)) []) = false.
Proof.
  intros Ha Hh; induction a as [|c a IH].
  - change ([] ++ key_sep ++ h) with (key_sep ++ h).
    rewrite split_key_sep_skip; cbn [nth].
    destruct (first_is 67%N (nth 0 (split key_sep h) [])) eqn:E;
      [|reflexivity].
    apply (first_piece_char 67%N 0 h) in E; cbn [skipn] in E; congruence.
  - unfold without in Ha; cbn [forallb] in Ha.
    apply andb_true_iff in Ha as [Hc Ha].
    change ((c :: a) ++ key_sep ++ h) with (c :: (a ++ key_sep ++ h)).
    unfold split.
    change (split_from key_sep 0 (c :: (a ++ key_sep ++ h)))
      with (if startsWith key_sep (c :: (a ++ key_sep ++ h))
            then [] :: split_from key_sep (length key_sep - 1)
                         (a ++ key_sep ++ h)
            else match split_from key_sep 0 (a ++ key_sep ++ h) with
                 | w :: ws => (c :: w) :: ws
                 | [] => [[c]]
                 end).
    destruct (startsWith key_sep (c :: (a ++ key_sep ++ h))).
    + cbn [nth].
      destruct (first_is 67%N
                  (nth 0 (split_from key_sep (length key_sep - 1)
                            (a ++ key_sep ++ h)) [])) eqn:E; [|reflexivity].
      apply first_piece_char in E.
      destruct a as [|a1 [|a2 [|a3 a]]]; try discriminate E.
      cbn [forallb] in Ha.
      apply andb_true_iff in Ha as [_ Ha]; apply andb_true_iff in Ha as [_ Ha].
      apply andb_true_iff in Ha as [Ha _].
      change (first_is 67%N (skipn (length key_sep - 1)
                               ((a1 :: a2 :: a3 :: a) ++ key_sep ++ h)))
        with (a3 =? 67)%N in E.
      rewrite E in Ha; discriminate Ha.
    + specialize (IH Ha); unfold split in IH.
      destruct (split_from key_sep 0 (a ++ key_sep ++ h)) as [|w ws];
        [reflexivity | exact IH].
Qed.

(** *** Disciplines never carry a [C] behind a [|] *)

Lemma trimStart_nil (q : jsstring) :
  trimStart q = [] -> forallb is_ws q = true.
Proof.
  induction q as [|c q IH]; [reflexivity|].
  cbn [trimStart forallb]; destruct (is_ws c); [exact IH | discriminate].
Qed.

Lemma trimStart_head (q : jsstring) (c : char) (r : jsstring) :
  trimStart q = c :: r -> is_ws c = false.
Proof.
  induction q as [|x q IH]; [discriminate|].
  cbn [trimStart]; destruct (is_ws x) eqn:E; [exact IH|].
  intros [= <- _]; exact E.
Qed.

Lemma trim_nil_ws (p : jsstring) : trim p = [] -> forallb is_ws p = true.
Proof.
  unfold trim, trimEnd; intros H.
  apply (f_equal (@rev char)) in H; rewrite rev_involutive in H.
  cbn [rev] in H; apply trimStart_nil in H; rewrite forallb_rev in H.
  destruct (trimStart p) as [|c r] eqn:E; [apply trimStart_nil; exact E|].
  cbn [forallb] in H; rewrite (trimStart_head p c r E) in H; discriminate H.
Qed.

Lemma pieces_chars (sepc Q : char -> bool) (s : jsstring)
  (ps : list jsstring) :
  pieces_of sepc s ps ->
  (forall p, In p ps -> forallb Q p = true) ->
  forallb (fun c => Q c || sepc c) s = true.
Proof.
  assert (Hpiece : forall p, forallb Q p = true ->
                             forallb (fun c => Q c || sepc c) p = true).
  { intros p Hp; rewrite forallb_forall in *; intros c Hc.
    rewrite (Hp c Hc); reflexivity. }
  induction 1 as [p Hp | p c s ps Hp Hc Hrest IH]; intros Hall.
  - apply Hpiece, Hall; left; reflexivity.
  - rewrite forallb_app; cbn [forallb].
    rewrite (Hpiece p (Hall p (or_introl eq_refl))), Hc, orb_true_r.
    apply IH; intros q Hq; apply Hall; right; exact Hq.
Qed.

(** A discipline is a piece without separator, or the whole field when the
    field is made of separators and white space. *)
Lemma splitDisciplines_token (s t : jsstring) :
  In t (Homework3.splitDisciplines s) ->
  no_pipe t = true \/ without 67%N t = true.
Proof.
  destruct (splitDisciplines_cases s) as [[Hk ->] | [Hk ->]].
  - intros [<- | []]; right.
    assert (Hws : forall p, In p (split_chars sep_chars s) ->
                            forallb is_ws p = true).
    { intros p Hp; apply trim_nil_ws.
      destruct (trim p) as [|c r] eqn:E; [reflexivity|].
      assert (Hin : In (trim p) (kept_pieces s)).
      { unfold kept_pieces; apply filter_In; split;
          [apply in_map; exact Hp | rewrite E; reflexivity]. }
      rewrite Hk in Hin; destruct Hin. }
    pose proof (pieces_chars sep_chars is_ws s _
                  (split_chars_pieces sep_chars s) Hws) as Hchars.
    unfold without; rewrite forallb_forall in *; intros c Hc.
    specialize (Hchars c Hc).
    destruct (N.eqb_spec c 67) as [-> | _]; [discriminate Hchars|].
    reflexivity.
  - intros Ht; left.
    pose proof (kept_pieces_atomic s) as Hall; rewrite Forall_forall in Hall.
    destruct (Hall t Ht) as [_ [_ Hfree]].
    unfold sep_free in Hfree; unfold no_pipe.
    rewrite forallb_forall in *; intros c Hc; specialize (Hfree c Hc).
    destruct (N.eqb_spec c 124) as [-> | _]; [discriminate Hfree|].
    reflexivity.
Qed.

Lemma final_rows_disciplines (data : list AthleteRow) (tc td : Z)
  (sel : option jsstring) (r : ExplodedRow) :
  In r (final_rows data tc td sel) ->
  no_pipe (discipline r) = true \/ without 67%N (discipline r) = true.
Proof.
  intros Hr; destruct (final_rows_origin _ _ _ _ _ Hr) as [d [_ [_ [Hd _]]]].
  exact (splitDisciplines_token _ _ Hd).
Qed.

(** *** The names of the country tier *)

(** When the keys split after the countries, a named link goes from a
    country label to a name that starts with [D: ], or from a name that
    starts with [D: ] to a name that does not start with [C: ], whatever
    the genders are. *)
Lemma named_link_sides (rows : list ExplodedRow) (l : NamedLink) :
  (forall r, In r rows -> splits_off (e_country r) = true) ->
  (forall r, In r rows ->
     no_pipe (discipline r) = true \/ without 67%N (discipline r) = true) ->
  In l (Homework3.linksNamed (Homework3.linksMap rows)) ->
  exists r, In r rows /\
    ((l_source l = label_C r
      /\ startsWith prefix_D (l_target l) = true)
     \/ (startsWith prefix_D (l_source l) = true
         /\ startsWith prefix_C (l_target l) = false)).
Proof.
  intros Hoff Hdisc Hl.
  rewrite linksNamed_tally in Hl.
  apply in_map_iff in Hl as [k [<- Hk]].
  apply -> In_new_Set in Hk; apply In_link_keys in Hk as [r [Hr Hk]].
  exists r; split; [exact Hr|].
  cbn [l_source l_target l_value]; destruct Hk as [-> | ->].
  - left; unfold decode, key_CD; rewrite split_key_source_off
      by (unfold label_C; rewrite splits_off_label by reflexivity;
          exact (Hoff r Hr)).
    unfold label_D.
    destruct (split_first_piece prefix_D (discipline r) eq_refl)
      as [w [ws ->]].
    split; [reflexivity|].
    change (nth 1 (label_C r :: (prefix_D ++ w) :: ws) [])
      with (prefix_D ++ w).
    apply startsWith_app.
  - right; split.
    + unfold decode, key_DG, label_D; rewrite <- app_assoc.
      destruct (split_first_piece prefix_D
                  (discipline r ++ key_sep ++ label_G r) eq_refl)
        as [w [ws ->]].
      apply startsWith_app.
    + destruct (Hdisc r Hr) as [Hd | Hd].
      * unfold decode, key_DG; rewrite split_key_source
          by (unfold label_D; rewrite no_pipe_app, Hd; reflexivity).
        unfold label_G.
        destruct (split_first_piece prefix_G (e_gender r) eq_refl)
          as [w [ws ->]].
        change (nth 1 (label_D r :: (prefix_G ++ w) :: ws) [])
          with (prefix_G ++ w).
        apply prefix_G_not_C, startsWith_app.
      * apply prefix_C_first; unfold decode, key_DG.
        apply key_target_first; [|reflexivity].
        unfold label_D, without; rewrite forallb_app.
        apply andb_true_iff; split; [reflexivity | exact Hd].
Qed.

Lemma final_row_country_link (rows : list ExplodedRow) (r : ExplodedRow) :
  In r rows -> splits_off (e_country r) = true ->
  exists l, In l (Homework3.linksNamed (Homework3.linksMap rows))
            /\ l_source l = label_C r.
Proof.
  intros Hr Hc.
  assert (Hk : In (key_CD r) (link_keys rows))
    by (apply In_link_keys; exists r; auto).
  exists (mkNamed (fst (decode (key_CD r))) (snd (decode (key_CD r)))
                  (count (key_CD r) (link_keys rows))).
  split.
  - rewrite linksNamed_tally.
    apply (in_map (fun k => mkNamed (fst (decode k)) (snd (decode k))
                                    (count k (link_keys rows)))).
    apply <- In_new_Set; exact Hk.
  - cbn [l_source]; unfold decode, key_CD.
    rewrite split_key_source_off; [reflexivity|].
    unfold label_C; rewrite splits_off_label by reflexivity; exact Hc.
Qed.

Lemma country_tier_of_rows (rows : list ExplodedRow) (n : jsstring) :
  (forall r, In r rows -> splits_off (e_country r) = true) ->
  (forall r, In r rows ->
     no_pipe (discipline r) = true \/ without 67%N (discipline r) = true) ->
  In n (filter (startsWith prefix_C)
          (Homework3.nodeNames
             (Homework3.linksNamed (Homework3.linksMap rows)))) <->
  exists r, In r rows /\ n = label_C r.
Proof.
  intros Hoff Hdisc; rewrite filter_In, In_nodeNames; split.
  - intros [[l [Hl Hn]] Hp].
    destruct (named_link_sides rows l Hoff Hdisc Hl)
      as [r [Hr [[Hs Ht] | [Hs Ht]]]]; exists r; (split; [exact Hr|]);
      destruct Hn as [-> | ->].
    + exact Hs.
    + rewrite (prefix_D_not_C _ Ht) in Hp; discriminate.
    + rewrite (prefix_D_not_C _ Hs) in Hp; discriminate.
    + rewrite Ht in Hp; discriminate.
  - intros [r [Hr ->]].
    destruct (final_row_country_link rows r Hr (Hoff r Hr)) as [l [Hl Hs]].
    split; [exists l; auto | apply label_prefixes].
Qed.

Lemma graph_of_no_rows (data : list AthleteRow) (tc td : Z)
  (sel : option jsstring) :
  final_rows data tc td sel = [] ->
  Homework3.graph data tc td sel = empty_graph.
Proof.
  intros H; rewrite graph_stages; unfold named_links; rewrite H; reflexivity.
Qed.

Lemma no_element {A} (l : list A) : (forall x, ~ In x l) -> l = [].
Proof.
  destruct l as [|x l]; [reflexivity|].
  intros H; exfalso; apply (H x); left; reflexivity.
Qed.

(** C3 (amended): with a selected country [F] (a non-empty string) the
    rows that reach the link stage are the cleaned rows whose country is
    exactly [F], exploded and cut by the top-N discipline selection
    computed on them, and [topCountries] has no effect on the graph.  The
    graph is empty when no record has country [F] and when
    [topDisciplines] is zero.  When some record has country [F],
    [topDisciplines >= 1] and [F] neither contains [|||] nor ends with
    [|], the country tier of the graph is the single node [C: F],
    whatever the disciplines, the genders and the other records are. *)
Theorem selected_country_graph (data : list AthleteRow) (tc td : Z)
  (F : jsstring) :
  truthy (Some F) = true ->
  final_rows data tc td (Some F)
  = Homework3.finalRows td
      (Homework3.exploded
         (filter (fun cr => str_eqb (c_country cr) F) (Homework3.cleaned data)))
  /\ (forall r, In r (final_rows data tc td (Some F)) -> e_country r = F)
  /\ (forall tc',
        Homework3.graph data tc' td (Some F)
        = Homework3.graph data tc td (Some F))
  /\ ((forall d, In d data ->
                 Homework3.clean (country d) Unknown_Country <> F) ->
      Homework3.graph data tc td (Some F) = empty_graph)
  /\ (td = 0%Z -> Homework3.graph data tc td (Some F) = empty_graph)
  /\ (splits_off F = true ->
      (exists d, In d data
                 /\ Homework3.clean (country d) Unknown_Country = F) ->
      (1 <= td)%Z ->
      tier prefix_C (Homework3.graph data tc td (Some F)) = [prefix_C ++ F]).
Proof.
  intros HF.
  pose proof (final_rows_selected_country data tc td F) as Hcountry.
  split; [apply final_rows_selected; exact HF|].
  split; [intros r Hr; exact (Hcountry r HF Hr)|].
  split; [intros tc'; apply graph_selected_any_topCountries; exact HF|].
  split; [|split].
  - intros Hnone; apply graph_of_no_rows, no_element; intros r Hr.
    destruct (final_rows_origin _ _ _ _ _ Hr) as [d [Hd [Hc _]]].
    apply (Hnone d Hd); rewrite <- Hc; exact (Hcountry r HF Hr).
  - intros ->; apply graph_of_no_rows, final_rows_topDisciplines_zero.
  - intros Hoff [d [Hd Hc]] Htd.
    rewrite graph_stages, tier_C_graph; unfold Homework3.countries, named_links.
    assert (Hrows : forall r, In r (final_rows data tc td (Some F)) ->
                              splits_off (e_country r) = true).
    { intros r Hr; rewrite (Hcountry r HF Hr); exact Hoff. }
    pose proof (final_rows_disciplines data tc td (Some F)) as Hdisc.
    pose proof (final_rows_selected_nonempty data tc td F d HF Hd Hc Htd)
      as Hne.
    assert (Hall : forall r, In r (final_rows data tc td (Some F)) ->
                             label_C r = prefix_C ++ F).
    { intros r Hr; unfold label_C; rewrite (Hcountry r HF Hr); reflexivity. }
    rewrite (singleton_list (prefix_C ++ F)
               (filter (startsWith prefix_C)
                  (Homework3.nodeNames
                     (Homework3.linksNamed
                        (Homework3.linksMap
                           (final_rows data tc td (Some F))))))).
    + reflexivity.
    + apply NoDup_filter; unfold Homework3.nodeNames; apply NoDup_new_Set.
    + intros n Hn; apply (country_tier_of_rows _ n Hrows Hdisc) in Hn
        as [r [Hr ->]]; apply Hall; exact Hr.
    + apply (country_tier_of_rows _ _ Hrows Hdisc).
      destruct (final_rows data tc td (Some F)) as [|r rows] eqn:E;
        [congruence|].
      exists r; split; [left; reflexivity|].
      symmetry; apply Hall; left; reflexivity.
Qed.

Lemma selected_country_graph_witness :
  truthy (Some (lit "USA")) = true
  /\ tier prefix_C (Homework3.graph rows_focus 0 1 (Some (lit "USA")))
     = [prefix_C ++ lit "USA"].
Proof.
  split; [reflexivity|].
  refine (proj2 (proj2 (proj2 (proj2 (proj2
    (selected_country_graph rows_focus 0 1 (lit "USA") eq_refl)))))
    eq_refl _ _).
  - exists (row "USA" "|" "a|||b"); split;
      [left; reflexivity | reflexivity].
  - lia.
Defined.

(** The condition on [F] cannot be dropped: behind a country that ends
    with [|] the key splits one character early, and the node is not
    [C: F]. *)
Example selected_country_trailing_pipe :
  splits_off (lit "A|") = false
  /\ splits_off (lit "A|B") = true
  /\ tier prefix_C (Homework3.graph [row "A|" "X" "M"] 0 5 (Some (lit "A|")))
     = [lit "C: A"]
  /\ tier prefix_C (Homework3.graph [row "A|B" "X" "M"] 0 5 (Some (lit "A|B")))
     = [lit "C: A|B"].
Proof. repeat split; vm_compute; reflexivity. Qed.

(** C3 as stated fails when no record has the selected country: the
    country tier is then empty. *)
Lemma selected_country_absent :
  truthy (Some (lit "FRA")) = true
  /\ Homework3.graph rows_blank 12 12 (Some (lit "FRA")) = empty_graph
  /\ tier prefix_C (Homework3.graph rows_blank 12 12 (Some (lit "FRA"))) = []
  /\ tier prefix_C (Homework3.graph rows_blank 12 12 (Some (lit "FRA")))
     <> [prefix_C ++ lit "FRA"].
Proof.
  split; [reflexivity|]; split; [vm_compute; reflexivity|].
  split; [vm_compute; reflexivity | vm_compute; discriminate].
Qed.

(* ================================================================= *)
(** ** Sorting on any engine, and the toggle of the selection *)

(** *** The two comparators are orders *)

Lemma count_order_refl (a : jsstring * nat) : (count_order a a <= 0)%Z.
Proof.
  unfold count_order, descending; rewrite Nat.ltb_irrefl; lia.
Qed.

Lemma count_order_total (a b : jsstring * nat) :
  (0 < count_order a b)%Z -> (count_order b a <= 0)%Z.
Proof.
  unfold count_order, descending.
  destruct (Nat.ltb_spec (snd b) (snd a)), (Nat.ltb_spec (snd a) (snd b));
    lia.
Qed.

Lemma count_order_trans (a b c : jsstring * nat) :
  (count_order a b <= 0)%Z -> (count_order b c <= 0)%Z ->
  (count_order a c <= 0)%Z.
Proof.
  unfold count_order, descending.
  destruct (Nat.ltb_spec (snd b) (snd a)), (Nat.ltb_spec (snd a) (snd b)),
    (Nat.ltb_spec (snd c) (snd b)), (Nat.ltb_spec (snd b) (snd c)),
    (Nat.ltb_spec (snd c) (snd a)), (Nat.ltb_spec (snd a) (snd c)); lia.
Qed.

Lemma str_ltb_irrefl (a : jsstring) : str_ltb a a = false.
Proof.
  induction a as [|x a IH]; [reflexivity|].
  cbn [str_ltb]; rewrite N.ltb_irrefl; exact IH.
Qed.

Lemma str_ltb_trans (a b c : jsstring) :
  str_ltb a b = true -> str_ltb b c = true -> str_ltb a c = true.
Proof.
  revert b c; induction a as [|x a IH]; intros [|y b] [|z c];
    cbn [str_ltb]; try discriminate; try reflexivity.
  destruct (N.ltb_spec x y), (N.ltb_spec y x), (N.ltb_spec y z),
    (N.ltb_spec z y), (N.ltb_spec x z), (N.ltb_spec z x);
    try lia; try discriminate; try reflexivity.
  apply IH.
Qed.

Lemma str_ltb_trichotomy (a b : jsstring) :
  str_ltb a b = false -> str_ltb b a = false -> a = b.
Proof.
  revert b; induction a as [|x a IH]; intros [|y b];
    cbn [str_ltb]; try discriminate; try reflexivity.
  destruct (N.ltb_spec x y), (N.ltb_spec y x); try discriminate; try lia.
  intros H1 H2; f_equal; [lia | apply IH; assumption].
Qed.

Lemma str_ltb_asym (a b : jsstring) :
  str_ltb a b = true -> str_ltb b a = false.
Proof.
  intros H; destruct (str_ltb b a) eqn:E; [|reflexivity].
  pose proof (str_ltb_trans a b a H E) as Haa.
  rewrite str_ltb_irrefl in Haa; discriminate.
Qed.

Lemma default_compare_le (a b : jsstring) :
  (default_compare a b <= 0)%Z <-> str_ltb b a = false.
Proof.
  unfold default_compare.
  destruct (str_ltb a b) eqn:E1.
  - rewrite (str_ltb_asym a b E1); split; [reflexivity | lia].
  - destruct (str_ltb b a); split; try lia; try reflexivity; discriminate.
Qed.

Lemma default_compare_refl (a : jsstring) : (default_compare a a <= 0)%Z.
Proof. apply default_compare_le, str_ltb_irrefl. Qed.

Lemma default_compare_trans (a b c : jsstring) :
  (default_compare a b <= 0)%Z -> (default_compare b c <= 0)%Z ->
  (default_compare a c <= 0)%Z.
Proof.
  rewrite !default_compare_le; intros Hba Hcb.
  destruct (str_ltb c a) eqn:Hca; [|reflexivity].
  destruct (str_ltb a b) eqn:Hab.
  - rewrite (str_ltb_trans c a b Hca Hab) in Hcb; discriminate.
  - rewrite (str_ltb_trichotomy a b Hab Hba) in Hca.
    rewrite Hca in Hcb; discriminate.
Qed.

(** *** The contract of [sort] has one result *)

Section StableSort.

Context {A : Type} (cmp : A -> A -> Z).

Hypothesis cmp_refl : forall a, (cmp a a <= 0)%Z.
Hypothesis cmp_total : forall a b, (0 < cmp a b)%Z -> (cmp b a <= 0)%Z.
Hypothesis cmp_trans :
  forall a b c, (cmp a b <= 0)%Z -> (cmp b c <= 0)%Z -> (cmp a c <= 0)%Z.

Lemma tied_refl (a : A) : tied cmp a a = true.
Proof.
  unfold tied; apply andb_true_iff; split; apply Z.leb_le, cmp_refl.
Qed.

Lemma tied_apart (z x y : A) :
  (0 < cmp x y)%Z -> tied cmp z x = true -> tied cmp z y = true -> False.
Proof.
  unfold tied; intros Hxy Hx Hy.
  apply andb_true_iff in Hx as [_ Hxz]; apply andb_true_iff in Hy as [Hzy _].
  apply Z.leb_le in Hxz, Hzy.
  pose proof (cmp_trans _ _ _ Hxz Hzy); lia.
Qed.

(** Two sorted arrays with the same elements, in which the tied elements
    come in the same order, are the same array. *)
Lemma sorted_stable_unique (s s' : list A) :
  StronglySorted (comes_first cmp) s ->
  StronglySorted (comes_first cmp) s' ->
  Permutation s s' ->
  (forall z, filter (tied cmp z) s = filter (tied cmp z) s') ->
  s = s'.
Proof.
  intros Hs; revert s'.
  induction Hs as [|x s Hs IH Hx]; intros s' Hs' Hp Hf.
  - apply Permutation_nil in Hp; symmetry; exact Hp.
  - destruct s' as [|y s'];
      [apply Permutation_sym, Permutation_nil in Hp; discriminate|].
    inversion Hs' as [|? ? Hs'' Hy]; subst.
    assert (Hxy : comes_first cmp x y).
    { assert (H : In y (x :: s))
        by (apply (Permutation_in _ (Permutation_sym Hp)); left; reflexivity).
      destruct H as [<- | H]; [apply cmp_refl|].
      rewrite Forall_forall in Hx; apply Hx; exact H. }
    assert (Hyx : comes_first cmp y x).
    { assert (H : In x (y :: s'))
        by (apply (Permutation_in _ Hp); left; reflexivity).
      destruct H as [<- | H]; [apply cmp_refl|].
      rewrite Forall_forall in Hy; apply Hy; exact H. }
    assert (E : x = y).
    { pose proof (Hf x) as Hfx; cbn [filter] in Hfx.
      rewrite tied_refl in Hfx.
      assert (T : tied cmp x y = true)
        by (unfold tied; apply andb_true_iff; split; apply Z.leb_le;
            assumption).
      rewrite T in Hfx; injection Hfx as E _; exact E. }
    subst y; f_equal; apply IH;
      [exact Hs'' | exact (Permutation_cons_inv Hp) |].
    intros z; specialize (Hf z); cbn [filter] in Hf.
    destruct (tied cmp z x); [injection Hf as E; exact E | exact Hf].
Qed.

Lemma sorts_unique (l s s' : list A) :
  sorts cmp l s -> sorts cmp l s' -> s = s'.
Proof.
  intros [Hp [Hs Hf]] [Hp' [Hs' Hf']].
  apply sorted_stable_unique; [exact Hs | exact Hs' | |].
  - exact (Permutation_trans (Permutation_sym Hp) Hp').
  - intros z; rewrite Hf, Hf'; reflexivity.
Qed.

(** Insertion from the right meets the contract. *)
Lemma insert_sorted_strongly (x : A) (l : list A) :
  StronglySorted (comes_first cmp) l ->
  StronglySorted (comes_first cmp) (insert_sorted cmp x l).
Proof.
  induction 1 as [|y l Hl IH Hy]; cbn [insert_sorted];
    [repeat constructor|].
  destruct (cmp x y <=? 0)%Z eqn:E.
  - apply Z.leb_le in E.
    constructor; [constructor; assumption|].
    constructor; [exact E|].
    eapply Forall_impl; [|exact Hy].
    intros z Hz; exact (cmp_trans _ _ _ E Hz).
  - apply Z.leb_gt in E.
    constructor; [exact IH|].
    apply Forall_forall; intros z Hz.
    apply (Permutation_in _
             (Permutation_sym (insert_sorted_perm _ x l))) in Hz.
    destruct Hz as [<- | Hz]; [apply cmp_total; exact E|].
    rewrite Forall_forall in Hy; apply Hy; exact Hz.
Qed.

Lemma insert_sorted_tied (z x : A) (l : list A) :
  filter (tied cmp z) (insert_sorted cmp x l)
  = filter (tied cmp z) (x :: l).
Proof.
  induction l as [|y l IH]; [reflexivity|].
  cbn [insert_sorted].
  destruct (cmp x y <=? 0)%Z eqn:E; [reflexivity|].
  apply Z.leb_gt in E.
  cbn [filter] in *; rewrite IH.
  destruct (tied cmp z x) eqn:Tx, (tied cmp z y) eqn:Ty; try reflexivity.
  exfalso; exact (tied_apart z x y E Tx Ty).
Qed.

Lemma sort_with_sorts (l : list A) : sorts cmp l (sort_with cmp l).
Proof.
  split; [apply sort_with_perm|]; split.
  - induction l as [|x l IH]; [constructor|].
    apply insert_sorted_strongly; exact IH.
  - intros z; induction l as [|x l IH]; [reflexivity|].
    cbn [sort_with fold_right]; rewrite insert_sorted_tied.
    cbn [filter]; fold (sort_with cmp l); rewrite IH; reflexivity.
Qed.

(** So does insertion from the left. *)
Lemma insert_behind_perm (x : A) (l : list A) :
  Permutation (l ++ [x]) (insert_behind cmp x l).
Proof.
  induction l as [|y l IH]; cbn [insert_behind app];
    [apply Permutation_refl|].
  destruct (cmp y x <=? 0)%Z; [apply perm_skip, IH|].
  apply Permutation_sym.
  exact (Permutation_cons_append (y :: l) x).
Qed.

Lemma insert_behind_strongly (x : A) (l : list A) :
  StronglySorted (comes_first cmp) l ->
  StronglySorted (comes_first cmp) (insert_behind cmp x l).
Proof.
  induction 1 as [|y l Hl IH Hy]; cbn [insert_behind];
    [repeat constructor|].
  destruct (cmp y x <=? 0)%Z eqn:E.
  - apply Z.leb_le in E.
    constructor; [exact IH|].
    apply Forall_forall; intros z Hz.
    apply (Permutation_in _
             (Permutation_sym (insert_behind_perm x l))) in Hz.
    apply in_app_or in Hz as [Hz | [<- | []]]; [|exact E].
    rewrite Forall_forall in Hy; apply Hy; exact Hz.
  - apply Z.leb_gt in E.
    assert (Hxy : comes_first cmp x y) by (apply cmp_total; exact E).
    constructor; [constructor; assumption|].
    constructor; [exact Hxy|].
    eapply Forall_impl; [|exact Hy].
    intros z Hz; exact (cmp_trans _ _ _ Hxy Hz).
Qed.

Lemma insert_behind_tied (z x : A) (l : list A) :
  StronglySorted (comes_first cmp) l ->
  filter (tied cmp z) (insert_behind cmp x l)
  = filter (tied cmp z) (l ++ [x]).
Proof.
  induction 1 as [|y l Hl IH Hy]; [reflexivity|].
  cbn [insert_behind].
  destruct (cmp y x <=? 0)%Z eqn:E.
  - cbn [app filter]; rewrite IH; reflexivity.
  - apply Z.leb_gt in E.
    change (x :: y :: l) with ([x] ++ y :: l); rewrite !filter_app.
    cbn [filter].
    destruct (tied cmp z x) eqn:Tx; [|rewrite app_nil_r; reflexivity].
    assert (Hnone : filter (tied cmp z) (y :: l) = []).
    { apply no_element; intros w Hw; apply filter_In in Hw as [Hw Tw].
      assert (Hyw : (cmp y w <= 0)%Z).
      { destruct Hw as [<- | Hw]; [apply cmp_refl|].
        rewrite Forall_forall in Hy; apply Hy; exact Hw. }
      unfold tied in Tx, Tw.
      apply andb_true_iff in Tx as [Hzx _].
      apply andb_true_iff in Tw as [_ Hwz].
      apply Z.leb_le in Hzx, Hwz.
      pose proof (cmp_trans _ _ _ Hyw (cmp_trans _ _ _ Hwz Hzx)); lia. }
    cbn [filter] in Hnone; rewrite Hnone; reflexivity.
Qed.

Lemma fold_insert_behind (l acc : list A) :
  StronglySorted (comes_first cmp) acc ->
  sorts cmp (acc ++ l) (fold_left (fun s x => insert_behind cmp x s) l acc).
Proof.
  revert acc; induction l as [|x l IH]; intros acc Hacc.
  - cbn [fold_left]; rewrite app_nil_r.
    split; [apply Permutation_refl|]; split; [exact Hacc | reflexivity].
  - cbn [fold_left].
    destruct (IH _ (insert_behind_strongly x acc Hacc)) as [Hp [Hs Hf]].
    assert (E : acc ++ x :: l = (acc ++ [x]) ++ l)
      by (rewrite <- app_assoc; reflexivity).
    split; [|split; [exact Hs|]].
    + rewrite E; eapply Permutation_trans; [|exact Hp].
      apply Permutation_app_tail, insert_behind_perm.
    + intros z; rewrite Hf, E, !filter_app, insert_behind_tied by exact Hacc.
      rewrite filter_app; reflexivity.
Qed.

Lemma sort_behind_sorts (l : list A) : sorts cmp l (sort_behind cmp l).
Proof. apply (fold_insert_behind l []); constructor. Qed.

End StableSort.

(** *** Engines *)

Lemma conforms_insertion_engine : conforms insertion_engine.
Proof.
  split; intros l.
  - apply sort_with_sorts;
      first [apply count_order_refl | apply count_order_total
            | apply count_order_trans].
  - apply sort_with_sorts;
      first [apply default_compare_refl | apply default_compare_total
            | apply default_compare_trans].
Qed.

Lemma conforms_append_engine : conforms append_engine.
Proof.
  split; intros l.
  - apply sort_behind_sorts;
      first [apply count_order_refl | apply count_order_total
            | apply count_order_trans].
  - apply sort_behind_sorts;
      first [apply default_compare_refl | apply default_compare_total
            | apply default_compare_trans].
Qed.

Lemma conforms_sort_entries (e : Engine) (l : list (jsstring * nat)) :
  conforms e ->
  sort_entries e l = sort_with (fun a b => descending (snd a) (snd b)) l.
Proof.
  intros [He _].
  apply (sorts_unique count_order count_order_refl l); [apply He|].
  apply (proj1 conforms_insertion_engine l).
Qed.

Lemma conforms_sort_strings (e : Engine) (l : list jsstring) :
  conforms e -> sort_strings e l = sort l.
Proof.
  intros [_ He].
  apply (sorts_unique default_compare default_compare_refl l); [apply He|].
  apply (proj2 conforms_insertion_engine l).
Qed.

(** On an engine that meets the contract the computation returns the
    graph of [Homework3.graph]. *)
Lemma graph_on_engine (e : Engine) (data : list AthleteRow) (tc td : Z)
  (sel : option jsstring) :
  conforms e ->
  OnEngine.graph e data tc td sel = Homework3.graph data tc td sel.
Proof.
  intros He.
  unfold OnEngine.graph, OnEngine.ordered, OnEngine.countries,
    OnEngine.disciplines_, OnEngine.genders, OnEngine.finalRows,
    OnEngine.topDiscSet, OnEngine.filteredCountries, OnEngine.topCountrySet.
  rewrite !(conforms_sort_strings e) by exact He.
  rewrite !(conforms_sort_entries e) by exact He.
  reflexivity.
Qed.

(** C8: from the unselected dashboard, a click on a bar selects its
    country and a second click on the same bar clears the selection and
    shows the graph shown before the first click, node for node and link
    for link, whatever [sort] algorithm each of the computations runs on,
    provided it meets the contract of [sort]; the computation in between
    may run on any engine.  On equal inputs two computations return the
    same graph, the one of [Homework3.graph]. *)
Theorem toggle_twice_same_graph (data : list AthleteRow)
  (topCountries topDisciplines : Z) (c : jsstring) (e0 e1 e2 : Engine) :
  conforms e0 -> conforms e2 ->
  CountryBarChart.onClick None c = Some c
  /\ CountryBarChart.onClick (CountryBarChart.onClick None c) c = None
  /\ selected (click e1 data topCountries topDisciplines
                 (render e0 data topCountries topDisciplines None) c)
     = Some c
  /\ click e2 data topCountries topDisciplines
       (click e1 data topCountries topDisciplines
          (render e0 data topCountries topDisciplines None) c) c
     = render e0 data topCountries topDisciplines None
  /\ (forall sel,
        OnEngine.graph e2 data topCountries topDisciplines sel
        = OnEngine.graph e0 data topCountries topDisciplines sel)
  /\ (forall sel,
        OnEngine.graph e0 data topCountries topDisciplines sel
        = Homework3.graph data topCountries topDisciplines sel).
Proof.
  intros H0 H2.
  assert (H : CountryBarChart.onClick (CountryBarChart.onClick None c) c = None).
  { cbn [CountryBarChart.onClick]; rewrite str_eqb_refl; reflexivity. }
  split; [reflexivity|]; split; [exact H|]; split; [reflexivity|].
  split; [|split].
  - unfold click, render; cbn [selected].
    rewrite H, !graph_on_engine by assumption; reflexivity.
  - intros sel; rewrite !graph_on_engine by assumption; reflexivity.
  - intros sel; apply graph_on_engine; exact H0.
Qed.

Lemma toggle_twice_same_graph_witness :
  conforms insertion_engine
  /\ conforms append_engine
  /\ click append_engine rows_usa 12 12
       (click insertion_engine rows_usa 12 12
          (render insertion_engine rows_usa 12 12 None) (lit "USA"))
       (lit "USA")
     = render insertion_engine rows_usa 12 12 None.
Proof.
  split; [exact conforms_insertion_engine|].
  split; [exact conforms_append_engine|].
  exact (proj1 (proj2 (proj2 (proj2
    (toggle_twice_same_graph rows_usa 12 12 (lit "USA")
       insertion_engine insertion_engine append_engine
       conforms_insertion_engine conforms_append_engine))))).
Defined.

(* ================================================================= *)
(** ** Instances on the three-record example *)

Lemma graph_indices_valid_witness :
  safe_labels rows_usa = true
  /\ Forall2
       (fun l0 l =>
          exists i j,
            source l = Some i /\ target l = Some j /\ value l = l_value l0
            /\ nth_error (map name (nodes (Homework3.graph rows_usa 1 2 None))) i
               = Some (l_source l0)
            /\ nth_error (map name (nodes (Homework3.graph rows_usa 1 2 None))) j
               = Some (l_target l0)
            /\ i < length (nodes (Homework3.graph rows_usa 1 2 None))
            /\ j < length (nodes (Homework3.graph rows_usa 1 2 None)))
       (named_links rows_usa 1 2 None)
       (links (Homework3.graph rows_usa 1 2 None)).
Proof.
  split; [reflexivity|].
  exact (graph_indices_valid rows_usa 1 2 None eq_refl).
Defined.

Lemma links_distinct_weighted_witness :
  safe_labels rows_usa = true
  /\ (NoDup (map (fun l => (l_source l, l_target l))
                 (named_links rows_usa 1 2 None))
      /\ NoDup (map (fun l => (source l, target l))
                    (links (Homework3.graph rows_usa 1 2 None)))
      /\ Forall (fun l =>
                   l_value l
                   = length (filter (fun r => contributes r (l_source l)
                                                          (l_target l))
                                    (final_rows rows_usa 1 2 None)))
                (named_links rows_usa 1 2 None)).
Proof.
  split; [reflexivity|].
  exact (links_distinct_weighted rows_usa 1 2 None eq_refl).
Defined.

Lemma graph_doubled_witness :
  Doubled rows_usa (rows_usa ++ rows_usa)
  /\ Homework3.graph (rows_usa ++ rows_usa) 1 2 None
     = double_weights (Homework3.graph rows_usa 1 2 None).
Proof.
  split; [apply Doubled_app_self|].
  exact (graph_doubled rows_usa (rows_usa ++ rows_usa) 1 2 None
           (Doubled_app_self rows_usa)).
Defined.

Lemma flow_conserved_witness :
  safe_labels rows_usa = true
  /\ nth_error (map name (nodes (Homework3.graph rows_usa 1 2 None))) 2
     = Some (lit "D: Swimming")
  /\ startsWith prefix_D (lit "D: Swimming") = true
  /\ flow_in (Homework3.graph rows_usa 1 2 None) 2
     = flow_out (Homework3.graph rows_usa 1 2 None) 2.
Proof.
  split; [reflexivity|]; split; [reflexivity|]; split; [reflexivity|].
  exact (proj2 (proj2
           (flow_conserved rows_usa 1 2 None 2 (lit "D: Swimming")
              eq_refl eq_refl eq_refl))).
Defined.
